(** * IPXTransporter: relay engine, dedup store, peer links and statistics

    A shallow embedding of the Go sources
      - [internal/relay/dedup.go]   (DedupCache),
      - [internal/relay/server.go]  (Server: fan-out loop, admission,
                                     broadcast, CollectStats, AddPeer, demo),
      - [internal/peer/peer.go]     (Peer: NewPeer, Run, GetStats),
      - [internal/stats/stats.go]   (Stats.SortPeers),
    together with models of the library routines they call
    (crypto/sha256, hashicorp/golang-lru, strings, net, sort).

    Conventions.  Go's [uint64] is a [Z] kept in [0, 2^64) with the
    wrap-around written out ([wrap64]); Go's [int]/[int64] is a [Z] wrapped
    into [-2^63, 2^63) ([wrapInt]).  A [[]byte] is a [list byte]; a Go
    [string] is a Rocq [string] (a sequence of 8-bit characters, compared
    bytewise).  [map[string]*Peer] is a [gmap string Peer]; the order in
    which Go ranges over it is unspecified and is passed in explicitly
    where it can be observed.  A buffered channel is the list of frames it
    holds, oldest first. *)

From Stdlib Require Import ZArith List Bool Lia.
From Stdlib Require Import Strings.String Strings.Ascii Strings.Byte.
From Stdlib Require Import Sorting.Sorted Sorting.Permutation.
From Stdlib Require OrderedTypeEx.
From stdpp Require Import gmap strings list fin_maps.

Local Open Scope Z_scope.

(** ** Machine integers *)

Definition wrap64 (x : Z) : Z := x mod 2 ^ 64.

Definition wrapInt (x : Z) : Z := (x + 2 ^ 63) mod 2 ^ 64 - 2 ^ 63.

(** [atomic.AddUint64(&c, d)]. *)
Definition AddUint64 (c d : Z) : Z := wrap64 (c + d).

(** The conversion [uint64(x)] of a signed value. *)
Definition uint64_of_int (x : Z) : Z := wrap64 x.

(** Go's [/] and [%] on signed integers truncate toward zero; a zero divisor
    panics ([None]). *)
Definition go_div (a b : Z) : option Z :=
  if b =? 0 then None else Some (wrapInt (Z.quot a b)).

Definition go_mod (a b : Z) : option Z :=
  if b =? 0 then None else Some (Z.rem a b).

Definition byte_to_Z (b : byte) : Z := Z.of_N (Byte.to_N b).

Definition Z_to_byte (z : Z) : byte :=
  match Byte.of_N (Z.to_N (z mod 256)) with
  | Some b => b
  | None => x00
  end.

(** [binary.BigEndian] encoding and decoding of a [uint32]. *)
Definition be32 (n : Z) : list byte :=
  [Z_to_byte (Z.shiftr n 24); Z_to_byte (Z.shiftr n 16);
   Z_to_byte (Z.shiftr n 8); Z_to_byte n].

Definition be32_decode (b0 b1 b2 b3 : byte) : Z :=
  Z.lor (Z.shiftl (byte_to_Z b0) 24)
    (Z.lor (Z.shiftl (byte_to_Z b1) 16)
       (Z.lor (Z.shiftl (byte_to_Z b2) 8) (byte_to_Z b3))).

(** ** crypto/sha256

    [sha256.Sum256] of the Go standard library (FIPS 180-4), on 32-bit words
    held in [Z]. *)
Module Sha256.

Definition w32 (x : Z) : Z := x mod 2 ^ 32.
Definition add32 (x y : Z) : Z := w32 (x + y).
Definition rotr (n x : Z) : Z :=
  Z.lor (Z.shiftr x n) (w32 (Z.shiftl x (32 - n))).
Definition not32 (x : Z) : Z := Z.lxor x (2 ^ 32 - 1).

Definition Ch (x y z : Z) : Z := Z.lxor (Z.land x y) (Z.land (not32 x) z).
Definition Maj (x y z : Z) : Z :=
  Z.lxor (Z.land x y) (Z.lxor (Z.land x z) (Z.land y z)).
Definition Sigma0 (x : Z) : Z :=
  Z.lxor (rotr 2 x) (Z.lxor (rotr 13 x) (rotr 22 x)).
Definition Sigma1 (x : Z) : Z :=
  Z.lxor (rotr 6 x) (Z.lxor (rotr 11 x) (rotr 25 x)).
Definition sigma0 (x : Z) : Z :=
  Z.lxor (rotr 7 x) (Z.lxor (rotr 18 x) (Z.shiftr x 3)).
Definition sigma1 (x : Z) : Z :=
  Z.lxor (rotr 17 x) (Z.lxor (rotr 19 x) (Z.shiftr x 10)).

(** The round constants and the initial hash value are, as FIPS 180-4 defines
    them, the first 32 bits of the fractional parts of the cube roots of the
    first 64 primes and of the square roots of the first 8 primes.
    [iroot k bits n 0] is the integer [k]-th root of [n], found bit by bit
    from the top. *)
Fixpoint iroot (k : Z) (bits : nat) (n acc : Z) : Z :=
  match bits with
  | O => acc
  | S b =>
      let cand := acc + 2 ^ Z.of_nat b in
      if cand ^ k <=? n then iroot k b n cand else iroot k b n acc
  end.

Definition primes64 : list Z :=
  [2; 3; 5; 7; 11; 13; 17; 19; 23; 29; 31; 37; 41; 43; 47; 53; 59; 61; 67; 71;
   73; 79; 83; 89; 97; 101; 103; 107; 109; 113; 127; 131; 137; 139; 149; 151;
   157; 163; 167; 173; 179; 181; 191; 193; 197; 199; 211; 223; 227; 229; 233;
   239; 241; 251; 257; 263; 269; 271; 277; 281; 283; 293; 307; 311].

Definition K : list Z :=
  Eval vm_compute in
    map (fun p => w32 (iroot 3 36 (p * 2 ^ 96) 0)) primes64.

Definition H0 : list Z :=
  Eval vm_compute in
    map (fun p => w32 (iroot 2 36 (p * 2 ^ 64) 0)) (firstn 8 primes64).

(** Padding: a [0x80] byte, zeros up to 56 mod 64, the bit length on 8
    bytes, big-endian. *)
Definition be64 (n : Z) : list Z :=
  map (fun i => Z.shiftr n (8 * i) mod 256) [7; 6; 5; 4; 3; 2; 1; 0].

Definition pad (msg : list Z) : list Z :=
  let len := Z.of_nat (length msg) in
  let zeros := Z.to_nat ((55 - len) mod 64) in
  msg ++ 0x80 :: repeat 0 zeros ++ be64 (8 * len).

(** Big-endian 32-bit words of a byte sequence. *)
Fixpoint words (bs : list Z) : list Z :=
  match bs with
  | b0 :: b1 :: b2 :: b3 :: rest =>
      (Z.shiftl b0 24 + Z.shiftl b1 16 + Z.shiftl b2 8 + b3) :: words rest
  | _ => []
  end.

(** Message schedule: [w] holds the words computed so far, newest first. *)
Fixpoint schedule (n : nat) (w : list Z) : list Z :=
  match n with
  | O => w
  | S n' =>
      let wt :=
        add32 (add32 (sigma1 (nth 1 w 0)) (nth 6 w 0))
              (add32 (sigma0 (nth 14 w 0)) (nth 15 w 0)) in
      schedule n' (wt :: w)
  end.

Definition round (st : list Z) (kw : Z * Z) : list Z :=
  match st with
  | [a; b; c; d; e; f; g; h] =>
      let t1 := add32 (add32 (add32 h (Sigma1 e)) (add32 (Ch e f g) (fst kw)))
                      (snd kw) in
      let t2 := add32 (Sigma0 a) (Maj a b c) in
      [add32 t1 t2; a; b; c; add32 d t1; e; f; g]
  | _ => st
  end.

Definition block (st : list Z) (blk : list Z) : list Z :=
  let w := rev (schedule 48 (rev blk)) in
  let st' := fold_left round (combine K w) st in
  map (fun p => add32 (fst p) (snd p)) (combine st st').

Fixpoint blocks (n : nat) (st : list Z) (ws : list Z) : list Z :=
  match n with
  | O => st
  | S n' => blocks n' (block st (firstn 16 ws)) (skipn 16 ws)
  end.

Definition word_bytes (w : Z) : list Z :=
  [Z.shiftr w 24 mod 256; Z.shiftr w 16 mod 256; Z.shiftr w 8 mod 256;
   w mod 256].

Definition Sum256 (data : list byte) : list byte :=
  let ws := words (pad (map byte_to_Z data)) in
  let st := blocks (length ws / 16) H0 ws in
  map Z_to_byte (concat (map word_bytes st)).

End Sha256.

Global Opaque Sha256.Sum256.

(** ** Results of fallible constructors *)

Inductive result (A : Type) : Type :=
| Ok (a : A)
| Error (msg : string).
Arguments Ok {A} a.
Arguments Error {A} msg.

(** ** github.com/hashicorp/golang-lru/v2

    The cache the dedup store is built on: [lru.Cache[string, bool]].  The
    library keeps a hash map and a doubly linked [evictList]; the model keeps
    the [evictList] alone, front (most recently added or refreshed) first.
    [Contains] looks a key up without touching the order; [Add] moves an
    existing key to the front, and otherwise pushes the key at the front and
    removes the entry at the back when the length exceeds [size]. *)
Module lru.

Record Cache : Type := mkCache {
  size : Z;
  evictList : list (string * bool)
}.

Definition New (size : Z) : result Cache :=
  if size <=? 0 then Error "must provide a positive size"
  else Ok (mkCache size []).

Definition Keys (c : Cache) : list string := map fst (evictList c).

Definition Len (c : Cache) : Z := Z.of_nat (length (evictList c)).

Definition Contains (c : Cache) (key : string) : bool :=
  existsb (String.eqb key) (Keys c).

Definition removeKey (key : string) (l : list (string * bool)) :
  list (string * bool) :=
  List.filter (fun e => negb (String.eqb key (fst e))) l.

(** Returns the cache and whether an entry was evicted. *)
Definition Add (c : Cache) (key : string) (value : bool) : Cache * bool :=
  if Contains c key then
    (mkCache (size c) ((key, value) :: removeKey key (evictList c)), false)
  else
    let l := (key, value) :: evictList c in
    let evict := Z.of_nat (length l) >? size c in
    (mkCache (size c) (if evict then removelast l else l), evict).

End lru.

(** ** internal/relay/dedup.go *)

(** [time.Second], in nanoseconds ([time.Duration] is an [int64]). *)
Definition Second : Z := 1000000000.

Record DedupCache : Type := mkDedupCache {
  cache : lru.Cache;
  ttl : Z
}.

Definition NewDedupCache (size ttlSeconds : Z) : result DedupCache :=
  match lru.New size with
  | Error e => Error e
  | Ok c => Ok (mkDedupCache c (wrapInt (ttlSeconds * Second)))
  end.

(** [string(hash[:])] for [hash := sha256.Sum256(data)]. *)
Definition fingerprint (data : list byte) : string :=
  string_of_list_byte (Sha256.Sum256 data).

(** [IsDuplicate] returns the verdict and the cache as the call leaves it.
    The [ttl] field is carried along and never read; the clock is never
    consulted. *)
Definition IsDuplicate (d : DedupCache) (data : list byte) : bool * DedupCache :=
  let key := fingerprint data in
  if lru.Contains (cache d) key then (true, d)
  else (false, mkDedupCache (fst (lru.Add (cache d) key true)) (ttl d)).

(** A sequence of [IsDuplicate] calls on one cache: the verdicts in call
    order and the final cache. *)
Fixpoint IsDuplicate_seq (d : DedupCache) (frames : list (list byte)) :
  list bool * DedupCache :=
  match frames with
  | [] => ([], d)
  | f :: rest =>
      let '(b, d1) := IsDuplicate d f in
      let '(bs, d2) := IsDuplicate_seq d1 rest in
      (b :: bs, d2)
  end.

(** Calls stamped with the wall-clock time (nanoseconds) at which they are
    made.  The code has no clock input, so the stamps do not reach it. *)
Definition IsDuplicate_timed (d : DedupCache) (calls : list (Z * list byte)) :
  list bool * DedupCache :=
  IsDuplicate_seq d (map snd calls).

(** *** The dedup store as the specification words it

    A least-recently-used store in which every [test_and_insert] naming a
    fingerprint counts as a use of it: the list is ordered by last use, most
    recent first, and a hit moves the entry to the front.  Only used to
    compare with [IsDuplicate]. *)
Module SpecLRU.

Record Store : Type := mkStore {
  capacity : Z;
  byUse : list string
}.

Definition test_and_insert (s : Store) (fp : string) : bool * Store :=
  let others := List.filter (fun k => negb (String.eqb fp k)) (byUse s) in
  if existsb (String.eqb fp) (byUse s) then
    (true, mkStore (capacity s) (fp :: others))
  else
    let kept :=
      if Z.of_nat (length (byUse s)) >=? capacity s
      then removelast (byUse s) else byUse s in
    (false, mkStore (capacity s) (fp :: kept)).

Fixpoint run (s : Store) (frames : list (list byte)) : list bool :=
  match frames with
  | [] => []
  | f :: rest =>
      let '(b, s1) := test_and_insert s (fingerprint f) in
      b :: run s1 rest
  end.

End SpecLRU.

(** The TTL rule as the specification words it, over a timed call sequence
    and the verdicts it got: a call none of whose earlier same-fingerprint
    calls lies within [ttl] of it must not be a hit. *)
Fixpoint ttl_respected_from (ttl : Z) (seen : list (Z * string))
  (calls : list (Z * list byte)) (verdicts : list bool) : bool :=
  match calls, verdicts with
  | (t, f) :: calls', v :: verdicts' =>
      let fp := fingerprint f in
      let fresh :=
        existsb (fun e => String.eqb fp (snd e) && (t - fst e <=? ttl)) seen in
      (fresh || negb v)
      && ttl_respected_from ttl ((t, fp) :: seen) calls' verdicts'
  | _, _ => true
  end.

Definition ttl_respected (d : DedupCache) (calls : list (Z * list byte)) : bool :=
  ttl_respected_from (ttl d) [] calls (fst (IsDuplicate_timed d calls)).

(** *** The frames of the dedup unit test ([dedup_test.go]) *)

Definition p1 : list byte := [x70; x31].
Definition p2 : list byte := [x70; x32].
Definition p3 : list byte := [x70; x33].

(** ** Go's [strings] and [net] helpers used by the server *)
Module strings.

Fixpoint HasPrefix (s prefix : string) : bool :=
  match prefix, s with
  | EmptyString, _ => true
  | String c prefix', String c' s' => Ascii.eqb c c' && HasPrefix s' prefix'
  | String _ _, EmptyString => false
  end.

Fixpoint Contains (s substr : string) : bool :=
  HasPrefix s substr
  || match s with
     | EmptyString => false
     | String _ s' => Contains s' substr
     end.

Fixpoint HasSuffix (s suffix : string) : bool :=
  String.eqb s suffix
  || match s with
     | EmptyString => false
     | String _ s' => HasSuffix s' suffix
     end.

(** Byte index of the first occurrence of [substr] in [s], or [-1]. *)
Fixpoint Index (s substr : string) : Z :=
  if HasPrefix s substr then 0
  else match s with
       | EmptyString => -1
       | String _ s' => let r := Index s' substr in
                        if r <? 0 then -1 else r + 1
       end.

(** Byte index of the last occurrence of [substr] in [s], or [-1]. *)
Fixpoint LastIndex (s substr : string) : Z :=
  match s with
  | EmptyString => if HasPrefix s substr then 0 else -1
  | String _ s' =>
      let r := LastIndex s' substr in
      if 0 <=? r then r + 1
      else if HasPrefix s substr then 0 else -1
  end.

(** The slices [s[i:]] and [s[:j]] for indices within bounds. *)
Fixpoint from (s : string) (i : nat) : string :=
  match i, s with
  | O, _ => s
  | S i', String _ s' => from s' i'
  | S _, EmptyString => EmptyString
  end.

Fixpoint upto (s : string) (j : nat) : string :=
  match j, s with
  | O, _ => EmptyString
  | S j', String c s' => String c (upto s' j')
  | S _, EmptyString => EmptyString
  end.

Definition len (s : string) : Z := Z.of_nat (String.length s).

End strings.

Module net.

(** [net.JoinHostPort]: a host containing a colon is taken for an IPv6
    literal and put in brackets. *)
Definition JoinHostPort (host port : string) : string :=
  if 0 <=? strings.Index host ":"
  then String.append "[" (String.append host (String.append "]:" port))
  else String.append host (String.append ":" port).

(** [net.SplitHostPort]: host and port of ["host:port"], ["[host]:port"];
    [None] stands for the [*AddrError] results. *)
Definition SplitHostPort (hostport : string) : option (string * string) :=
  let i := strings.LastIndex hostport ":" in
  if i <? 0 then None (* missing port in address *)
  else
    let port := strings.from hostport (Z.to_nat (i + 1)) in
    if strings.HasPrefix hostport "[" then
      let e := strings.Index hostport "]" in
      if e <? 0 then None (* missing ']' in address *)
      else if negb (e + 1 =? i) then None (* missing port / too many colons *)
      else
        let host := strings.upto (strings.from hostport 1) (Z.to_nat (e - 1)) in
        if strings.Contains (strings.from hostport 1) "[" then None
        else if strings.Contains (strings.from hostport (Z.to_nat (e + 1))) "]"
        then None
        else Some (host, port)
    else
      let host := strings.upto hostport (Z.to_nat i) in
      if strings.Contains host ":" then None (* too many colons in address *)
      else if strings.Contains hostport "[" then None
      else if strings.Contains hostport "]" then None
      else Some (host, port).

End net.

(** ** internal/peer/peer.go: the peer record *)

(** What the code uses of a [net.Conn]: the text of its remote address and,
    when that address is a [*net.TCPAddr], its IP bytes. *)
Record Conn : Type := mkConn {
  RemoteAddr_String : string;
  RemoteAddr_IP : option (list byte)
}.

(** The fields [lat] and [lon] ([float64], set by the GeoIP lookup only) are
    left out. *)
Record Peer : Type := mkPeer {
  ID : string;
  PeerConn : Conn;
  ConnectedAt : Z;
  SendChan : list (list byte);
  lastSeen : Z;
  sentBytes : Z;
  recvBytes : Z;
  sentPkts : Z;
  recvPkts : Z;
  errors : Z;
  country : string;
  city : string;
  hostname : string;
  parentID : string;
  numChildren : Z;
  maxChildren : Z;
  whois : string;
  networkKey : string
}.

(** Capacity of [SendChan]: [make(chan []byte, 1000)]. *)
Definition SendChanCap : Z := 1000.

(** [NewPeer]; [now] is the reading of [time.Now()].  Every field not listed
    in the composite literal has its zero value, [parentID] included. *)
Definition NewPeer (id : string) (conn : Conn) (networkKey : string) (now : Z) :
  Peer :=
  {| ID := id; PeerConn := conn; ConnectedAt := now; SendChan := [];
     lastSeen := now; sentBytes := 0; recvBytes := 0; sentPkts := 0;
     recvPkts := 0; errors := 0; country := ""; city := ""; hostname := "";
     parentID := ""; numChildren := 0; maxChildren := 0; whois := "";
     networkKey := networkKey |}.

Definition set_SendChan (p : Peer) (q : list (list byte)) : Peer :=
  {| ID := ID p; PeerConn := PeerConn p; ConnectedAt := ConnectedAt p;
     SendChan := q;
     lastSeen := lastSeen p; sentBytes := sentBytes p; recvBytes := recvBytes p;
     sentPkts := sentPkts p; recvPkts := recvPkts p; errors := errors p;
     country := country p; city := city p; hostname := hostname p;
     parentID := parentID p; numChildren := numChildren p;
     maxChildren := maxChildren p; whois := whois p;
     networkKey := networkKey p |}.

(** The non-blocking send [select { case p.SendChan <- data: default: }]: the
    frame is queued when the buffer has room and dropped otherwise. *)
Definition trySend (p : Peer) (data : list byte) : Peer :=
  if Z.of_nat (length (SendChan p)) <? SendChanCap
  then set_SendChan p (SendChan p ++ [data])
  else p.

(** ** internal/config/config.go *)

Record Config : Type := mkConfig {
  Interface : string;
  ListenAddr : string;
  Peers : list string;
  DedupCacheSize : Z;
  DedupCacheTTL : Z;
  SortField : string;
  SortReverse : bool;
  BannedHosts : list string;
  BannedIDs : list string;
  AdminPass : string;
  MaxChildren : Z;
  NetworkKey : string
}.

Definition DefaultConfig : Config :=
  {| Interface := ""; ListenAddr := ":8787"; Peers := [];
     DedupCacheSize := 64000; DedupCacheTTL := 30; SortField := "id";
     SortReverse := false; BannedHosts := []; BannedIDs := [];
     AdminPass := "admin"; MaxChildren := 5; NetworkKey := "" |}.

Definition set_Peers (c : Config) (l : list string) : Config :=
  {| Interface := Interface c; ListenAddr := ListenAddr c; Peers := l;
     DedupCacheSize := DedupCacheSize c; DedupCacheTTL := DedupCacheTTL c;
     SortField := SortField c; SortReverse := SortReverse c;
     BannedHosts := BannedHosts c; BannedIDs := BannedIDs c;
     AdminPass := AdminPass c; MaxChildren := MaxChildren c;
     NetworkKey := NetworkKey c |}.

Definition set_MaxChildren (c : Config) (n : Z) : Config :=
  {| Interface := Interface c; ListenAddr := ListenAddr c; Peers := Peers c;
     DedupCacheSize := DedupCacheSize c; DedupCacheTTL := DedupCacheTTL c;
     SortField := SortField c; SortReverse := SortReverse c;
     BannedHosts := BannedHosts c; BannedIDs := BannedIDs c;
     AdminPass := AdminPass c; MaxChildren := n;
     NetworkKey := NetworkKey c |}.


Definition set_Banned (c : Config) (ids hosts : list string) : Config :=
  {| Interface := Interface c; ListenAddr := ListenAddr c; Peers := Peers c;
     DedupCacheSize := DedupCacheSize c; DedupCacheTTL := DedupCacheTTL c;
     SortField := SortField c; SortReverse := SortReverse c;
     BannedHosts := hosts; BannedIDs := ids;
     AdminPass := AdminPass c; MaxChildren := MaxChildren c;
     NetworkKey := NetworkKey c |}.

(** ** internal/relay/server.go: the server *)

(** The [Server] struct.  Two fields stand for the collaborators the relay
    loop talks to: [injected] is the sequence of frames handed to
    [capturer.Inject], in call order; [dialing] lists the addresses for which
    a [connectToPeer] goroutine has been started. *)
Record Server : Type := mkServer {
  cfg : Config;
  dedup : DedupCache;
  peers : gmap string Peer;
  startTime : Z;
  totalReceived : Z;
  totalForwarded : Z;
  totalDropped : Z;
  totalErrors : Z;
  captureError : string;
  configPath : string;
  demoMode : bool;
  demoPacketRate : Z;
  demoDropRate : Z;
  demoErrorRate : Z;
  demoNumPeers : Z;
  injected : list (list byte);
  dialing : list string
}.

Definition NewServer (c : Config) (path : string) (now : Z) : result Server :=
  match NewDedupCache (DedupCacheSize c) (DedupCacheTTL c) with
  | Error e => Error e
  | Ok d =>
      Ok {| cfg := c; dedup := d; peers := ∅; startTime := now;
            totalReceived := 0; totalForwarded := 0; totalDropped := 0;
            totalErrors := 0; captureError := ""; configPath := path;
            demoMode := false; demoPacketRate := 15; demoDropRate := 3;
            demoErrorRate := 10; demoNumPeers := 5;
            injected := []; dialing := [] |}
  end.

Definition with_cfg (s : Server) (c : Config) : Server :=
  {| cfg := c; dedup := dedup s; peers := peers s; startTime := startTime s;
     totalReceived := totalReceived s; totalForwarded := totalForwarded s;
     totalDropped := totalDropped s; totalErrors := totalErrors s;
     captureError := captureError s; configPath := configPath s;
     demoMode := demoMode s; demoPacketRate := demoPacketRate s;
     demoDropRate := demoDropRate s; demoErrorRate := demoErrorRate s;
     demoNumPeers := demoNumPeers s; injected := injected s;
     dialing := dialing s |}.

Definition with_dedup (s : Server) (d : DedupCache) : Server :=
  {| cfg := cfg s; dedup := d; peers := peers s; startTime := startTime s;
     totalReceived := totalReceived s; totalForwarded := totalForwarded s;
     totalDropped := totalDropped s; totalErrors := totalErrors s;
     captureError := captureError s; configPath := configPath s;
     demoMode := demoMode s; demoPacketRate := demoPacketRate s;
     demoDropRate := demoDropRate s; demoErrorRate := demoErrorRate s;
     demoNumPeers := demoNumPeers s; injected := injected s;
     dialing := dialing s |}.

Definition with_peers (s : Server) (m : gmap string Peer) : Server :=
  {| cfg := cfg s; dedup := dedup s; peers := m; startTime := startTime s;
     totalReceived := totalReceived s; totalForwarded := totalForwarded s;
     totalDropped := totalDropped s; totalErrors := totalErrors s;
     captureError := captureError s; configPath := configPath s;
     demoMode := demoMode s; demoPacketRate := demoPacketRate s;
     demoDropRate := demoDropRate s; demoErrorRate := demoErrorRate s;
     demoNumPeers := demoNumPeers s; injected := injected s;
     dialing := dialing s |}.

(** The four aggregate counters, set together. *)
Definition with_counters (s : Server) (received forwarded dropped errs : Z) :
  Server :=
  {| cfg := cfg s; dedup := dedup s; peers := peers s; startTime := startTime s;
     totalReceived := received; totalForwarded := forwarded;
     totalDropped := dropped; totalErrors := errs;
     captureError := captureError s; configPath := configPath s;
     demoMode := demoMode s; demoPacketRate := demoPacketRate s;
     demoDropRate := demoDropRate s; demoErrorRate := demoErrorRate s;
     demoNumPeers := demoNumPeers s; injected := injected s;
     dialing := dialing s |}.

Definition with_injected (s : Server) (l : list (list byte)) : Server :=
  {| cfg := cfg s; dedup := dedup s; peers := peers s; startTime := startTime s;
     totalReceived := totalReceived s; totalForwarded := totalForwarded s;
     totalDropped := totalDropped s; totalErrors := totalErrors s;
     captureError := captureError s; configPath := configPath s;
     demoMode := demoMode s; demoPacketRate := demoPacketRate s;
     demoDropRate := demoDropRate s; demoErrorRate := demoErrorRate s;
     demoNumPeers := demoNumPeers s; injected := l;
     dialing := dialing s |}.

Definition with_dialing (s : Server) (l : list string) : Server :=
  {| cfg := cfg s; dedup := dedup s; peers := peers s; startTime := startTime s;
     totalReceived := totalReceived s; totalForwarded := totalForwarded s;
     totalDropped := totalDropped s; totalErrors := totalErrors s;
     captureError := captureError s; configPath := configPath s;
     demoMode := demoMode s; demoPacketRate := demoPacketRate s;
     demoDropRate := demoDropRate s; demoErrorRate := demoErrorRate s;
     demoNumPeers := demoNumPeers s; injected := injected s;
     dialing := l |}.

Definition with_demo (s : Server) (mode : bool)
  (packetRate dropRate errorRate numPeers : Z) : Server :=
  {| cfg := cfg s; dedup := dedup s; peers := peers s; startTime := startTime s;
     totalReceived := totalReceived s; totalForwarded := totalForwarded s;
     totalDropped := totalDropped s; totalErrors := totalErrors s;
     captureError := captureError s; configPath := configPath s;
     demoMode := mode; demoPacketRate := packetRate;
     demoDropRate := dropRate; demoErrorRate := errorRate;
     demoNumPeers := numPeers; injected := injected s;
     dialing := dialing s |}.

Definition SetDemoMode (s : Server) (enabled : bool) : Server :=
  with_demo s enabled (demoPacketRate s) (demoDropRate s) (demoErrorRate s)
    (demoNumPeers s).

Definition UpdateDemoProps (s : Server) (packetRate dropRate errorRate numPeers : Z) :
  Server :=
  with_demo s (demoMode s) packetRate dropRate errorRate numPeers.

Definition UpdateConfig_MaxChildren (s : Server) (maxChildren : Z) : Server :=
  if 0 <? maxChildren then with_cfg s (set_MaxChildren (cfg s) maxChildren)
  else s.

(** *** The relay loop of [Server.Start] *)

(** [broadcastToPeers]: one non-blocking send per peer in the map. *)
Definition broadcastToPeers (s : Server) (data : list byte) : Server :=
  with_peers s ((fun p => trySend p data) <$> peers s).

(** What the [select] of the relay loop can receive: a frame on [packetChan]
    (from the capture adapter), or a frame on [peerRelayChan] (from a peer's
    receiver) together with the outcome of the [capturer.Inject] call it may
    lead to ([true]: Inject returns an error). *)
Inductive Event : Type :=
| CaptureFrame (data : list byte)
| PeerFrame (data : list byte) (injectFails : bool).

Definition relay_step (s : Server) (ev : Event) : Server :=
  match ev with
  | CaptureFrame data =>
      let s1 := with_counters s (AddUint64 (totalReceived s) 1)
                  (totalForwarded s) (totalDropped s) (totalErrors s) in
      let '(dup, d) := IsDuplicate (dedup s1) data in
      let s2 := with_dedup s1 d in
      if dup then
        with_counters s2 (totalReceived s2) (totalForwarded s2)
          (AddUint64 (totalDropped s2) 1) (totalErrors s2)
      else
        let s3 := broadcastToPeers s2 data in
        with_counters s3 (totalReceived s3) (AddUint64 (totalForwarded s3) 1)
          (totalDropped s3) (totalErrors s3)
  | PeerFrame data injectFails =>
      let '(dup, d) := IsDuplicate (dedup s) data in
      let s1 := with_dedup s d in
      if dup then s1
      else
        let s2 := with_injected s1 (injected s1 ++ [data]) in
        if injectFails then
          with_counters s2 (totalReceived s2) (totalForwarded s2)
            (totalDropped s2) (AddUint64 (totalErrors s2) 1)
        else s2
  end.

Definition relay_run (s : Server) (evs : list Event) : Server :=
  fold_left relay_step evs s.

(** *** The counter updates of a [runDemo] tick (lines 520-525)

    [t1 .. t4] are the four readings of [time.Now().Unix()].  [None] is a
    run-time panic (integer division by zero).  The reconciliation of the mock
    peers before and [UpdateDemoStats] after do not touch the aggregate
    counters. *)
Definition runDemo_counters (s : Server) (t1 t2 t3 t4 : Z) : option Server :=
  half ← go_div (demoPacketRate s) 2;
  let m := wrapInt (half + 1) in
  r1 ← go_mod t1 m;
  let received :=
    AddUint64 (totalReceived s)
      (uint64_of_int (wrapInt (demoPacketRate s + r1))) in
  r2 ← go_mod t2 m;
  let forwarded :=
    AddUint64 (totalForwarded s)
      (uint64_of_int
         (wrapInt (wrapInt (demoPacketRate s - demoDropRate s) + r2))) in
  r3 ← go_mod t3 (wrapInt (demoDropRate s + 1));
  let dropped := AddUint64 (totalDropped s) (uint64_of_int r3) in
  if 0 <? demoErrorRate s then
    r4 ← go_mod t4 (demoErrorRate s);
    Some (with_counters s received forwarded dropped
            (if r4 =? 0 then AddUint64 (totalErrors s) 1 else totalErrors s))
  else Some (with_counters s received forwarded dropped (totalErrors s)).

(** ** sort.Slice

    Go's [sort.Slice] (Go 1.19 and later) calls [pdqsort_func], which runs
    [insertionSortLessFunc] on a slice of at most [maxInsertion = 12]
    elements and pattern-defeating quicksort on a longer one.  The insertion
    sort is modelled: for each element in turn, from the second on, the loop
    [for j := i; j > a && less(j, j-1); j-- { swap(j, j-1) }] moves it left
    past its predecessors for as long as [less] holds; the sorted prefix is
    kept last element first.  The quicksort is not modelled: [sort_Slice]
    takes it as the parameter [pdqsort], about which nothing is assumed, so
    that what is proved about [sort_Slice] is proved for slices of at most 12
    elements only. *)
Section SortSlice.
Context {A : Type} (less : A -> A -> bool).



End SortSlice.



(** ** internal/stats/stats.go *)
Module stats.

Record PeerStat : Type := mkPeerStat {
  ID : string;
  IP : list byte;
  ConnectedAt : Z;
  LastSeen : Z;
  SentBytes : Z;
  RecvBytes : Z;
  SentPkts : Z;
  RecvPkts : Z;
  Errors : Z;
  Hostname : string;
  ParentID : string;
  NumChildren : Z;
  MaxChildren : Z;
  Country : string;
  City : string;
  Whois : string
}.



Section WithIPString.
(** [net.IP.String] of the Go standard library: the textual form of an
    address, by which the ["ip"] key compares. *)
Variable IP_String : list byte -> string.

(** What [sort.Slice] does to a slice of more than 12 records. *)
Variable pdqsort :
  (PeerStat -> PeerStat -> bool) -> list PeerStat -> list PeerStat.






End WithIPString.


End stats.

(** [Peer.GetStats]. *)
Definition GetStats (p : Peer) : stats.PeerStat :=
  {| stats.ID := ID p;
     stats.IP := match RemoteAddr_IP (PeerConn p) with
                 | Some ip => ip
                 | None => []
                 end;
     stats.ConnectedAt := ConnectedAt p;
     stats.LastSeen := lastSeen p;
     stats.SentBytes := sentBytes p;
     stats.RecvBytes := recvBytes p;
     stats.SentPkts := sentPkts p;
     stats.RecvPkts := recvPkts p;
     stats.Errors := errors p;
     stats.Hostname := hostname p;
     stats.ParentID := parentID p;
     stats.NumChildren := numChildren p;
     stats.MaxChildren := maxChildren p;
     stats.Country := country p;
     stats.City := city p;
     stats.Whois := whois p |}.





(** *** Admission: [handleNewConn] *)

Inductive Rejection : Type :=
| BannedID
| BannedHost
| MaxChildrenReached.

Inductive Admission : Type :=
| Accepted
| Rejected (why : Rejection).

(** The peers counted by the loop at lines 226-231. *)
Definition localChildren (s : Server) : Z :=
  Z.of_nat
    (length
       (List.filter
          (fun kv => String.eqb (stats.ParentID (GetStats (snd kv))) "Local")
          (map_to_list (peers s)))).

(** [handleNewConn] up to the start of [p.Run]: the deny-list and child-count
    checks and the insertion in the map.  A rejected connection is closed and
    the server is left as it was.  [ip, _, _ := net.SplitHostPort(peerID)]
    yields the empty string when the address does not parse. *)
Definition handleNewConn (s : Server) (conn : Conn) (now : Z) :
  Server * Admission :=
  let peerID := RemoteAddr_String conn in
  let ip := match net.SplitHostPort peerID with
            | Some (host, _) => host
            | None => ""
            end in
  if existsb (fun b => String.eqb b peerID) (BannedIDs (cfg s))
  then (s, Rejected BannedID)
  else if existsb (fun b => String.eqb b ip) (BannedHosts (cfg s))
  then (s, Rejected BannedHost)
  else if localChildren s >=? MaxChildren (cfg s)
  then (s, Rejected MaxChildrenReached)
  else
    (with_peers s
       (<[peerID := NewPeer peerID conn (NetworkKey (cfg s)) now]> (peers s)),
     Accepted).

(** The [onDisconnect] callback run when [p.Run] returns. *)
Definition onDisconnect (s : Server) (id : string) : Server :=
  with_peers s (delete id (peers s)).

(** A sequence of connections handled one after the other, none of whose
    links has terminated yet. *)
Fixpoint handleNewConns (s : Server) (conns : list Conn) (now : Z) :
  Server * list Admission :=
  match conns with
  | [] => (s, [])
  | c :: rest =>
      let '(s1, a) := handleNewConn s c now in
      let '(s2, l) := handleNewConns s1 rest now in
      (s2, a :: l)
  end.

(** The accept loop of [listenPeers] calls [handleNewConn] and with it
    [p.Run] synchronously: the next connection is accepted once the link of
    the previous one has terminated and [onDisconnect] has run. *)
Fixpoint listenPeers_serial (s : Server) (conns : list Conn) (now : Z) :
  Server * list Admission :=
  match conns with
  | [] => (s, [])
  | c :: rest =>
      let '(s1, a) := handleNewConn s c now in
      let s1' := match a with
                 | Accepted => onDisconnect s1 (RemoteAddr_String c)
                 | Rejected _ => s1
                 end in
      let '(s2, l) := listenPeers_serial s1' rest now in
      (s2, a :: l)
  end.

(** *** [BanPeer] (deny lists) and [AddPeer]

    Both end with [persistConfig], which writes the configuration file when a
    path is known and leaves the server as it is. *)

Definition BanPeer (s : Server) (id ip : string) : Server :=
  let ids := if negb (String.eqb id "")
                && negb (existsb (fun b => String.eqb b id) (BannedIDs (cfg s)))
             then BannedIDs (cfg s) ++ [id] else BannedIDs (cfg s) in
  let hosts := if negb (String.eqb ip "")
                  && negb (existsb (fun b => String.eqb b ip)
                             (BannedHosts (cfg s)))
               then BannedHosts (cfg s) ++ [ip] else BannedHosts (cfg s) in
  with_cfg s (set_Banned (cfg s) ids hosts).

(** The address normalisation at the head of [AddPeer]. *)
Definition AddPeer_normalize (addr : string) : string :=
  if negb (strings.Contains addr "]") then
    if negb (strings.Contains addr ":") then net.JoinHostPort addr "8787"
    else addr
  else
    if negb (strings.HasSuffix addr ":")
       && negb (strings.Contains
                  (strings.from addr (Z.to_nat (strings.LastIndex addr "]")))
                  ":")
    then net.JoinHostPort addr "8787"
    else addr.

Definition AddPeer (s : Server) (addr : string) : Server :=
  let addr := AddPeer_normalize addr in
  if existsb (fun p => String.eqb p addr) (Peers (cfg s)) then s
  else
    let s1 := with_cfg s (set_Peers (cfg s) (Peers (cfg s) ++ [addr])) in
    if negb (demoMode s1) then with_dialing s1 (dialing s1 ++ [addr]) else s1.

(** ** internal/peer/peer.go: the two streams of [Peer.Run] *)

Definition set_recv (p : Peer) (bytes pkts seen : Z) : Peer :=
  {| ID := ID p; PeerConn := PeerConn p; ConnectedAt := ConnectedAt p;
     SendChan := SendChan p;
     lastSeen := seen; sentBytes := sentBytes p; recvBytes := bytes;
     sentPkts := sentPkts p; recvPkts := pkts; errors := errors p;
     country := country p; city := city p; hostname := hostname p;
     parentID := parentID p; numChildren := numChildren p;
     maxChildren := maxChildren p; whois := whois p;
     networkKey := networkKey p |}.

Definition set_sent (p : Peer) (bytes pkts : Z) : Peer :=
  {| ID := ID p; PeerConn := PeerConn p; ConnectedAt := ConnectedAt p;
     SendChan := SendChan p;
     lastSeen := lastSeen p; sentBytes := bytes; recvBytes := recvBytes p;
     sentPkts := pkts; recvPkts := recvPkts p; errors := errors p;
     country := country p; city := city p; hostname := hostname p;
     parentID := parentID p; numChildren := numChildren p;
     maxChildren := maxChildren p; whois := whois p;
     networkKey := networkKey p |}.

Definition set_errors (p : Peer) (n : Z) : Peer :=
  {| ID := ID p; PeerConn := PeerConn p; ConnectedAt := ConnectedAt p;
     SendChan := SendChan p;
     lastSeen := lastSeen p; sentBytes := sentBytes p; recvBytes := recvBytes p;
     sentPkts := sentPkts p; recvPkts := recvPkts p; errors := n;
     country := country p; city := city p; hostname := hostname p;
     parentID := parentID p; numChildren := numChildren p;
     maxChildren := maxChildren p; whois := whois p;
     networkKey := networkKey p |}.

(** The largest frame length the receiver accepts. *)
Definition MaxFrame : Z := 2000.

(** What follows the bytes a connection delivers: end of file, a transport
    error, or nothing yet (the next read blocks). *)
Inductive StreamEnd : Type :=
| EndEOF
| EndError
| EndPending.

(** How the receiver goroutine leaves its loop ([RecvBlocked]: it has not
    left it, the pending read blocks). *)
Inductive RecvExit : Type :=
| RecvEOF
| RecvError
| RecvTooLarge (length : Z)
| RecvDataError
| RecvCancelled
| RecvBlocked.

Record RecvResult : Type := mkRecvResult {
  rr_peer : Peer;
  rr_published : list (list byte);
  rr_unread : list byte;
  rr_exit : RecvExit
}.

(** The receiver goroutine on the bytes [input] followed by [ending].
    [published] collects the frames sent on [relayChan]; [n] counts them;
    [ctxDone n] tells whether the [select] after the [n]-th frame takes
    [<-ctx.Done()]; [clock n] is the reading of [time.Now()] for that frame.
    Each turn of the loop consumes at least the four header bytes, so
    [S (length input)] turns are enough ([receiver_total]). *)
Fixpoint receiver_loop (fuel : nat) (ctxDone : nat -> bool) (clock : nat -> Z)
  (n : nat) (p : Peer) (published : list (list byte)) (input : list byte)
  (ending : StreamEnd) : option RecvResult :=
  match fuel with
  | O => None
  | S fuel' =>
      match input with
      | b0 :: b1 :: b2 :: b3 :: rest =>
          let length := be32_decode b0 b1 b2 b3 in
          if length >? MaxFrame then
            Some (mkRecvResult p published rest (RecvTooLarge length))
          else if Z.of_nat (List.length rest) <? length then
            match ending with
            | EndPending => Some (mkRecvResult p published [] RecvBlocked)
            | _ => Some (mkRecvResult p published [] RecvDataError)
            end
          else
            let data := firstn (Z.to_nat length) rest in
            let p1 := set_recv p (AddUint64 (recvBytes p) length)
                        (AddUint64 (recvPkts p) 1) (clock n) in
            if ctxDone n then
              Some (mkRecvResult p1 published (skipn (Z.to_nat length) rest)
                      RecvCancelled)
            else
              receiver_loop fuel' ctxDone clock (S n) p1 (published ++ [data])
                (skipn (Z.to_nat length) rest) ending
      | [] =>
          match ending with
          | EndEOF => Some (mkRecvResult p published [] RecvEOF)
          | EndError =>
              Some (mkRecvResult (set_errors p (AddUint64 (errors p) 1))
                      published [] RecvError)
          | EndPending => Some (mkRecvResult p published [] RecvBlocked)
          end
      | _ =>
          match ending with
          | EndPending => Some (mkRecvResult p published [] RecvBlocked)
          | _ =>
              Some (mkRecvResult (set_errors p (AddUint64 (errors p) 1))
                      published [] RecvError)
          end
      end
  end.

Definition receiver (ctxDone : nat -> bool) (clock : nat -> Z) (p : Peer)
  (input : list byte) (ending : StreamEnd) : option RecvResult :=
  receiver_loop (S (length input)) ctxDone clock 0 p [] input ending.

(** One frame on the wire: the [uint32] big-endian length, then the bytes. *)
Definition encode_frame (data : list byte) : list byte :=
  be32 (Z.of_nat (length data)) ++ data.

(** The outcome of the two writes of the sender goroutine. *)
Inductive WriteOutcome : Type :=
| WriteOk
| HeaderWriteFails
| DataWriteFails.

Inductive SendStatus : Type :=
| SendRunning
| SendCancelled
| SendWriteError.

(** One turn of the sender goroutine's loop: it leaves on cancellation, waits
    when [SendChan] is empty, and otherwise takes the oldest frame and writes
    it.  [wire] is what the connection has carried so far. *)
Definition sender_step (ctxDone : bool) (w : WriteOutcome) (p : Peer)
  (wire : list byte) : Peer * list byte * SendStatus :=
  if ctxDone then (p, wire, SendCancelled)
  else
    match SendChan p with
    | [] => (p, wire, SendRunning)
    | data :: q =>
        let p1 := set_SendChan p q in
        let len := Z.of_nat (length data) in
        match w with
        | HeaderWriteFails => (p1, wire, SendWriteError)
        | DataWriteFails => (p1, wire ++ be32 len, SendWriteError)
        | WriteOk =>
            (set_sent p1 (AddUint64 (sentBytes p1) len)
               (AddUint64 (sentPkts p1) 1),
             wire ++ encode_frame data, SendRunning)
        end
    end.

(** The part of a running link that is not in the [Peer] record: whether each
    goroutine is still in its loop, and whether the transport is open. *)
Record Link : Type := mkLink {
  recvRunning : bool;
  sendRunning : bool;
  connOpen : bool
}.

(** The link as [Run] has it once both goroutines are started. *)
Definition link_started : Link := mkLink true true true.

(** The receiver goroutine of peer [id] runs on [input]: the [Peer] the map
    points to is updated in place, the frames are published on
    [peerRelayChan]. *)
Definition link_receive (s : Server) (id : string) (lk : Link)
  (ctxDone : nat -> bool) (clock : nat -> Z) (input : list byte)
  (ending : StreamEnd) : option (Server * Link * RecvResult) :=
  match peers s !! id with
  | None => None
  | Some p =>
      match receiver ctxDone clock p input ending with
      | None => None
      | Some r =>
          let running := match rr_exit r with
                         | RecvBlocked => true
                         | _ => false
                         end in
          Some (with_peers s (<[id := rr_peer r]> (peers s)),
                mkLink running (sendRunning lk) (connOpen lk), r)
      end
  end.

(** One turn of the sender goroutine of peer [id]. *)
Definition link_send (s : Server) (id : string) (lk : Link) (ctxDone : bool)
  (w : WriteOutcome) (wire : list byte) : option (Server * Link * list byte) :=
  match peers s !! id with
  | None => None
  | Some p =>
      let '(p1, wire1, st) := sender_step ctxDone w p wire in
      let running := match st with
                     | SendRunning => true
                     | _ => false
                     end in
      Some (with_peers s (<[id := p1]> (peers s)),
            mkLink (recvRunning lk) running (connOpen lk), wire1)
  end.

(** The end of [Run]: [wg.Wait()] returns once both goroutines have left
    their loops; the deferred calls then run [onDisconnect] and close the
    transport.  Until then nothing happens. *)
Definition Run_finish (s : Server) (id : string) (lk : Link) : Server * Link :=
  if recvRunning lk || sendRunning lk then (s, lk)
  else (onDisconnect s id, mkLink false false false).

(** ** Scenarios *)

Definition conn_of (addr : string) (ip : list byte) : Conn :=
  mkConn addr (Some ip).

Definition connA : Conn := conn_of "10.0.0.1:40001" [x0a; x00; x00; x01].
Definition connB : Conn := conn_of "10.0.0.2:40002" [x0a; x00; x00; x02].
Definition connC : Conn := conn_of "10.0.0.3:40003" [x0a; x00; x00; x03].

(** A server on the default configuration. *)
Definition server0 : Server :=
  match NewServer DefaultConfig "" 0 with
  | Ok s => s
  | Error _ =>
      {| cfg := DefaultConfig; dedup := mkDedupCache (lru.mkCache 0 []) 0;
         peers := ∅; startTime := 0; totalReceived := 0; totalForwarded := 0;
         totalDropped := 0; totalErrors := 0; captureError := "";
         configPath := ""; demoMode := false; demoPacketRate := 0;
         demoDropRate := 0; demoErrorRate := 0; demoNumPeers := 0;
         injected := []; dialing := [] |}
  end.

(** The same with the two peers A and B admitted. *)
Definition server_two_peers : Server :=
  fst (handleNewConns server0 [connA; connB] 0).

(** A and B admitted, the egress queue of A full (1000 frames waiting). *)
Definition server_full_queue : Server :=
  with_peers server_two_peers
    (alter (fun p => set_SendChan p (repeat [x00] 1000)) "10.0.0.1:40001"
       (peers server_two_peers)).

(** A server whose configuration allows two children. *)
Definition server_max2 : Server :=
  with_cfg server0 (set_MaxChildren DefaultConfig 2).

(** Demo mode with a drop rate above the packet rate. *)
Definition server_demo : Server :=
  UpdateDemoProps (SetDemoMode server0 true) 10 20 0 5.

(** ** Counter invariants *)

(** The relation the aggregate counters are to keep. *)
Definition counters_ok (s : Server) : Prop :=
  0 <= totalForwarded s /\ 0 <= totalDropped s /\ 0 <= totalErrors s
  /\ totalForwarded s + totalDropped s <= totalReceived s.

(** No counter of [s'] is below its value in [s]. *)
Definition counters_le (s s' : Server) : Prop :=
  totalReceived s <= totalReceived s'
  /\ totalForwarded s <= totalForwarded s'
  /\ totalDropped s <= totalDropped s'
  /\ totalErrors s <= totalErrors s'.


(** [net.IP.String] on a 4-byte address: dotted decimal.  It is the formatter
    of the examples, whose peers all have 4-byte addresses; other lengths are
    not formatted. *)
Definition digit (n : Z) : ascii := ascii_of_N (Z.to_N (48 + n)).



(** * Further parts of the code *)

(** ** The dedup store: shape and call sequences *)

(** What [lru.New] establishes and [lru.Add] keeps: a positive size, no more
    entries than the size, no key twice. *)
Definition lru_wf (c : lru.Cache) : Prop :=
  0 < lru.size c
  /\ lru.Len c <= lru.size c
  /\ List.NoDup (lru.Keys c).

(** The number of misses among the verdicts of a call sequence. *)
Definition misses (verdicts : list bool) : Z :=
  Z.of_nat (length (List.filter negb verdicts)).

(** ** The relay loop: what a run of events does *)

Definition frame_of (ev : Event) : list byte :=
  match ev with
  | CaptureFrame data => data
  | PeerFrame data _ => data
  end.

Definition is_capture (ev : Event) : bool :=
  match ev with
  | CaptureFrame _ => true
  | PeerFrame _ _ => false
  end.

(** The number of frames the capture adapter delivered. *)
Definition captured (evs : list Event) : Z :=
  Z.of_nat (length (List.filter is_capture evs)).

(** The frames of a run that reach [broadcastToPeers]: those delivered by the
    capture adapter and not found in the dedup store at that moment. *)
Fixpoint broadcast_frames (d : DedupCache) (evs : list Event) :
  list (list byte) :=
  match evs with
  | [] => []
  | ev :: rest =>
      let '(dup, d1) := IsDuplicate d (frame_of ev) in
      (if is_capture ev && negb dup then [frame_of ev] else [])
        ++ broadcast_frames d1 rest
  end.

(** The calls of [capturer.Inject] a run makes, each with its outcome
    ([true]: it returns an error): one for every frame received from a peer
    and not found in the dedup store at that moment. *)
Fixpoint inject_calls (d : DedupCache) (evs : list Event) :
  list (list byte * bool) :=
  match evs with
  | [] => []
  | ev :: rest =>
      let '(dup, d1) := IsDuplicate d (frame_of ev) in
      match ev with
      | PeerFrame data injectFails =>
          if dup then inject_calls d1 rest
          else (data, injectFails) :: inject_calls d1 rest
      | CaptureFrame _ => inject_calls d1 rest
      end
  end.

(** No egress queue holds more frames than the channel buffer has room for. *)
Definition queues_bounded (s : Server) : Prop :=
  forall id p, peers s !! id = Some p ->
    Z.of_nat (length (SendChan p)) <= SendChanCap.

(** ** The link: sender runs and the handshake of [Peer.Run] *)

(** [n] turns of the sender goroutine's loop with no cancellation and no
    write error; it stops early when a turn leaves the loop. *)
Fixpoint sender_run (n : nat) (p : Peer) (wire : list byte) :
  Peer * list byte * SendStatus :=
  match n with
  | O => (p, wire, SendRunning)
  | S n' =>
      match sender_step false WriteOk p wire with
      | (p1, wire1, SendRunning) => sender_run n' p1 wire1
      | r => r
      end
  end.

(** The largest key length the handshake accepts from the remote side. *)
Definition MaxKeyLen : Z := 256.

(** How the handshake at the head of [Run] ends. *)
Inductive HandshakeExit : Type :=
| HandshakeDone
| KeyWriteError
| KeyLenReadError
| KeyTooLong (length : Z)
| KeyReadError
| KeyMismatch
| HandshakeBlocked.

Record HandshakeResult : Type := mkHandshakeResult {
  hs_written : list byte;
  hs_unread : list byte;
  hs_exit : HandshakeExit
}.

(** What a peer with a key announces: [uint32(len(key))], which wraps a
    length of 2^32 and more, then the key bytes. *)
Definition key_message (key : string) : list byte :=
  be32 (Z.of_nat (String.length key) mod 2 ^ 32) ++ list_byte_of_string key.

(** The handshake of a peer whose [networkKey] is not empty, on the bytes
    [input] followed by [ending]: the key is written behind its length, then
    the remote length and key are read and compared. *)
Definition handshake_keyed (key : string) (w : WriteOutcome)
  (input : list byte) (ending : StreamEnd) : HandshakeResult :=
  match w with
  | HeaderWriteFails => mkHandshakeResult [] input KeyWriteError
  | DataWriteFails =>
      mkHandshakeResult (be32 (Z.of_nat (String.length key) mod 2 ^ 32)) input
        KeyWriteError
  | WriteOk =>
      let written := key_message key in
      match input with
      | b0 :: b1 :: b2 :: b3 :: rest =>
          let remoteKeyLen := be32_decode b0 b1 b2 b3 in
          if remoteKeyLen >? MaxKeyLen then
            mkHandshakeResult written rest (KeyTooLong remoteKeyLen)
          else if Z.of_nat (length rest) <? remoteKeyLen then
            match ending with
            | EndPending => mkHandshakeResult written [] HandshakeBlocked
            | _ => mkHandshakeResult written [] KeyReadError
            end
          else
            let remoteKey := firstn (Z.to_nat remoteKeyLen) rest in
            let unread := skipn (Z.to_nat remoteKeyLen) rest in
            if String.eqb (string_of_list_byte remoteKey) key
            then mkHandshakeResult written unread HandshakeDone
            else mkHandshakeResult written unread KeyMismatch
      | _ =>
          match ending with
          | EndPending => mkHandshakeResult written [] HandshakeBlocked
          | _ => mkHandshakeResult written [] KeyLenReadError
          end
      end
  end.

(** The handshake of a peer without a key.  [early] is what arrives within
    the 500 ms read deadline, [later ++ ending] what follows.  When four
    bytes arrive in time they are taken as a key length; a key of at most 256
    bytes is read and discarded (errors ignored), and a zero length is
    written back.  When they do not, the read fails, what it had consumed is
    lost, and nothing is written.  Either way the peer goes on to its
    loops. *)
Definition handshake_keyless (early later : list byte) (ending : StreamEnd) :
  HandshakeResult :=
  match early with
  | b0 :: b1 :: b2 :: b3 :: rest =>
      let remoteKeyLen := be32_decode b0 b1 b2 b3 in
      let stream := rest ++ later in
      if remoteKeyLen <=? MaxKeyLen then
        if Z.of_nat (length stream) <? remoteKeyLen then
          match ending with
          | EndPending => mkHandshakeResult [] [] HandshakeBlocked
          | _ => mkHandshakeResult (be32 0) [] HandshakeDone
          end
        else
          mkHandshakeResult (be32 0) (skipn (Z.to_nat remoteKeyLen) stream)
            HandshakeDone
      else mkHandshakeResult (be32 0) stream HandshakeDone
  | _ => mkHandshakeResult [] later HandshakeDone
  end.

(** [Run] up to the start of the two goroutines. *)
Definition handshake (key : string) (w : WriteOutcome)
  (early later : list byte) (ending : StreamEnd) : HandshakeResult :=
  if negb (String.eqb key "") then handshake_keyed key w (early ++ later) ending
  else handshake_keyless early later ending.

(** The payload bytes of a list of frames. *)
Definition frames_bytes (fs : list (list byte)) : Z :=
  Z.of_nat (length (concat fs)).

(** A frame the receiver accepts. *)
Definition frame_fits (f : list byte) : Prop :=
  Z.of_nat (length f) <= MaxFrame.

(** How the receiver leaves its loop when the input ends on a frame
    boundary. *)
Definition exit_at_boundary (ending : StreamEnd) : RecvExit :=
  match ending with
  | EndEOF => RecvEOF
  | EndError => RecvError
  | EndPending => RecvBlocked
  end.

(** ** Admission and the deny lists: auxiliary notions *)

(** The host part [handleNewConn] compares with [BannedHosts]. *)
Definition conn_host (conn : Conn) : string :=
  match net.SplitHostPort (RemoteAddr_String conn) with
  | Some (host, _) => host
  | None => ""
  end.

(** The two deny-list tests of [handleNewConn]. *)
Definition is_banned (c : Config) (conn : Conn) : bool :=
  existsb (fun b => String.eqb b (RemoteAddr_String conn)) (BannedIDs c)
  || existsb (fun b => String.eqb b (conn_host conn)) (BannedHosts c).

(** A sequence of [BanPeer] calls, each with its id and host. *)
Definition BanPeers (s : Server) (bans : list (string * string)) : Server :=
  fold_left (fun s b => BanPeer s (fst b) (snd b)) bans s.

(** ** internal/stats/stats.go: [FormatDuration] *)

(** [time.Minute] and [time.Hour], in nanoseconds. *)
Definition Minute : Z := 60 * Second.
Definition Hour : Z := 60 * Minute.

Definition minDuration : Z := - 2 ^ 63.
Definition maxDuration : Z := 2 ^ 63 - 1.

(** [time.Duration.Round] of the Go standard library: the nearest multiple
    of [m], halfway values away from zero; [lessThanHalf] compares in
    [uint64]. *)
Definition lessThanHalf (x y : Z) : bool :=
  wrap64 (wrap64 x + wrap64 x) <? wrap64 y.

Definition Duration_Round (d m : Z) : Z :=
  if m <=? 0 then d
  else
    let r := Z.rem d m in
    if d <? 0 then
      let r := wrapInt (- r) in
      if lessThanHalf r m then wrapInt (d + r)
      else
        let d1 := wrapInt (d - m + r) in
        if d1 <? d then d1 else minDuration
    else
      if lessThanHalf r m then wrapInt (d - r)
      else
        let d1 := wrapInt (d + m - r) in
        if d1 >? d then d1 else maxDuration.

(** The verb [%d] of [fmt.Sprintf] on an [int64]: decimal digits, a minus
    sign before a negative value.  An [int64] has at most 19 digits. *)
Fixpoint digits (fuel : nat) (n : Z) (acc : string) : string :=
  match fuel with
  | O => acc
  | S fuel' =>
      let acc' := String (digit (n mod 10)) acc in
      if n <? 10 then acc' else digits fuel' (n / 10) acc'
  end.

Definition itoa (n : Z) : string :=
  if n <? 0 then String "-" (digits 20 (- n) "") else digits 20 n "".

Definition FormatDuration (d : Z) : string :=
  let d := Duration_Round d Second in
  let h := Z.quot d Hour in
  let d := wrapInt (d - wrapInt (h * Hour)) in
  let m := Z.quot d Minute in
  let d := wrapInt (d - wrapInt (m * Minute)) in
  let s := Z.quot d Second in
  if h >=? 24 then
    let days := Z.quot h 24 in
    let h := Z.rem h 24 in
    (itoa days ++ "d " ++ itoa h ++ "h " ++ itoa m ++ "m " ++ itoa s ++ "s")%string
  else if h >? 0 then
    (itoa h ++ "h " ++ itoa m ++ "m " ++ itoa s ++ "s")%string
  else if m >? 0 then (itoa m ++ "m " ++ itoa s ++ "s")%string
  else (itoa s ++ "s")%string.

(** ** internal/logger: the message buffer *)

Record LogMessage : Type := mkLogMessage {
  Timestamp : Z;
  Level : string;
  Message : string
}.

(** [addLog] on the buffer [messages], with the package variable [maxLogs]
    (100 unless a test changes it) and the reading [now] of the clock: the
    entry is appended, and the oldest entry dropped when the buffer has grown
    beyond [maxLogs]. *)
Definition addLog (maxLogs : Z) (messages : list LogMessage)
  (now : Z) (level msg : string) : list LogMessage :=
  let messages := messages ++ [mkLogMessage now level msg] in
  if Z.of_nat (length messages) >? maxLogs then tl messages else messages.

(** [GetLogs] returns a copy of the buffer. *)
Definition GetLogs (messages : list LogMessage) : list LogMessage := messages.

(** A sequence of [addLog] calls. *)
Definition addLogs (maxLogs : Z) (messages : list LogMessage)
  (entries : list LogMessage) : list LogMessage :=
  fold_left
    (fun buf e => addLog maxLogs buf (Timestamp e) (Level e) (Message e))
    entries messages.

(** ** [UpdateConfig] *)

Definition set_AdminPass (c : Config) (pass : string) : Config :=
  {| Interface := Interface c; ListenAddr := ListenAddr c; Peers := Peers c;
     DedupCacheSize := DedupCacheSize c; DedupCacheTTL := DedupCacheTTL c;
     SortField := SortField c; SortReverse := SortReverse c;
     BannedHosts := BannedHosts c; BannedIDs := BannedIDs c;
     AdminPass := pass; MaxChildren := MaxChildren c;
     NetworkKey := NetworkKey c |}.

Definition set_NetworkKey (c : Config) (key : string) : Config :=
  {| Interface := Interface c; ListenAddr := ListenAddr c; Peers := Peers c;
     DedupCacheSize := DedupCacheSize c; DedupCacheTTL := DedupCacheTTL c;
     SortField := SortField c; SortReverse := SortReverse c;
     BannedHosts := BannedHosts c; BannedIDs := BannedIDs c;
     AdminPass := AdminPass c; MaxChildren := MaxChildren c;
     NetworkKey := key |}.

(** [UpdateConfig]: each of the three settings is replaced when the value
    given is not the zero value ([persistConfig] leaves the server as it
    is). *)
Definition UpdateConfig (s : Server) (adminPass : string) (maxChildren : Z)
  (networkKey : string) : Server :=
  let c := cfg s in
  let c := if negb (String.eqb adminPass "") then set_AdminPass c adminPass
           else c in
  let c := if maxChildren >? 0 then set_MaxChildren c maxChildren else c in
  let c := if negb (String.eqb networkKey "") then set_NetworkKey c networkKey
           else c in
  with_cfg s c.

(** * Properties *)

(** ** crypto/sha256: test vectors *)

(** The digests of the byte strings ["abc"], ["p1"] and of the frame
    [[0x01 0x02]], as produced by Go's [sha256.Sum256]. *)
Example Sum256_abc :
  Sha256.Sum256 [x61; x62; x63] =
  [xba; x78; x16; xbf; x8f; x01; xcf; xea; x41; x41; x40; xde; x5d; xae; x22;
   x23; xb0; x03; x61; xa3; x96; x17; x7a; x9c; xb4; x10; xff; x61; xf2; x00;
   x15; xad].
Proof. vm_compute. reflexivity. Qed.

Example Sum256_frame_01_02 :
  map byte_to_Z (firstn 4 (Sha256.Sum256 [x01; x02])) = [0xa1; 0x28; 0x71; 0xfe].
Proof. vm_compute. reflexivity. Qed.


(** ** DedupCache *)

Lemma NewDedupCache_nonpositive (size ttlSeconds : Z) :
  size <= 0 ->
  NewDedupCache size ttlSeconds = Error "must provide a positive size".
Proof.
  intros Hle. unfold NewDedupCache, lru.New.
  destruct (Z.leb_spec size 0) as [_ | Hgt]; [reflexivity | lia].
Qed.

Lemma NewDedupCache_positive (size ttlSeconds : Z) :
  0 < size ->
  NewDedupCache size ttlSeconds =
  Ok (mkDedupCache (lru.mkCache size []) (wrapInt (ttlSeconds * Second))).
Proof.
  intros Hlt. unfold NewDedupCache, lru.New.
  destruct (Z.leb_spec size 0) as [Hle | _]; [lia | reflexivity].
Qed.

Lemma IsDuplicate_verdict (d : DedupCache) (data : list byte) :
  fst (IsDuplicate d data) = lru.Contains (cache d) (fingerprint data).
Proof.
  unfold IsDuplicate.
  destruct (lru.Contains (cache d) (fingerprint data)); reflexivity.
Qed.

Lemma IsDuplicate_hit (d : DedupCache) (data : list byte) :
  lru.Contains (cache d) (fingerprint data) = true ->
  IsDuplicate d data = (true, d).
Proof. intros Hin. unfold IsDuplicate. rewrite Hin. reflexivity. Qed.

Lemma removelast_cons_nonempty {A : Type} (x : A) (l : list A) :
  l <> [] -> removelast (x :: l) = x :: removelast l.
Proof. destruct l; [congruence | reflexivity]. Qed.

Lemma map_removelast_fst {A B : Type} (l : list (A * B)) :
  map fst (removelast l) = removelast (map fst l).
Proof.
  induction l as [| a l IH]; [reflexivity |].
  destruct l as [| b l']; [reflexivity |].
  rewrite removelast_cons_nonempty by done.
  rewrite !map_cons.
  rewrite (removelast_cons_nonempty (fst a) (fst b :: map fst l')) by done.
  f_equal. rewrite <- map_cons. exact IH.
Qed.

Lemma IsDuplicate_miss_keys (d : DedupCache) (data : list byte) :
  0 < lru.size (cache d) ->
  lru.Contains (cache d) (fingerprint data) = false ->
  lru.Keys (cache (snd (IsDuplicate d data))) =
  fingerprint data ::
    (if lru.Len (cache d) >=? lru.size (cache d)
     then removelast (lru.Keys (cache d))
     else lru.Keys (cache d)).
Proof.
  intros Hsize Hmiss. unfold IsDuplicate. rewrite Hmiss.
  unfold lru.Add. rewrite Hmiss.
  cbn [snd fst cache lru.evictList lru.size]. unfold lru.Len, lru.Keys.
  set (l := lru.evictList (cache d)).
  set (e := (fingerprint data, true)).
  assert (Heq : (Z.of_nat (length (e :: l)) >? lru.size (cache d))
                = (Z.of_nat (length l) >=? lru.size (cache d))).
  { rewrite length_cons, Z.gtb_ltb, Z.geb_leb.
    destruct (Z.ltb_spec (lru.size (cache d)) (Z.of_nat (S (length l))));
      destruct (Z.leb_spec (lru.size (cache d)) (Z.of_nat (length l)));
      first [reflexivity | lia]. }
  rewrite Heq.
  destruct (Z.geb_spec (Z.of_nat (length l)) (lru.size (cache d)))
    as [Hge | Hlt]; cbn [lru.evictList]; [| reflexivity].
  assert (Hne : l <> []) by (intros Hnil; rewrite Hnil in Hge; simpl in Hge; lia).
  rewrite removelast_cons_nonempty by exact Hne.
  rewrite map_cons. f_equal. apply map_removelast_fst.
Qed.

Lemma IsDuplicate_miss_inserts (d : DedupCache) (data : list byte) :
  0 < lru.size (cache d) ->
  lru.Contains (cache d) (fingerprint data) = false ->
  lru.Contains (cache (snd (IsDuplicate d data))) (fingerprint data) = true.
Proof.
  intros Hsize Hmiss. unfold lru.Contains at 1.
  rewrite IsDuplicate_miss_keys by assumption.
  simpl. rewrite String.eqb_refl. reflexivity.
Qed.

Lemma IsDuplicate_keeps_size (d : DedupCache) (data : list byte) :
  lru.size (cache (snd (IsDuplicate d data))) = lru.size (cache d)
  /\ ttl (snd (IsDuplicate d data)) = ttl d.
Proof.
  unfold IsDuplicate, lru.Add.
  destruct (lru.Contains (cache d) (fingerprint data)); simpl; auto.
Qed.

(** C3: the entry dropped is the oldest insertion, not the least recently
    used one.  [IsDuplicate] tests with [Contains], which leaves the eviction
    list as it is, so a hit protects nothing: whatever frame was hit just
    before, the next new frame that finds the store full drops the entry at
    the back of the list.  With capacity 2 the calls p1, p2, p1, p3 evict p1,
    the entry used last, and keep p2.  The run of the repository's eviction
    test (p1, p2, p1, p3, p3, p2) therefore ends with a hit on p2, where the
    test expects a miss; a store that evicts the least recently used entry
    ([SpecLRU]) answers the other way on p2 and on p1.  On the run p1, p2,
    p2, p3, where the entry hit is also the newest insertion, the two agree:
    p1 is then a miss and p3 a hit. *)
Theorem IsDuplicate_evicts_entry_just_hit :
  (forall (d : DedupCache) (hit new : list byte),
      0 < lru.size (cache d) ->
      lru.size (cache d) <= lru.Len (cache d) ->
      lru.Contains (cache d) (fingerprint hit) = true ->
      lru.Contains (cache d) (fingerprint new) = false ->
      lru.Keys (cache (snd (IsDuplicate (snd (IsDuplicate d hit)) new)))
      = fingerprint new :: removelast (lru.Keys (cache d)))
  /\ (exists d2, NewDedupCache 2 30 = Ok d2
        /\ lru.Keys (cache (snd (IsDuplicate_seq d2 [p1; p2; p1])))
           = [fingerprint p2; fingerprint p1]
        /\ lru.Keys (cache (snd (IsDuplicate_seq d2 [p1; p2; p1; p3])))
           = [fingerprint p3; fingerprint p2]
        /\ fst (IsDuplicate_seq d2 [p1; p2; p1; p3; p3; p2])
           = [false; false; true; false; true; true]
        /\ SpecLRU.run (SpecLRU.mkStore 2 []) [p1; p2; p1; p3; p3; p2]
           = [false; false; true; false; true; false]
        /\ fst (IsDuplicate_seq d2 [p1; p2; p1; p3; p1])
           = [false; false; true; false; false]
        /\ SpecLRU.run (SpecLRU.mkStore 2 []) [p1; p2; p1; p3; p1]
           = [false; false; true; false; true]
        /\ fst (IsDuplicate_seq d2 [p1; p2; p2; p3; p1])
           = SpecLRU.run (SpecLRU.mkStore 2 []) [p1; p2; p2; p3; p1]
        /\ fst (IsDuplicate_seq d2 [p1; p2; p2; p3; p1])
           = [false; false; true; false; false]
        /\ fst (IsDuplicate_seq d2 [p1; p2; p2; p3; p3])
           = [false; false; true; false; true]).
Proof.
  split.
  - intros d hit new Hsize Hfull Hhit Hmiss.
    rewrite (IsDuplicate_hit _ _ Hhit). cbn [snd].
    rewrite (IsDuplicate_miss_keys _ _ Hsize Hmiss).
    destruct (Z.geb_spec (lru.Len (cache d)) (lru.size (cache d)));
      [reflexivity | lia].
  - eexists. split; [reflexivity |].
    repeat split; vm_compute; reflexivity.
Qed.

(** C10: a hit leaves the store exactly as it was, so the eviction order is
    the order of insertions.  With capacity 2, after p1, p2, a hit on p1 and
    then p3, the store holds p3 and p2: p1 is a miss and p2 still a hit. *)
Theorem IsDuplicate_hit_keeps_order (d : DedupCache) (data : list byte) :
  (lru.Contains (cache d) (fingerprint data) = true ->
   IsDuplicate d data = (true, d))
  /\ (exists d2, NewDedupCache 2 30 = Ok d2
        /\ lru.Keys (cache (snd (IsDuplicate_seq d2 [p1; p2])))
           = [fingerprint p2; fingerprint p1]
        /\ lru.Keys (cache (snd (IsDuplicate_seq d2 [p1; p2; p1])))
           = [fingerprint p2; fingerprint p1]
        /\ lru.Keys (cache (snd (IsDuplicate_seq d2 [p1; p2; p1; p3])))
           = [fingerprint p3; fingerprint p2]
        /\ fst (IsDuplicate_seq d2 [p1; p2; p1; p3; p1])
           = [false; false; true; false; false]
        /\ fst (IsDuplicate_seq d2 [p1; p2; p1; p3; p2])
           = [false; false; true; false; true]).
Proof.
  split; [apply IsDuplicate_hit |].
  eexists. split; [reflexivity |].
  repeat split; vm_compute; reflexivity.
Qed.

Lemma IsDuplicate_hit_keeps_order_witness :
  let d := snd (IsDuplicate (mkDedupCache (lru.mkCache 2 []) 0) p1) in
  lru.Contains (cache d) (fingerprint p1) = true
  /\ IsDuplicate d p1 = (true, d).
Proof.
  intros d.
  assert (Hin : lru.Contains (cache d) (fingerprint p1) = true)
    by (vm_compute; reflexivity).
  split; [exact Hin |].
  exact (proj1 (IsDuplicate_hit_keeps_order d p1) Hin).
Defined.

(** C4, as stated, fails.  In a store built with the default TTL of 30 s, the
    frame [[0xAA]] is inserted at time 0 and tested again 31 s later: its only
    entry is older than the TTL, and the call is a hit. *)
Lemma IsDuplicate_hit_after_ttl :
  exists d, NewDedupCache 64000 30 = Ok d
    /\ ttl d = 30 * Second
    /\ fst (IsDuplicate_timed d [(0, [xaa]); (31 * Second, [xaa])])
       = [false; true]
    /\ ttl_respected d [(0, [xaa]); (31 * Second, [xaa])] = false.
Proof.
  eexists. split; [reflexivity |].
  split; [vm_compute; reflexivity |].
  split; vm_compute; reflexivity.
Qed.

Lemma IsDuplicate_seq_ttl_irrelevant (frames : list (list byte)) :
  forall (c : lru.Cache) (t t' : Z),
    fst (IsDuplicate_seq (mkDedupCache c t) frames)
    = fst (IsDuplicate_seq (mkDedupCache c t') frames).
Proof.
  induction frames as [| f rest IH]; intros c t t'; [reflexivity |].
  simpl. unfold IsDuplicate. simpl.
  destruct (lru.Contains c (fingerprint f)).
  - specialize (IH c t t').
    destruct (IsDuplicate_seq (mkDedupCache c t) rest) as [bs1 d1].
    destruct (IsDuplicate_seq (mkDedupCache c t') rest) as [bs2 d2].
    simpl in *. congruence.
  - specialize (IH (fst (lru.Add c (fingerprint f) true)) t t').
    destruct (IsDuplicate_seq
                (mkDedupCache (fst (lru.Add c (fingerprint f) true)) t) rest)
      as [bs1 d1].
    destruct (IsDuplicate_seq
                (mkDedupCache (fst (lru.Add c (fingerprint f) true)) t') rest)
      as [bs2 d2].
    simpl in *. congruence.
Qed.

(** C4, amended: the TTL is stored and never enforced.  A frame whose
    fingerprint is in the store is a hit however long ago it was inserted
    (whatever the time of the call and whatever the TTL), and the verdicts of
    a call sequence depend neither on the times of the calls nor on the TTL
    of the store. *)
Theorem IsDuplicate_ignores_ttl (d : DedupCache) (data : list byte)
  (calls calls' : list (Z * list byte)) (ttl' : Z) :
  (lru.Contains (cache d) (fingerprint data) = true ->
   fst (IsDuplicate (mkDedupCache (cache d) ttl') data) = true)
  /\ (map snd calls = map snd calls' ->
      fst (IsDuplicate_timed (mkDedupCache (cache d) ttl') calls)
      = fst (IsDuplicate_timed d calls')).
Proof.
  split.
  - intros Hin. rewrite IsDuplicate_verdict. exact Hin.
  - intros Hsame. unfold IsDuplicate_timed. rewrite Hsame.
    destruct d as [c t]. apply IsDuplicate_seq_ttl_irrelevant.
Qed.

Lemma IsDuplicate_ignores_ttl_witness :
  let d := snd (IsDuplicate (mkDedupCache (lru.mkCache 64000 []) (30 * Second))
                  [xaa]) in
  fst (IsDuplicate (mkDedupCache (cache d) 0) [xaa]) = true
  /\ fst (IsDuplicate_timed (mkDedupCache (cache d) 0)
            [(31 * Second, [xaa])])
     = fst (IsDuplicate_timed d [(1, [xaa])]).
Proof.
  intros d.
  pose proof (IsDuplicate_ignores_ttl d [xaa]
                [(31 * Second, [xaa])] [(1, [xaa])] 0) as [Hhit Hsame].
  split.
  - apply Hhit. vm_compute. reflexivity.
  - apply Hsame. reflexivity.
Defined.

(** ** The relay loop *)

Example server0_built : NewServer DefaultConfig "" 0 = Ok server0.
Proof. reflexivity. Qed.

Lemma with_dedup_same (s : Server) : with_dedup s (dedup s) = s.
Proof. destruct s; reflexivity. Qed.

Lemma relay_step_capture_dup (s : Server) (data : list byte) :
  lru.Contains (cache (dedup s)) (fingerprint data) = true ->
  relay_step s (CaptureFrame data) =
  with_counters s (AddUint64 (totalReceived s) 1) (totalForwarded s)
    (AddUint64 (totalDropped s) 1) (totalErrors s).
Proof.
  intros Hin. unfold relay_step. cbn [dedup with_counters].
  rewrite (IsDuplicate_hit _ _ Hin). destruct s; reflexivity.
Qed.

Lemma IsDuplicate_miss (d : DedupCache) (data : list byte) :
  lru.Contains (cache d) (fingerprint data) = false ->
  IsDuplicate d data =
  (false, mkDedupCache (fst (lru.Add (cache d) (fingerprint data) true)) (ttl d)).
Proof. intros Hmiss. unfold IsDuplicate. rewrite Hmiss. reflexivity. Qed.

Lemma relay_step_capture_new (s : Server) (data : list byte) :
  lru.Contains (cache (dedup s)) (fingerprint data) = false ->
  relay_step s (CaptureFrame data) =
  with_counters
    (with_peers (with_dedup s (snd (IsDuplicate (dedup s) data)))
       ((fun p => trySend p data) <$> peers s))
    (AddUint64 (totalReceived s) 1) (AddUint64 (totalForwarded s) 1)
    (totalDropped s) (totalErrors s).
Proof.
  intros Hmiss. unfold relay_step. cbn [dedup with_counters].
  rewrite (IsDuplicate_miss _ _ Hmiss). reflexivity.
Qed.

Lemma relay_step_peer_dup (s : Server) (data : list byte) (f : bool) :
  lru.Contains (cache (dedup s)) (fingerprint data) = true ->
  relay_step s (PeerFrame data f) = s.
Proof.
  intros Hin. unfold relay_step.
  rewrite (IsDuplicate_hit _ _ Hin). apply with_dedup_same.
Qed.

Lemma relay_step_peer_new (s : Server) (data : list byte) (f : bool) :
  lru.Contains (cache (dedup s)) (fingerprint data) = false ->
  let s2 := with_injected (with_dedup s (snd (IsDuplicate (dedup s) data)))
              (injected s ++ [data]) in
  relay_step s (PeerFrame data f) =
  if f then with_counters s2 (totalReceived s) (totalForwarded s)
              (totalDropped s) (AddUint64 (totalErrors s) 1)
  else s2.
Proof.
  intros Hmiss. unfold relay_step.
  rewrite (IsDuplicate_miss _ _ Hmiss). reflexivity.
Qed.

(** C1, as stated, fails.  Peer ["10.0.0.1:40001"] has 1000 frames waiting in
    its egress queue when the capture adapter delivers the new frame
    [[0x01 0x02]]: the frame is counted as forwarded and reaches the other
    peer, but it is not put on the full queue. *)
Lemma broadcast_skips_full_queue :
  let s := server_full_queue in
  let s' := relay_step s (CaptureFrame [x01; x02]) in
  lru.Contains (cache (dedup s)) (fingerprint [x01; x02]) = false
  /\ totalReceived s' = 1 /\ totalForwarded s' = 1 /\ totalDropped s' = 0
  /\ SendChan <$> peers s' !! "10.0.0.2:40002" = Some [[x01; x02]]
  /\ (exists p, peers s !! "10.0.0.1:40001" = Some p
        /\ peers s' !! "10.0.0.1:40001" = Some p
        /\ ~ In [x01; x02] (SendChan p)).
Proof.
  cbv zeta.
  split; [vm_compute; reflexivity |].
  split; [vm_compute; reflexivity |].
  split; [vm_compute; reflexivity |].
  split; [vm_compute; reflexivity |].
  split; [vm_compute; reflexivity |].
  exists (set_SendChan
            (NewPeer "10.0.0.1:40001" connA (NetworkKey DefaultConfig) 0)
            (repeat [x00] 1000)).
  split; [vm_compute; reflexivity |].
  split; [vm_compute; reflexivity |].
  cbn [SendChan set_SendChan].
  intros Hin. apply repeat_spec in Hin. discriminate Hin.
Qed.

(** C1, amended: for a frame from the capture adapter the loop increments
    [totalReceived]; if the fingerprint is in the dedup store it increments
    [totalDropped] and queues nothing; otherwise it increments
    [totalForwarded] and appends the frame once to the egress queue of every
    peer whose queue holds fewer than 1000 frames, leaving a full queue as it
    is.  Delivering [[0x01 0x02]] twice to a server with two peers gives
    received 2, forwarded 1, dropped 1, one copy in each queue, and the sender
    writes the length prefix 2 followed by the two bytes. *)
Theorem relay_capture_frame (s : Server) (data : list byte) :
  let s' := relay_step s (CaptureFrame data) in
  totalReceived s' = AddUint64 (totalReceived s) 1
  /\ (lru.Contains (cache (dedup s)) (fingerprint data) = true ->
      totalDropped s' = AddUint64 (totalDropped s) 1
      /\ totalForwarded s' = totalForwarded s
      /\ peers s' = peers s)
  /\ (lru.Contains (cache (dedup s)) (fingerprint data) = false ->
      totalForwarded s' = AddUint64 (totalForwarded s) 1
      /\ totalDropped s' = totalDropped s
      /\ (forall id, peers s !! id = None -> peers s' !! id = None)
      /\ (forall id p, peers s !! id = Some p ->
          peers s' !! id =
          Some (if Z.of_nat (length (SendChan p)) <? 1000
                then set_SendChan p (SendChan p ++ [data]) else p)))
  /\ (let s2 := relay_run server_two_peers
                  [CaptureFrame [x01; x02]; CaptureFrame [x01; x02]] in
      totalReceived s2 = 2 /\ totalForwarded s2 = 1 /\ totalDropped s2 = 1
      /\ SendChan <$> peers s2 !! "10.0.0.1:40001" = Some [[x01; x02]]
      /\ SendChan <$> peers s2 !! "10.0.0.2:40002" = Some [[x01; x02]]
      /\ (forall p, peers s2 !! "10.0.0.1:40001" = Some p ->
          (sender_step false WriteOk p []).1.2
          = [x00; x00; x00; x02; x01; x02])).
Proof.
  cbv zeta.
  destruct (lru.Contains (cache (dedup s)) (fingerprint data)) eqn:Hc.
  - rewrite (relay_step_capture_dup _ _ Hc). cbn [totalReceived totalDropped
      totalForwarded peers with_counters].
    split; [reflexivity |]. split; [auto |]. split; [discriminate |].
    split; [vm_compute; reflexivity |]. split; [vm_compute; reflexivity |].
    split; [vm_compute; reflexivity |]. split; [vm_compute; reflexivity |].
    split; [vm_compute; reflexivity |].
    intros p Hp. vm_compute in Hp. injection Hp as <-. vm_compute. reflexivity.
  - rewrite (relay_step_capture_new _ _ Hc). cbn [totalReceived totalDropped
      totalForwarded peers with_counters with_peers].
    split; [reflexivity |]. split; [discriminate |].
    split.
    { intros _. split; [reflexivity |]. split; [reflexivity |]. split.
      - intros id Hid. rewrite lookup_fmap, Hid. reflexivity.
      - intros id p Hid. rewrite lookup_fmap, Hid. reflexivity. }
    split; [vm_compute; reflexivity |]. split; [vm_compute; reflexivity |].
    split; [vm_compute; reflexivity |]. split; [vm_compute; reflexivity |].
    split; [vm_compute; reflexivity |].
    intros p Hp. vm_compute in Hp. injection Hp as <-. vm_compute. reflexivity.
Qed.

Lemma relay_capture_frame_witness :
  let s := relay_step server_two_peers (CaptureFrame [x01; x02]) in
  let s' := relay_step s (CaptureFrame [x01; x02]) in
  lru.Contains (cache (dedup s)) (fingerprint [x01; x02]) = true
  /\ totalDropped s' = AddUint64 (totalDropped s) 1
  /\ peers s' = peers s
  /\ lru.Contains (cache (dedup server_two_peers)) (fingerprint [x01; x02])
     = false
  /\ totalForwarded s = AddUint64 (totalForwarded server_two_peers) 1.
Proof.
  intros s s'.
  assert (Hdup : lru.Contains (cache (dedup s)) (fingerprint [x01; x02]) = true)
    by (vm_compute; reflexivity).
  assert (Hnew : lru.Contains (cache (dedup server_two_peers))
                   (fingerprint [x01; x02]) = false)
    by (vm_compute; reflexivity).
  pose proof (relay_capture_frame s [x01; x02]) as (_ & Hd & _).
  pose proof (relay_capture_frame server_two_peers [x01; x02]) as (_ & _ & Hn & _).
  destruct (Hd Hdup) as (H1 & _ & H3).
  destruct (Hn Hnew) as (H4 & _).
  repeat split; assumption.
Defined.

(** C2: a frame from a peer whose fingerprint is in the dedup store changes
    nothing: it is not handed to [capturer.Inject] and no egress queue
    receives it.  A frame whose fingerprint is new is handed to
    [capturer.Inject] once and its fingerprint enters the store; in neither
    case is a peer frame put on an egress queue.  When peer A sends [[0xAA]]
    and peer B then sends the same bytes, Inject has been called once. *)
Theorem relay_peer_frame (s : Server) (data : list byte) (injectFails : bool) :
  let s' := relay_step s (PeerFrame data injectFails) in
  peers s' = peers s
  /\ (lru.Contains (cache (dedup s)) (fingerprint data) = true -> s' = s)
  /\ (lru.Contains (cache (dedup s)) (fingerprint data) = false ->
      injected s' = injected s ++ [data]
      /\ totalErrors s' =
         (if injectFails then AddUint64 (totalErrors s) 1 else totalErrors s)
      /\ (0 < lru.size (cache (dedup s)) ->
          lru.Contains (cache (dedup s')) (fingerprint data) = true))
  /\ injected (relay_run server_two_peers
                 [PeerFrame [xaa] false; PeerFrame [xaa] false]) = [[xaa]]
  /\ peers (relay_run server_two_peers
              [PeerFrame [xaa] false; PeerFrame [xaa] false])
     = peers server_two_peers.
Proof.
  cbv zeta.
  destruct (lru.Contains (cache (dedup s)) (fingerprint data)) eqn:Hc.
  - rewrite (relay_step_peer_dup _ _ _ Hc).
    split; [reflexivity |]. split; [reflexivity |]. split; [discriminate |].
    split; vm_compute; reflexivity.
  - rewrite (relay_step_peer_new _ _ _ Hc). cbv zeta.
    split; [destruct injectFails; reflexivity |].
    split; [discriminate |].
    split.
    { intros _. split; [destruct injectFails; reflexivity |].
      split; [destruct injectFails; reflexivity |].
      intros Hsize.
      pose proof (IsDuplicate_miss_inserts (dedup s) data Hsize Hc) as Hin.
      destruct injectFails; exact Hin. }
    split; vm_compute; reflexivity.
Qed.

Lemma relay_peer_frame_witness :
  let s := relay_step server_two_peers (PeerFrame [xaa] false) in
  injected s = injected server_two_peers ++ [[xaa]]
  /\ lru.Contains (cache (dedup s)) (fingerprint [xaa]) = true
  /\ relay_step s (PeerFrame [xaa] false) = s.
Proof.
  intros s.
  pose proof (relay_peer_frame server_two_peers [xaa] false) as (_ & _ & Hn & _).
  pose proof (relay_peer_frame s [xaa] false) as (_ & Hd & _).
  assert (Hnew : lru.Contains (cache (dedup server_two_peers))
                   (fingerprint [xaa]) = false) by (vm_compute; reflexivity).
  destruct (Hn Hnew) as (Hinj & _ & Hins).
  assert (Hin : lru.Contains (cache (dedup s)) (fingerprint [xaa]) = true)
    by (apply Hins; vm_compute; reflexivity).
  split; [exact Hinj |]. split; [exact Hin |]. exact (Hd Hin).
Defined.

(** ** Admission *)

Lemma handleNewConn_banned_id (s : Server) (conn : Conn) (now : Z) :
  In (RemoteAddr_String conn) (BannedIDs (cfg s)) ->
  handleNewConn s conn now = (s, Rejected BannedID).
Proof.
  intros Hin. unfold handleNewConn.
  assert (Hex : existsb (fun b => String.eqb b (RemoteAddr_String conn))
                  (BannedIDs (cfg s)) = true).
  { apply existsb_exists. exists (RemoteAddr_String conn).
    split; [exact Hin | apply String.eqb_refl]. }
  rewrite Hex. reflexivity.
Qed.

Lemma handleNewConn_banned_host (s : Server) (conn : Conn) (now : Z)
  (host port : string) :
  net.SplitHostPort (RemoteAddr_String conn) = Some (host, port) ->
  In host (BannedHosts (cfg s)) ->
  exists why, handleNewConn s conn now = (s, Rejected why).
Proof.
  intros Hsplit Hin. unfold handleNewConn. rewrite Hsplit.
  destruct (existsb _ (BannedIDs (cfg s))); [eauto |].
  assert (Hex : existsb (fun b => String.eqb b host) (BannedHosts (cfg s))
                = true).
  { apply existsb_exists. exists host.
    split; [exact Hin | apply String.eqb_refl]. }
  rewrite Hex. eauto.
Qed.

(** No banned peer enters the map through [handleNewConn]. *)
Lemma handleNewConn_accepts_unbanned (s s' : Server) (conn : Conn) (now : Z) :
  handleNewConn s conn now = (s', Accepted) ->
  ~ In (RemoteAddr_String conn) (BannedIDs (cfg s))
  /\ (forall host port,
        net.SplitHostPort (RemoteAddr_String conn) = Some (host, port) ->
        ~ In host (BannedHosts (cfg s)))
  /\ localChildren s < MaxChildren (cfg s)
  /\ peers s' !! RemoteAddr_String conn
     = Some (NewPeer (RemoteAddr_String conn) conn (NetworkKey (cfg s)) now).
Proof.
  intros Hadm. split; [| split].
  - intros Hin. rewrite (handleNewConn_banned_id _ _ _ Hin) in Hadm.
    discriminate.
  - intros host port Hsplit Hin.
    destruct (handleNewConn_banned_host _ _ now _ _ Hsplit Hin) as [why Hrej].
    rewrite Hrej in Hadm. discriminate.
  - unfold handleNewConn in Hadm.
    destruct (existsb _ (BannedIDs (cfg s))); [discriminate |].
    destruct (existsb _ (BannedHosts (cfg s))); [discriminate |].
    destruct (Z.geb_spec (localChildren s) (MaxChildren (cfg s)));
      [discriminate |].
    injection Hadm as <-. split; [lia |].
    cbn [peers with_peers]. apply lookup_insert_eq.
Qed.

(** A peer built by [NewPeer] is not counted as a local child: its
    [parentID] is the empty string. *)
Lemma NewPeer_not_local (id : string) (conn : Conn) (key : string) (now : Z) :
  stats.ParentID (GetStats (NewPeer id conn key now)) = ""
  /\ String.eqb (stats.ParentID (GetStats (NewPeer id conn key now))) "Local"
     = false.
Proof. split; reflexivity. Qed.

(** C5, the failing input: with [MaxChildren = 2], three connections are
    handled while the earlier links are still up (as the [connectToPeer]
    goroutines of three configured peers do).  All three are accepted: the
    child count the code compares with [MaxChildren] is still 0 after three
    admissions, because [NewPeer] leaves [parentID] empty and only peers whose
    [parentID] is ["Local"] are counted.  Served one after the other by the
    accept loop, the three connections are accepted as well. *)
Theorem handleNewConn_accepts_third_child :
  let r := handleNewConns server_max2 [connA; connB; connC] 0 in
  MaxChildren (cfg server_max2) = 2
  /\ r.2 = [Accepted; Accepted; Accepted]
  /\ size (peers r.1) = 3%nat
  /\ localChildren r.1 = 0
  /\ parentID <$> peers r.1 !! "10.0.0.3:40003" = Some ""
  /\ (listenPeers_serial server_max2 [connA; connB; connC] 0).2
     = [Accepted; Accepted; Accepted].
Proof.
  cbv zeta. split; [reflexivity |].
  split; [vm_compute; reflexivity |].
  split; [vm_compute; reflexivity |].
  split; [vm_compute; reflexivity |].
  split; vm_compute; reflexivity.
Qed.

(** A banned id or host is refused from the next connection on. *)
Lemma BanPeer_rejects (s : Server) (id ip : string) (conn : Conn) (now : Z) :
  id <> "" -> RemoteAddr_String conn = id ->
  handleNewConn (BanPeer s id ip) conn now = (BanPeer s id ip, Rejected BannedID).
Proof.
  intros Hid Hconn. apply handleNewConn_banned_id. rewrite Hconn.
  unfold BanPeer. cbn [cfg with_cfg BannedIDs set_Banned].
  destruct (String.eqb_spec id "") as [-> | _]; [contradiction |].
  simpl negb. cbv iota.
  destruct (existsb (fun b => String.eqb b id) (BannedIDs (cfg s))) eqn:Hex;
    simpl.
  - apply existsb_exists in Hex as (b & Hb & Heq).
    apply String.eqb_eq in Heq. subst b. exact Hb.
  - apply in_or_app. right. left. reflexivity.
Qed.

(** ** AddPeer *)

Lemma Index_not_contained (s sub : string) :
  strings.Contains s sub = false -> strings.Index s sub = -1.
Proof.
  induction s as [| c s IH]; simpl; intros Hc.
  - apply orb_false_iff in Hc as [Hp _]. rewrite Hp. reflexivity.
  - apply orb_false_iff in Hc as [Hp Hrest]. rewrite Hp.
    rewrite (IH Hrest). reflexivity.
Qed.

Lemma AddPeer_normalize_bare_host (host : string) :
  strings.Contains host "]" = false ->
  strings.Contains host ":" = false ->
  AddPeer_normalize host = String.append host ":8787".
Proof.
  intros Hb Hc. unfold AddPeer_normalize, net.JoinHostPort.
  rewrite Hb, Hc. simpl negb. cbv iota.
  rewrite (Index_not_contained _ _ Hc). reflexivity.
Qed.

Example AddPeer_normalize_ipv4 :
  AddPeer_normalize "10.0.0.1" = "10.0.0.1:8787".
Proof. reflexivity. Qed.

Lemma AddPeer_known_address (s : Server) (addr : string) :
  In (AddPeer_normalize addr) (Peers (cfg s)) -> AddPeer s addr = s.
Proof.
  intros Hin. unfold AddPeer.
  assert (Hex : existsb (fun p => String.eqb p (AddPeer_normalize addr))
                  (Peers (cfg s)) = true).
  { apply existsb_exists. exists (AddPeer_normalize addr).
    split; [exact Hin | apply String.eqb_refl]. }
  rewrite Hex. reflexivity.
Qed.

Lemma AddPeer_new_address (s : Server) (addr : string) :
  ~ In (AddPeer_normalize addr) (Peers (cfg s)) ->
  Peers (cfg (AddPeer s addr)) = Peers (cfg s) ++ [AddPeer_normalize addr].
Proof.
  intros Hnot. unfold AddPeer.
  destruct (existsb _ (Peers (cfg s))) eqn:Hex.
  - apply existsb_exists in Hex as (p & Hp & Heq).
    apply String.eqb_eq in Heq. subst p. contradiction.
  - destruct (negb (demoMode _)); reflexivity.
Qed.

(** C9, the failing input: for the bracketed IPv6 literal ["[2001:db8::1]"]
    the code hands the literal, brackets included, to [net.JoinHostPort],
    which brackets every host that contains a colon: the address stored and
    dialled is ["[[2001:db8::1]]:8787"], not ["[2001:db8::1]:8787"].  The bare
    IPv4 host and the duplicate check behave as the claim says. *)
Theorem AddPeer_brackets_ipv6_twice :
  AddPeer_normalize "[2001:db8::1]" = "[[2001:db8::1]]:8787"
  /\ Peers (cfg (AddPeer server0 "[2001:db8::1]")) = ["[[2001:db8::1]]:8787"]
  /\ dialing (AddPeer server0 "[2001:db8::1]") = ["[[2001:db8::1]]:8787"]
  /\ AddPeer_normalize "10.0.0.1" = "10.0.0.1:8787"
  /\ Peers (cfg (AddPeer (AddPeer server0 "10.0.0.1") "10.0.0.1"))
     = ["10.0.0.1:8787"].
Proof. repeat split; vm_compute; reflexivity. Qed.

(** ** Aggregate counters *)

Lemma wrap64_small (x : Z) : 0 <= x < 2 ^ 64 -> wrap64 x = x.
Proof. intros H. unfold wrap64. apply Z.mod_small. exact H. Qed.

Lemma wrapInt_small (x : Z) : - 2 ^ 63 <= x < 2 ^ 63 -> wrapInt x = x.
Proof.
  intros H. unfold wrapInt. rewrite Z.mod_small; lia.
Qed.

Lemma AddUint64_small (c d : Z) :
  0 <= c -> 0 <= d -> c + d < 2 ^ 64 -> AddUint64 c d = c + d.
Proof. intros. unfold AddUint64. apply wrap64_small. lia. Qed.

Lemma relay_step_counters (s : Server) (ev : Event) :
  counters_ok s -> totalReceived s < 2 ^ 63 -> totalErrors s < 2 ^ 63 ->
  counters_le s (relay_step s ev) /\ counters_ok (relay_step s ev)
  /\ totalReceived (relay_step s ev) <= totalReceived s + 1
  /\ totalErrors (relay_step s ev) <= totalErrors s + 1.
Proof.
  intros (HF & HD & HE & Hsum) HR HEb.
  assert (H63 : 2 ^ 63 < 2 ^ 64) by (vm_compute; reflexivity).
  unfold counters_le, counters_ok.
  destruct ev as [data | data f];
    destruct (lru.Contains (cache (dedup s)) (fingerprint data)) eqn:Hc.
  - rewrite (relay_step_capture_dup _ _ Hc).
    cbn [totalReceived totalForwarded totalDropped totalErrors with_counters].
    rewrite !AddUint64_small by lia. lia.
  - rewrite (relay_step_capture_new _ _ Hc).
    cbn [totalReceived totalForwarded totalDropped totalErrors with_counters].
    rewrite !AddUint64_small by lia. lia.
  - rewrite (relay_step_peer_dup _ _ _ Hc). lia.
  - rewrite (relay_step_peer_new _ _ _ Hc). cbv zeta.
    destruct f;
      cbn [totalReceived totalForwarded totalDropped totalErrors with_counters
           with_injected with_dedup];
      rewrite ?AddUint64_small by lia; lia.
Qed.

Lemma relay_run_counters (evs : list Event) :
  forall s : Server,
    counters_ok s ->
    totalReceived s + Z.of_nat (length evs) < 2 ^ 63 ->
    totalErrors s + Z.of_nat (length evs) < 2 ^ 63 ->
    counters_le s (relay_run s evs) /\ counters_ok (relay_run s evs).
Proof.
  induction evs as [| ev evs IH]; intros s Hok HR HE.
  - unfold counters_le. simpl. split; [lia | exact Hok].
  - rewrite length_cons, Nat2Z.inj_succ in HR, HE.
    destruct Hok as (HF & HD & HEr & Hsum).
    destruct (relay_step_counters s ev) as (Hle & Hok' & HR' & HE');
      [unfold counters_ok; lia | lia | lia |].
    specialize (IH (relay_step s ev) Hok').
    destruct IH as (Hle2 & Hok2); [lia | lia |].
    change (relay_run s (ev :: evs)) with (relay_run (relay_step s ev) evs).
    unfold counters_le in *. split; [lia | exact Hok2].
Qed.

Lemma runDemo_counters_sound (s : Server) (t1 t3 t4 : Z) :
  counters_ok s -> totalReceived s < 2 ^ 63 -> totalErrors s < 2 ^ 63 ->
  0 <= demoDropRate s <= demoPacketRate s -> demoPacketRate s < 2 ^ 62 ->
  0 <= t1 -> 0 <= t3 ->
  exists s', runDemo_counters s t1 t1 t3 t4 = Some s'
    /\ counters_le s s' /\ counters_ok s'.
Proof.
  intros (HF & HD & HE & Hsum) HR HEb Hrates HP Ht1 Ht3.
  assert (H62 : 2 ^ 62 = 4611686018427387904) by reflexivity.
  assert (H63 : 2 ^ 63 = 9223372036854775808) by reflexivity.
  assert (H64 : 2 ^ 64 = 18446744073709551616) by reflexivity.
  set (P := demoPacketRate s) in *. set (D := demoDropRate s) in *.
  unfold runDemo_counters. fold P D.
  unfold go_div. change (2 =? 0) with false. cbv iota. cbn [mbind option_bind].
  rewrite Z.quot_div_nonneg by lia.
  assert (Hhalf : 0 <= P / 2 <= P).
  { split; [apply Z.div_pos; lia |].
    apply Z.div_le_upper_bound; lia. }
  rewrite (wrapInt_small (P / 2)) by lia.
  rewrite (wrapInt_small (P / 2 + 1)) by lia.
  set (m := P / 2 + 1) in *.
  unfold go_mod.
  destruct (Z.eqb_spec m 0) as [Hm0 | _]; [lia |]. cbn [mbind option_bind].
  rewrite Z.rem_mod_nonneg by lia.
  assert (Hr1 : 0 <= t1 mod m < m) by (apply Z.mod_pos_bound; lia).
  set (r1 := t1 mod m) in *.
  rewrite (wrapInt_small (D + 1)) by lia.
  destruct (Z.eqb_spec (D + 1) 0) as [HD0 | _]; [lia |].
  cbn [mbind option_bind].
  rewrite (Z.rem_mod_nonneg t3) by lia.
  assert (Hr3 : 0 <= t3 mod (D + 1) < D + 1) by (apply Z.mod_pos_bound; lia).
  set (r3 := t3 mod (D + 1)) in *.
  rewrite (wrapInt_small (P + r1)) by lia.
  rewrite (wrapInt_small (P - D)) by lia.
  rewrite (wrapInt_small (P - D + r1)) by lia.
  unfold uint64_of_int.
  rewrite (wrap64_small (P + r1)) by lia.
  rewrite (wrap64_small (P - D + r1)) by lia.
  rewrite (wrap64_small r3) by lia.
  rewrite (AddUint64_small (totalReceived s)) by lia.
  rewrite (AddUint64_small (totalForwarded s)) by lia.
  rewrite (AddUint64_small (totalDropped s)) by lia.
  unfold counters_le, counters_ok.
  destruct (Z.ltb_spec 0 (demoErrorRate s)) as [Hrate | Hrate].
  - destruct (Z.eqb_spec (demoErrorRate s) 0) as [He0 | _]; [lia |].
    cbn [mbind option_bind].
    eexists. split; [reflexivity |].
    cbn [totalReceived totalForwarded totalDropped totalErrors with_counters].
    destruct (Z.rem t4 (demoErrorRate s) =? 0);
      rewrite ?AddUint64_small by lia; lia.
  - eexists. split; [reflexivity |].
    cbn [totalReceived totalForwarded totalDropped totalErrors with_counters].
    lia.
Qed.

(** C6, as stated, fails on demo-mode updates.  With the demo properties set
    to packet rate 10 and drop rate 20, the first tick adds
    [uint64(10 - 20)] to [totalForwarded]: the counter jumps to
    [2^64 - 10] while [totalReceived] is 10, and the second tick takes it
    down to [2^64 - 20].  With the default demo properties (15, 3, 10) a tick
    whose clock readings are 2 for the received counter and 3 for the others
    leaves [totalReceived = 17] and
    [totalForwarded + totalDropped = 15 + 3]. *)
Lemma runDemo_counters_not_monotone :
  exists s1 s2 s3,
    runDemo_counters server_demo 0 0 0 0 = Some s1
    /\ runDemo_counters s1 0 0 0 0 = Some s2
    /\ totalReceived s1 = 10 /\ totalForwarded s1 = 2 ^ 64 - 10
    /\ ~ (totalForwarded s1 + totalDropped s1 <= totalReceived s1)
    /\ totalForwarded s2 = 2 ^ 64 - 20
    /\ ~ (totalForwarded s1 <= totalForwarded s2)
    /\ runDemo_counters (SetDemoMode server0 true) 2 3 3 3 = Some s3
    /\ totalReceived s3 = 17
    /\ totalForwarded s3 = 15 /\ totalDropped s3 = 3
    /\ ~ (totalForwarded s3 + totalDropped s3 <= totalReceived s3).
Proof.
  eexists. eexists. eexists.
  split; [vm_compute; reflexivity |].
  split; [vm_compute; reflexivity |].
  split; [reflexivity |]. split; [reflexivity |].
  split; [vm_compute; intros H; apply H; reflexivity |].
  split; [reflexivity |].
  split; [vm_compute; intros H; apply H; reflexivity |].
  split; [vm_compute; reflexivity |].
  split; [reflexivity |]. split; [reflexivity |]. split; [reflexivity |].
  vm_compute. intros H. apply H. reflexivity.
Qed.

(** C6, amended: while the counters are below [2^63] (no [uint64] wraps),
    every step of the relay loop, on a capture frame or on a peer frame,
    leaves each of the four counters at least as large as it was and keeps
    [totalForwarded + totalDropped <= totalReceived]; so does a demo-mode
    update when the demo rates satisfy
    [0 <= drop rate <= packet rate < 2^62], the clock readings are not
    negative, and the readings used for the received and the forwarded
    counters agree.  (These conditions are sufficient; they are not claimed
    to be necessary.) *)
Theorem counters_monotone (s : Server) (ev : Event) (t1 t3 t4 : Z) :
  counters_ok s -> totalReceived s < 2 ^ 63 -> totalErrors s < 2 ^ 63 ->
  (counters_le s (relay_step s ev) /\ counters_ok (relay_step s ev))
  /\ (0 <= demoDropRate s <= demoPacketRate s -> demoPacketRate s < 2 ^ 62 ->
      0 <= t1 -> 0 <= t3 ->
      exists s', runDemo_counters s t1 t1 t3 t4 = Some s'
        /\ counters_le s s' /\ counters_ok s').
Proof.
  intros Hok HR HE. split.
  - destruct (relay_step_counters s ev Hok HR HE) as (Hle & Hok' & _).
    split; assumption.
  - intros Hrates HP Ht1 Ht3. apply runDemo_counters_sound; assumption.
Qed.

Lemma counters_monotone_witness :
  (counters_le server_two_peers
     (relay_step server_two_peers (CaptureFrame [x01; x02]))
   /\ counters_ok (relay_step server_two_peers (CaptureFrame [x01; x02])))
  /\ (exists s', runDemo_counters server0 7 7 2 20 = Some s'
        /\ counters_le server0 s' /\ counters_ok s').
Proof.
  assert (Hok : counters_ok server_two_peers)
    by (unfold counters_ok; vm_compute; repeat split; discriminate).
  assert (Hok0 : counters_ok server0)
    by (unfold counters_ok; vm_compute; repeat split; discriminate).
  split.
  - apply (counters_monotone server_two_peers (CaptureFrame [x01; x02]) 0 0 0 Hok);
      vm_compute; reflexivity.
  - apply (counters_monotone server0 (CaptureFrame []) 7 2 20 Hok0);
      try (vm_compute; reflexivity);
      try (vm_compute; split; discriminate);
      vm_compute; discriminate.
Defined.

(** ** Peer links: the receive stream *)

Lemma receiver_loop_total (fuel : nat) :
  forall ctxDone clock n p published input ending,
    (length input < fuel)%nat ->
    exists r, receiver_loop fuel ctxDone clock n p published input ending
              = Some r.
Proof.
  induction fuel as [| fuel IH]; intros ctxDone clock n p published input
    ending Hlen; [lia |].
  simpl.
  destruct input as [| b0 [| b1 [| b2 [| b3 rest]]]];
    try (destruct ending; eauto; fail).
  destruct (be32_decode b0 b1 b2 b3 >? MaxFrame); [eauto |].
  destruct (Z.of_nat (length rest) <? be32_decode b0 b1 b2 b3);
    [destruct ending; eauto |].
  destruct (ctxDone n); [eauto |]. apply IH.
  rewrite length_skipn. simpl in Hlen. lia.
Qed.

(** The receiver always comes to a result on a finite input. *)
Lemma receiver_total ctxDone clock p input ending :
  exists r, receiver ctxDone clock p input ending = Some r.
Proof. apply receiver_loop_total. lia. Qed.

Lemma receiver_loop_oversized (fuel : nat) ctxDone clock n p published
  (b0 b1 b2 b3 : byte) (rest : list byte) ending :
  be32_decode b0 b1 b2 b3 > MaxFrame ->
  receiver_loop (S fuel) ctxDone clock n p published
    (b0 :: b1 :: b2 :: b3 :: rest) ending
  = Some (mkRecvResult p published rest
            (RecvTooLarge (be32_decode b0 b1 b2 b3))).
Proof.
  intros Hbig. simpl.
  destruct (Z.gtb_spec (be32_decode b0 b1 b2 b3) MaxFrame); [reflexivity | lia].
Qed.

(** C7, as stated, fails.  Peer ["10.0.0.1:40001"] sends the length prefix
    3000.  The receiver goroutine returns, but the peer's [errors] counter is
    still 0, and the link is not closed: the sender goroutine is still
    waiting on its empty queue, so [wg.Wait()] has not returned, the transport
    is open and the peer is still in the map. *)
Lemma oversized_frame_not_counted_nor_closed :
  exists s' lk' r wire,
    link_receive server_two_peers "10.0.0.1:40001" link_started
      (fun _ => false) (fun _ => 0) (be32 3000 ++ repeat x00 8) EndPending
    = Some (s', lk', r)
    /\ rr_exit r = RecvTooLarge 3000
    /\ errors <$> peers server_two_peers !! "10.0.0.1:40001" = Some 0
    /\ errors <$> peers s' !! "10.0.0.1:40001" = Some 0
    /\ link_send s' "10.0.0.1:40001" lk' false WriteOk [] = Some (s', lk', wire)
    /\ Run_finish s' "10.0.0.1:40001" lk' = (s', lk')
    /\ connOpen lk' = true
    /\ is_Some (peers s' !! "10.0.0.1:40001").
Proof.
  eexists. eexists. eexists. eexists.
  split; [vm_compute; reflexivity |].
  split; [reflexivity |].
  split; [vm_compute; reflexivity |].
  split; [vm_compute; reflexivity |].
  split; [vm_compute; reflexivity |].
  split; [vm_compute; reflexivity |].
  split; [reflexivity |].
  vm_compute. eauto.
Qed.

(** C7, amended: when the receive stream of a peer reads a length prefix
    greater than 2000, the receiver goroutine leaves its loop without reading
    the frame bytes and without publishing anything; no counter of that peer
    changes (neither the receive counters nor [errors]), and every other
    peer in the map is left as it was.  For a peer that sends one good frame
    and then the length 3000, the counters show the good frame alone. *)
Theorem receiver_rejects_oversized (s : Server) (id : string) (lk : Link)
  (p : Peer) (ctxDone : nat -> bool) (clock : nat -> Z)
  (b0 b1 b2 b3 : byte) (rest : list byte) (ending : StreamEnd) :
  peers s !! id = Some p ->
  be32_decode b0 b1 b2 b3 > MaxFrame ->
  (forall fuel n published,
      receiver_loop (S fuel) ctxDone clock n p published
        (b0 :: b1 :: b2 :: b3 :: rest) ending
      = Some (mkRecvResult p published rest
                (RecvTooLarge (be32_decode b0 b1 b2 b3))))
  /\ (exists s' lk',
        link_receive s id lk ctxDone clock (b0 :: b1 :: b2 :: b3 :: rest) ending
        = Some (s', lk',
                mkRecvResult p [] rest (RecvTooLarge (be32_decode b0 b1 b2 b3)))
        /\ recvRunning lk' = false
        /\ peers s' !! id = Some p
        /\ (forall id', id' <> id -> peers s' !! id' = peers s !! id'))
  /\ (exists r,
        receiver (fun _ => false) (fun _ => 5)
          (NewPeer "10.0.0.1:40001" connA "" 0)
          (encode_frame [x01; x02] ++ be32 3000 ++ [xff; xff]) EndPending
        = Some r
        /\ rr_exit r = RecvTooLarge 3000
        /\ rr_published r = [[x01; x02]]
        /\ rr_unread r = [xff; xff]
        /\ recvPkts (rr_peer r) = 1 /\ recvBytes (rr_peer r) = 2
        /\ errors (rr_peer r) = 0).
Proof.
  intros Hp Hbig. split; [| split].
  - intros fuel n published. apply receiver_loop_oversized. exact Hbig.
  - unfold link_receive. rewrite Hp. unfold receiver.
    rewrite receiver_loop_oversized by exact Hbig.
    eexists. eexists. split; [reflexivity |].
    cbn [rr_exit rr_peer recvRunning peers with_peers].
    split; [reflexivity |].
    split; [apply lookup_insert_eq |].
    intros id' Hne. apply lookup_insert_ne. congruence.
  - eexists. split; [vm_compute; reflexivity |].
    repeat split.
Qed.

Lemma receiver_rejects_oversized_witness :
  exists s' lk',
    link_receive server_two_peers "10.0.0.1:40001" link_started
      (fun _ => false) (fun _ => 0) [x00; x00; x0b; xb8; x01] EndPending
    = Some (s', lk',
            mkRecvResult
              (NewPeer "10.0.0.1:40001" connA (NetworkKey DefaultConfig) 0)
              [] [x01] (RecvTooLarge (be32_decode x00 x00 x0b xb8)))
    /\ recvRunning lk' = false
    /\ peers s' !! "10.0.0.1:40001"
       = Some (NewPeer "10.0.0.1:40001" connA (NetworkKey DefaultConfig) 0)
    /\ (forall id', id' <> "10.0.0.1:40001" ->
        peers s' !! id' = peers server_two_peers !! id').
Proof.
  assert (Hp : peers server_two_peers !! "10.0.0.1:40001"
               = Some (NewPeer "10.0.0.1:40001" connA
                         (NetworkKey DefaultConfig) 0))
    by (vm_compute; reflexivity).
  assert (Hbig : be32_decode x00 x00 x0b xb8 > MaxFrame)
    by (vm_compute; reflexivity).
  exact (proj1 (proj2 (receiver_rejects_oversized server_two_peers
                         "10.0.0.1:40001" link_started _
                         (fun _ => false) (fun _ => 0)
                         x00 x00 x0b xb8 [x01] EndPending Hp Hbig))).
Defined.

(** ** Sorting and the statistics snapshot *)

(** *** The string order *)





(** *** [insertionSort] *)

Section InsertionSort.
Context {A : Type} (c : A -> A -> bool).




(** [R a b]: [a] may stand just before [b] in the output. *)
Variable R : A -> A -> Prop.
Hypothesis stays : forall x y, c x y = false -> R y x.
Hypothesis moves : forall x y, c x y = true -> R x y.



End InsertionSort.











(** *** The comparison closure of [SortPeers] *)

Section FieldLess.
Variable fmt : list byte -> string.









End FieldLess.

(** *** Ranging over the peer map *)

















(** *** The registry invariant *)





(** * Properties of the further parts *)

(** ** The dedup store *)

Lemma In_removelast {A : Type} (x : A) (l : list A) :
  In x (removelast l) -> In x l.
Proof.
  induction l as [| c l IH]; [simpl; tauto |].
  destruct l as [| e l']; [simpl; tauto |].
  rewrite removelast_cons_nonempty by done.
  intros [-> | Hin]; [left; reflexivity | right; apply IH; exact Hin].
Qed.

Lemma NoDup_removelast {A : Type} (l : list A) :
  List.NoDup l -> List.NoDup (removelast l).
Proof.
  induction l as [| a l IH]; intros Hnd; [exact Hnd |].
  destruct l as [| b l']; [constructor |].
  rewrite removelast_cons_nonempty by done.
  inversion Hnd as [| ? ? Hnotin Hnd']; subst.
  constructor; [| apply IH; exact Hnd'].
  intros Hin. apply Hnotin. apply In_removelast. exact Hin.
Qed.

Lemma length_removelast_cons {A : Type} (x : A) (l : list A) :
  length (removelast (x :: l)) = length l.
Proof.
  revert x. induction l as [| a l IH]; intros x; [reflexivity |].
  rewrite removelast_cons_nonempty by done. simpl length. f_equal. apply IH.
Qed.

Lemma Contains_In (c : lru.Cache) (k : string) :
  lru.Contains c k = true <-> In k (lru.Keys c).
Proof.
  unfold lru.Contains. rewrite existsb_exists. split.
  - intros (x & Hx & Heq). apply String.eqb_eq in Heq. subst x. exact Hx.
  - intros Hin. exists k. split; [exact Hin | apply String.eqb_refl].
Qed.

Lemma Contains_not_In (c : lru.Cache) (k : string) :
  lru.Contains c k = false <-> ~ In k (lru.Keys c).
Proof.
  rewrite <- Contains_In.
  destruct (lru.Contains c k); split; intros H;
    first [done | exfalso; apply H; reflexivity].
Qed.

Lemma IsDuplicate_wf (d : DedupCache) (data : list byte) :
  lru_wf (cache d) -> lru_wf (cache (snd (IsDuplicate d data))).
Proof.
  intros (Hsize & Hlen & Hnd).
  destruct (lru.Contains (cache d) (fingerprint data)) eqn:Hc.
  - rewrite (IsDuplicate_hit _ _ Hc). simpl. repeat split; assumption.
  - pose proof (IsDuplicate_miss_keys d data Hsize Hc) as Hkeys.
    pose proof (IsDuplicate_keeps_size d data) as [Hsz _].
    unfold lru_wf. rewrite Hsz. split; [exact Hsize |].
    assert (HlenK : forall c, lru.Len c = Z.of_nat (length (lru.Keys c))).
    { intros c. unfold lru.Len, lru.Keys. rewrite length_map. reflexivity. }
    rewrite (HlenK (cache (snd _))), Hkeys. rewrite HlenK in Hlen.
    apply Contains_not_In in Hc.
    destruct (Z.geb_spec (lru.Len (cache d)) (lru.size (cache d))) as [Hge | Hlt].
    + rewrite HlenK in Hge.
      destruct (lru.Keys (cache d)) as [| k ks] eqn:Hks.
      { simpl in Hge. lia. }
      split.
      * rewrite length_cons, length_removelast_cons.
        rewrite length_cons in Hlen. lia.
      * constructor.
        -- intros Hin. apply Hc. apply In_removelast. exact Hin.
        -- apply NoDup_removelast. exact Hnd.
    + rewrite HlenK in Hlt. split.
      * simpl length. lia.
      * constructor; assumption.
Qed.

Lemma IsDuplicate_seq_cons (d : DedupCache) (f : list byte)
  (rest : list (list byte)) :
  IsDuplicate_seq d (f :: rest) =
  (fst (IsDuplicate d f) :: fst (IsDuplicate_seq (snd (IsDuplicate d f)) rest),
   snd (IsDuplicate_seq (snd (IsDuplicate d f)) rest)).
Proof.
  simpl. destruct (IsDuplicate d f) as [b d1]. simpl.
  destruct (IsDuplicate_seq d1 rest) as [bs d2]. reflexivity.
Qed.

Lemma IsDuplicate_seq_wf (frames : list (list byte)) (d : DedupCache) :
  lru_wf (cache d) -> lru_wf (cache (snd (IsDuplicate_seq d frames))).
Proof.
  revert d. induction frames as [| f rest IH]; intros d Hwf; [exact Hwf |].
  rewrite IsDuplicate_seq_cons. cbn [snd]. apply IH, IsDuplicate_wf, Hwf.
Qed.

(** X1.  A store built by [NewDedupCache] never holds more fingerprints than
    its size and never holds one twice, whatever frames it is asked about. *)
Theorem DedupCache_bounded (size ttlSeconds : Z) (d : DedupCache)
  (frames : list (list byte)) :
  NewDedupCache size ttlSeconds = Ok d ->
  let d' := snd (IsDuplicate_seq d frames) in
  lru.size (cache d') = size
  /\ 0 <= lru.Len (cache d') <= size
  /\ List.NoDup (lru.Keys (cache d')).
Proof.
  intros Hnew d'.
  destruct (Z.leb_spec size 0) as [Hle | Hgt].
  { rewrite (NewDedupCache_nonpositive _ _ Hle) in Hnew. discriminate. }
  rewrite (NewDedupCache_positive _ _ Hgt) in Hnew. injection Hnew as <-.
  assert (Hwf0 : lru_wf (lru.mkCache size [])).
  { repeat split; simpl; [lia | unfold lru.Len; simpl; lia | constructor]. }
  pose proof (IsDuplicate_seq_wf frames
                (mkDedupCache (lru.mkCache size []) (wrapInt (ttlSeconds * Second)))
                Hwf0) as (Hs & Hl & Hn).
  fold d' in Hs, Hl, Hn.
  assert (Hsz : forall fs d0, lru.size (cache (snd (IsDuplicate_seq d0 fs)))
                              = lru.size (cache d0)).
  { induction fs as [| f fs IH]; intros d0; [reflexivity |].
    rewrite IsDuplicate_seq_cons. cbn [snd]. rewrite IH.
    apply IsDuplicate_keeps_size. }
  split; [apply Hsz |].
  split; [| exact Hn].
  unfold d' in *. rewrite Hsz in Hl. simpl in Hl.
  split; [unfold lru.Len; lia | exact Hl].
Qed.

Lemma DedupCache_bounded_witness :
  let d := mkDedupCache (lru.mkCache 2 []) (wrapInt (30 * Second)) in
  let d' := snd (IsDuplicate_seq d [p1; p2; p3; p1]) in
  lru.size (cache d') = 2
  /\ 0 <= lru.Len (cache d') <= 2
  /\ List.NoDup (lru.Keys (cache d')).
Proof.
  apply (DedupCache_bounded 2 30). reflexivity.
Defined.

Lemma removelast_app_cons {A : Type} (l : list A) (x y : A) (r : list A) :
  removelast (l ++ x :: y :: r) = l ++ x :: removelast (y :: r).
Proof.
  induction l as [| a l IH]; [reflexivity |].
  change ((a :: l) ++ x :: y :: r) with (a :: (l ++ x :: y :: r)).
  rewrite removelast_cons_nonempty by (destruct l; done).
  rewrite IH. reflexivity.
Qed.

Lemma misses_cons (b : bool) (bs : list bool) :
  misses (b :: bs) = (if b then 0 else 1) + misses bs.
Proof. unfold misses. destruct b; simpl List.filter; simpl length; lia. Qed.

Lemma misses_nonneg (bs : list bool) : 0 <= misses bs.
Proof. unfold misses. lia. Qed.

(** A fingerprint at depth [length front] of the eviction list survives a
    call sequence whose misses do not push it beyond the size. *)
Lemma IsDuplicate_seq_keeps (fp : string) (frames : list (list byte)) :
  forall (d : DedupCache) (front back : list string),
    0 < lru.size (cache d) ->
    lru.Keys (cache d) = front ++ fp :: back ->
    Z.of_nat (length front) + misses (fst (IsDuplicate_seq d frames))
      < lru.size (cache d) ->
    lru.Contains (cache (snd (IsDuplicate_seq d frames))) fp = true.
Proof.
  induction frames as [| f rest IH]; intros d front back Hsize Hkeys Hroom.
  - simpl. apply Contains_In. rewrite Hkeys. apply in_or_app. right. left.
    reflexivity.
  - rewrite IsDuplicate_seq_cons in Hroom |- *. cbn [fst snd] in Hroom |- *.
    rewrite misses_cons, IsDuplicate_verdict in Hroom.
    pose proof (misses_nonneg
                  (fst (IsDuplicate_seq (snd (IsDuplicate d f)) rest))) as Hm.
    pose proof (IsDuplicate_keeps_size d f) as [Hsz _].
    destruct (lru.Contains (cache d) (fingerprint f)) eqn:Hc.
    + rewrite (IsDuplicate_hit _ _ Hc) in Hroom |- *. cbn [snd] in Hroom |- *.
      apply (IH d front back Hsize Hkeys). lia.
    + pose proof (IsDuplicate_miss_keys d f Hsize Hc) as Hk.
      destruct (Z.geb_spec (lru.Len (cache d)) (lru.size (cache d)))
        as [Hge | Hlt].
      * assert (Hlen : lru.Len (cache d)
                       = Z.of_nat (length front) + 1 + Z.of_nat (length back)).
        { unfold lru.Len. rewrite <- (length_map fst).
          change (map fst (lru.evictList (cache d))) with (lru.Keys (cache d)).
          rewrite Hkeys, length_app, length_cons. lia. }
        destruct back as [| y back'].
        { simpl length in Hlen. lia. }
        rewrite Hkeys, removelast_app_cons in Hk.
        apply (IH _ (fingerprint f :: front) (removelast (y :: back'))).
        -- rewrite Hsz. exact Hsize.
        -- rewrite Hk. reflexivity.
        -- rewrite Hsz, length_cons. lia.
      * apply (IH _ (fingerprint f :: front) back).
        -- rewrite Hsz. exact Hsize.
        -- rewrite Hk, Hkeys. reflexivity.
        -- rewrite Hsz, length_cons. lia.
Qed.

(** X2.  The dedup window.  Once a frame has been recorded (its first call
    was a miss), it is reported as a duplicate for as long as fewer than
    [size] later calls were misses, whatever the other frames are and however
    many hits lie in between. *)
Theorem IsDuplicate_window (d : DedupCache) (data : list byte)
  (frames : list (list byte)) :
  0 < lru.size (cache d) ->
  fst (IsDuplicate d data) = false ->
  let d1 := snd (IsDuplicate d data) in
  1 + misses (fst (IsDuplicate_seq d1 frames)) <= lru.size (cache d) ->
  fst (IsDuplicate (snd (IsDuplicate_seq d1 frames)) data) = true.
Proof.
  intros Hsize Hmiss d1 Hroom.
  rewrite IsDuplicate_verdict in Hmiss |- *.
  pose proof (IsDuplicate_miss_keys d data Hsize Hmiss) as Hk.
  pose proof (IsDuplicate_keeps_size d data) as [Hsz _].
  apply (IsDuplicate_seq_keeps (fingerprint data) frames d1 []
           (if lru.Len (cache d) >=? lru.size (cache d)
            then removelast (lru.Keys (cache d)) else lru.Keys (cache d))).
  - unfold d1. rewrite Hsz. exact Hsize.
  - unfold d1. rewrite Hk. reflexivity.
  - unfold d1 in *. rewrite Hsz. simpl length. lia.
Qed.

Lemma IsDuplicate_window_witness :
  let d := mkDedupCache (lru.mkCache 3 []) 0 in
  fst (IsDuplicate (snd (IsDuplicate_seq (snd (IsDuplicate d p1)) [p2; p1; p3]))
         p1) = true.
Proof.
  apply (IsDuplicate_window (mkDedupCache (lru.mkCache 3 []) 0) p1 [p2; p1; p3]).
  - reflexivity.
  - vm_compute. reflexivity.
  - vm_compute. discriminate.
Defined.

(** ** The relay loop *)

Lemma relay_run_cons (s : Server) (ev : Event) (evs : list Event) :
  relay_run s (ev :: evs) = relay_run (relay_step s ev) evs.
Proof. reflexivity. Qed.

Lemma relay_step_dedup (s : Server) (ev : Event) :
  dedup (relay_step s ev) = snd (IsDuplicate (dedup s) (frame_of ev)).
Proof.
  destruct ev as [data | data f]; cbn [frame_of];
    destruct (lru.Contains (cache (dedup s)) (fingerprint data)) eqn:Hc.
  - rewrite (relay_step_capture_dup _ _ Hc), (IsDuplicate_hit _ _ Hc).
    reflexivity.
  - rewrite (relay_step_capture_new _ _ Hc). reflexivity.
  - rewrite (relay_step_peer_dup _ _ _ Hc), (IsDuplicate_hit _ _ Hc).
    reflexivity.
  - rewrite (relay_step_peer_new _ _ _ Hc). cbv zeta.
    destruct f; reflexivity.
Qed.

Lemma relay_run_dedup (evs : list Event) (s : Server) :
  dedup (relay_run s evs)
  = snd (IsDuplicate_seq (dedup s) (map frame_of evs)).
Proof.
  revert s. induction evs as [| ev evs IH]; intros s; [reflexivity |].
  rewrite relay_run_cons, IH, relay_step_dedup.
  rewrite map_cons, IsDuplicate_seq_cons. reflexivity.
Qed.

Lemma captured_cons (ev : Event) (evs : list Event) :
  captured (ev :: evs) = (if is_capture ev then 1 else 0) + captured evs.
Proof.
  unfold captured. simpl List.filter.
  destruct (is_capture ev); simpl length; lia.
Qed.

Lemma captured_bounds (evs : list Event) :
  0 <= captured evs <= Z.of_nat (length evs).
Proof.
  unfold captured. pose proof (filter_length_le is_capture evs). lia.
Qed.

(** X3.  Exact accounting.  Starting from counters with
    [forwarded + dropped = received], a run of the relay loop keeps that
    equation: [totalReceived] advances by the number of captured frames, each
    of which is counted as forwarded or as dropped, and frames from peers
    touch none of the three. *)
Theorem relay_run_accounting (evs : list Event) (s : Server) :
  0 <= totalForwarded s -> 0 <= totalDropped s ->
  totalForwarded s + totalDropped s = totalReceived s ->
  totalReceived s + Z.of_nat (length evs) < 2 ^ 64 ->
  totalReceived (relay_run s evs) = totalReceived s + captured evs
  /\ totalForwarded (relay_run s evs) + totalDropped (relay_run s evs)
     = totalReceived (relay_run s evs)
  /\ totalForwarded s <= totalForwarded (relay_run s evs)
  /\ totalDropped s <= totalDropped (relay_run s evs).
Proof.
  revert s. induction evs as [| ev evs IH]; intros s HF HD Hsum Hroom.
  - unfold captured. simpl. lia.
  - rewrite relay_run_cons, captured_cons.
    rewrite length_cons in Hroom.
    assert (Hstep :
      totalReceived (relay_step s ev)
        = totalReceived s + (if is_capture ev then 1 else 0)
      /\ totalForwarded (relay_step s ev) + totalDropped (relay_step s ev)
         = totalReceived (relay_step s ev)
      /\ totalForwarded s <= totalForwarded (relay_step s ev)
      /\ totalDropped s <= totalDropped (relay_step s ev)).
    { destruct ev as [data | data f]; cbn [is_capture];
        destruct (lru.Contains (cache (dedup s)) (fingerprint data)) eqn:Hc.
      - rewrite (relay_step_capture_dup _ _ Hc).
        cbn [totalReceived totalForwarded totalDropped with_counters].
        rewrite !AddUint64_small by lia. lia.
      - rewrite (relay_step_capture_new _ _ Hc).
        cbn [totalReceived totalForwarded totalDropped with_counters].
        rewrite !AddUint64_small by lia. lia.
      - rewrite (relay_step_peer_dup _ _ _ Hc). lia.
      - rewrite (relay_step_peer_new _ _ _ Hc). cbv zeta.
        destruct f;
          cbn [totalReceived totalForwarded totalDropped with_counters
               with_injected with_dedup]; lia. }
    destruct Hstep as (HR1 & Hsum1 & HF1 & HD1).
    destruct (IH (relay_step s ev)) as (HR2 & Hsum2 & HF2 & HD2);
      try lia.
    { destruct (is_capture ev); lia. }
Qed.

Lemma relay_run_accounting_witness :
  let s' := relay_run server0 [CaptureFrame p1; PeerFrame p2 false;
                               CaptureFrame p1; CaptureFrame p2] in
  totalReceived s' = totalReceived server0 + 3
  /\ totalForwarded s' + totalDropped s' = totalReceived s'
  /\ totalForwarded server0 <= totalForwarded s'
  /\ totalDropped server0 <= totalDropped s'.
Proof.
  apply (relay_run_accounting
           [CaptureFrame p1; PeerFrame p2 false; CaptureFrame p1;
            CaptureFrame p2] server0);
    vm_compute; first [reflexivity | discriminate].
Defined.

(** X4.  No loop within the dedup window.  Once a new frame has gone through
    the relay loop, from either side, and fewer than [size] other new frames
    have followed, the same frame arriving from a peer changes nothing (it is
    not injected, no counter moves), and the same frame arriving from the
    capture adapter is counted as received and dropped and is not broadcast. *)
Theorem relay_suppresses_repeat (s : Server) (first : Event)
  (evs : list Event) (injectFails : bool) :
  0 < lru.size (cache (dedup s)) ->
  fst (IsDuplicate (dedup s) (frame_of first)) = false ->
  let s1 := relay_run (relay_step s first) evs in
  1 + misses (fst (IsDuplicate_seq (dedup (relay_step s first))
                     (map frame_of evs)))
    <= lru.size (cache (dedup s)) ->
  relay_step s1 (PeerFrame (frame_of first) injectFails) = s1
  /\ relay_step s1 (CaptureFrame (frame_of first))
     = with_counters s1 (AddUint64 (totalReceived s1) 1) (totalForwarded s1)
         (AddUint64 (totalDropped s1) 1) (totalErrors s1).
Proof.
  intros Hsize Hnew s1 Hroom.
  assert (Hin : lru.Contains (cache (dedup s1)) (fingerprint (frame_of first))
                = true).
  { unfold s1. rewrite relay_run_dedup.
    rewrite relay_step_dedup in Hroom |- *.
    rewrite IsDuplicate_verdict in Hnew.
    pose proof (IsDuplicate_miss_keys _ _ Hsize Hnew) as Hk.
    pose proof (IsDuplicate_keeps_size (dedup s) (frame_of first)) as [Hsz _].
    apply (IsDuplicate_seq_keeps _ _ _ []
             (if lru.Len (cache (dedup s)) >=? lru.size (cache (dedup s))
              then removelast (lru.Keys (cache (dedup s)))
              else lru.Keys (cache (dedup s)))).
    - rewrite Hsz. exact Hsize.
    - rewrite Hk. reflexivity.
    - rewrite Hsz. simpl length. lia. }
  split.
  - apply relay_step_peer_dup. exact Hin.
  - apply relay_step_capture_dup. exact Hin.
Qed.

Lemma relay_suppresses_repeat_witness :
  let s1 := relay_run (relay_step server0 (CaptureFrame p1))
              [PeerFrame p2 false; CaptureFrame p3] in
  relay_step s1 (PeerFrame p1 true) = s1
  /\ relay_step s1 (CaptureFrame p1)
     = with_counters s1 (AddUint64 (totalReceived s1) 1) (totalForwarded s1)
         (AddUint64 (totalDropped s1) 1) (totalErrors s1).
Proof.
  apply (relay_suppresses_repeat server0 (CaptureFrame p1)
           [PeerFrame p2 false; CaptureFrame p3] true).
  - vm_compute. reflexivity.
  - vm_compute. reflexivity.
  - vm_compute. discriminate.
Defined.

Lemma set_SendChan_same (p : Peer) : set_SendChan p (SendChan p) = p.
Proof. destruct p; reflexivity. Qed.

Lemma set_SendChan_twice (p : Peer) (q1 q2 : list (list byte)) :
  set_SendChan (set_SendChan p q1) q2 = set_SendChan p q2.
Proof. reflexivity. Qed.

Lemma trySend_room (p : Peer) (data : list byte) :
  Z.of_nat (length (SendChan p)) < SendChanCap ->
  trySend p data = set_SendChan p (SendChan p ++ [data]).
Proof.
  intros Hroom. unfold trySend.
  destruct (Z.ltb_spec (Z.of_nat (length (SendChan p))) SendChanCap);
    [reflexivity | lia].
Qed.

Lemma trySend_full (p : Peer) (data : list byte) :
  SendChanCap <= Z.of_nat (length (SendChan p)) -> trySend p data = p.
Proof.
  intros Hfull. unfold trySend.
  destruct (Z.ltb_spec (Z.of_nat (length (SendChan p))) SendChanCap);
    [lia | reflexivity].
Qed.

Lemma broadcast_frames_cons (d : DedupCache) (ev : Event) (evs : list Event) :
  broadcast_frames d (ev :: evs)
  = (if is_capture ev && negb (fst (IsDuplicate d (frame_of ev)))
     then [frame_of ev] else [])
    ++ broadcast_frames (snd (IsDuplicate d (frame_of ev))) evs.
Proof.
  cbn [broadcast_frames]. destruct (IsDuplicate d (frame_of ev)). reflexivity.
Qed.

Lemma relay_step_peers (s : Server) (ev : Event) (id : string) (p : Peer) :
  peers s !! id = Some p ->
  peers (relay_step s ev) !! id
  = Some (if is_capture ev && negb (fst (IsDuplicate (dedup s) (frame_of ev)))
          then trySend p (frame_of ev) else p).
Proof.
  intros Hp. rewrite IsDuplicate_verdict.
  destruct ev as [data | data f]; cbn [is_capture frame_of];
    destruct (lru.Contains (cache (dedup s)) (fingerprint data)) eqn:Hc;
    cbn [andb negb].
  - rewrite (relay_step_capture_dup _ _ Hc). exact Hp.
  - rewrite (relay_step_capture_new _ _ Hc).
    cbn [peers with_counters with_peers]. rewrite lookup_fmap, Hp. reflexivity.
  - rewrite (relay_step_peer_dup _ _ _ Hc). exact Hp.
  - rewrite (relay_step_peer_new _ _ _ Hc). cbv zeta.
    destruct f; exact Hp.
Qed.

(** X5.  First in, first out, and no transit.  Over a run of the relay loop
    a peer whose queue has room for them is handed exactly the captured
    frames that were new when they arrived, in capture order, behind what was
    already waiting; nothing else of the peer changes, and a frame received
    from a peer is never queued for any peer. *)
Theorem relay_run_queue (evs : list Event) (s : Server) (id : string)
  (p : Peer) :
  peers s !! id = Some p ->
  Z.of_nat (length (SendChan p))
    + Z.of_nat (length (broadcast_frames (dedup s) evs)) <= SendChanCap ->
  peers (relay_run s evs) !! id
  = Some (set_SendChan p (SendChan p ++ broadcast_frames (dedup s) evs)).
Proof.
  revert s p. induction evs as [| ev evs IH]; intros s p Hp Hroom.
  - cbn [broadcast_frames relay_run fold_left]. rewrite app_nil_r, set_SendChan_same.
    exact Hp.
  - rewrite relay_run_cons. rewrite broadcast_frames_cons in Hroom |- *.
    rewrite length_app in Hroom.
    pose proof (relay_step_peers s ev id p Hp) as Hstep.
    rewrite <- relay_step_dedup in Hroom |- *.
    destruct (is_capture ev && negb (fst (IsDuplicate (dedup s) (frame_of ev)))).
    + simpl length in Hroom.
      rewrite trySend_room in Hstep by lia.
      rewrite (IH _ _ Hstep).
      * cbn [SendChan set_SendChan]. rewrite <- app_assoc. reflexivity.
      * cbn [SendChan set_SendChan]. rewrite length_app. simpl length. lia.
    + simpl length in Hroom. rewrite (IH _ _ Hstep) by lia. reflexivity.
Qed.

Lemma relay_run_queue_witness :
  peers (relay_run server_two_peers
           [CaptureFrame p1; PeerFrame p2 false; CaptureFrame p1;
            CaptureFrame p2; CaptureFrame p3]) !! "10.0.0.2:40002"
  = Some (set_SendChan (NewPeer "10.0.0.2:40002" connB "" 0) [p1; p3]).
Proof.
  apply (relay_run_queue
           [CaptureFrame p1; PeerFrame p2 false; CaptureFrame p1;
            CaptureFrame p2; CaptureFrame p3]
           server_two_peers "10.0.0.2:40002"
           (NewPeer "10.0.0.2:40002" connB "" 0)).
  - vm_compute. reflexivity.
  - vm_compute. discriminate.
Defined.

Lemma inject_calls_cons (d : DedupCache) (ev : Event) (evs : list Event) :
  inject_calls d (ev :: evs)
  = (match ev with
     | PeerFrame data injectFails =>
         if fst (IsDuplicate d data) then [] else [(data, injectFails)]
     | CaptureFrame _ => []
     end) ++ inject_calls (snd (IsDuplicate d (frame_of ev))) evs.
Proof.
  cbn [inject_calls]. destruct ev as [data | data f]; cbn [frame_of];
    destruct (IsDuplicate d data) as [[] d1]; reflexivity.
Qed.

(** X6.  Injection.  Over a run of the relay loop the frames handed to the
    capture adapter are exactly the frames received from peers that were new
    when they arrived, once each and in arrival order; captured frames are
    never injected; and [totalErrors] advances by the number of injections
    that failed. *)
Theorem relay_run_injected (evs : list Event) (s : Server) :
  0 <= totalErrors s ->
  totalErrors s + Z.of_nat (length evs) < 2 ^ 64 ->
  injected (relay_run s evs)
  = injected s ++ map fst (inject_calls (dedup s) evs)
  /\ totalErrors (relay_run s evs)
     = totalErrors s
       + Z.of_nat (length (List.filter snd (inject_calls (dedup s) evs))).
Proof.
  revert s. induction evs as [| ev evs IH]; intros s HE Hroom.
  - cbn [inject_calls relay_run fold_left map List.filter length].
    rewrite app_nil_r. split; [reflexivity | lia].
  - rewrite relay_run_cons, inject_calls_cons. rewrite length_cons in Hroom.
    rewrite map_app, List.filter_app, length_app.
    assert (Hstep :
      injected (relay_step s ev)
      = injected s
        ++ map fst (match ev with
                    | PeerFrame data injectFails =>
                        if fst (IsDuplicate (dedup s) data) then []
                        else [(data, injectFails)]
                    | CaptureFrame _ => []
                    end)
      /\ totalErrors (relay_step s ev)
         = totalErrors s
           + Z.of_nat (length (List.filter snd
               (match ev with
                | PeerFrame data injectFails =>
                    if fst (IsDuplicate (dedup s) data) then []
                    else [(data, injectFails)]
                | CaptureFrame _ => []
                end)))).
    { destruct ev as [data | data f]; rewrite ?IsDuplicate_verdict;
        destruct (lru.Contains (cache (dedup s)) (fingerprint data)) eqn:Hc.
      - rewrite (relay_step_capture_dup _ _ Hc). simpl.
        rewrite app_nil_r. split; [reflexivity | lia].
      - rewrite (relay_step_capture_new _ _ Hc). simpl.
        rewrite app_nil_r. split; [reflexivity | lia].
      - rewrite (relay_step_peer_dup _ _ _ Hc). simpl.
        rewrite app_nil_r. split; [reflexivity | lia].
      - rewrite (relay_step_peer_new _ _ _ Hc). cbv zeta.
        destruct f;
          cbn [injected totalErrors with_counters with_injected with_dedup
               map fst snd List.filter length];
          rewrite ?AddUint64_small by lia; split; first [reflexivity | lia]. }
    destruct Hstep as [Hinj HE1].
    assert (Hle : Z.of_nat (length (List.filter snd
               (match ev with
                | PeerFrame data injectFails =>
                    if fst (IsDuplicate (dedup s) data) then []
                    else [(data, injectFails)]
                | CaptureFrame _ => []
                end))) <= 1).
    { destruct ev as [data | data f]; [simpl; lia |].
      destruct (fst (IsDuplicate (dedup s) data)); [simpl; lia |].
      destruct f; simpl; lia. }
    destruct (IH (relay_step s ev)) as [Hinj2 HE2]; try lia.
    rewrite Hinj2, HE2, Hinj, HE1, relay_step_dedup, <- app_assoc.
    split; [reflexivity | lia].
Qed.

Lemma relay_run_injected_witness :
  let evs := [PeerFrame p1 true; CaptureFrame p2; PeerFrame p1 false;
              PeerFrame p2 false; PeerFrame p3 false] in
  injected (relay_run server0 evs)
  = injected server0 ++ map fst (inject_calls (dedup server0) evs)
  /\ totalErrors (relay_run server0 evs)
     = totalErrors server0
       + Z.of_nat (length (List.filter snd (inject_calls (dedup server0) evs))).
Proof.
  apply (relay_run_injected
           [PeerFrame p1 true; CaptureFrame p2; PeerFrame p1 false;
            PeerFrame p2 false; PeerFrame p3 false] server0).
  - vm_compute. discriminate.
  - vm_compute. reflexivity.
Defined.

Lemma trySend_bounded (p : Peer) (data : list byte) :
  Z.of_nat (length (SendChan p)) <= SendChanCap ->
  Z.of_nat (length (SendChan (trySend p data))) <= SendChanCap.
Proof.
  intros Hb. unfold trySend.
  destruct (Z.ltb_spec (Z.of_nat (length (SendChan p))) SendChanCap);
    [| exact Hb].
  cbn [SendChan set_SendChan]. rewrite length_app. simpl length. lia.
Qed.

Lemma relay_step_queues_bounded (s : Server) (ev : Event) :
  queues_bounded s -> queues_bounded (relay_step s ev).
Proof.
  intros Hb id p Hp.
  destruct (peers s !! id) as [p0 |] eqn:Hp0.
  - rewrite (relay_step_peers s ev id p0 Hp0) in Hp. injection Hp as <-.
    destruct (is_capture ev && negb (fst (IsDuplicate (dedup s) (frame_of ev))));
      [apply trySend_bounded |]; apply (Hb id); exact Hp0.
  - exfalso. revert Hp.
    destruct ev as [data | data f];
      destruct (lru.Contains (cache (dedup s)) (fingerprint data)) eqn:Hc.
    + rewrite (relay_step_capture_dup _ _ Hc). cbn [peers with_counters].
      rewrite Hp0. discriminate.
    + rewrite (relay_step_capture_new _ _ Hc).
      cbn [peers with_counters with_peers]. rewrite lookup_fmap, Hp0.
      discriminate.
    + rewrite (relay_step_peer_dup _ _ _ Hc). rewrite Hp0. discriminate.
    + rewrite (relay_step_peer_new _ _ _ Hc). cbv zeta.
      destruct f; cbn [peers with_counters with_injected with_dedup];
        rewrite Hp0; discriminate.
Qed.

(** X24.  Bounded queues.  No operation lets an egress queue grow beyond
    the 1000 frames of its channel buffer: a server whose queues are within
    the bound keeps them there through any run of the relay loop, through the
    admission of any connections (a new peer starts with an empty queue), and
    through any turn of a sender. *)
Theorem queues_stay_bounded (s : Server) :
  queues_bounded s ->
  (forall evs, queues_bounded (relay_run s evs))
  /\ (forall conn now, queues_bounded (fst (handleNewConn s conn now)))
  /\ (forall id lk ctxDone w wire s' lk' wire',
        link_send s id lk ctxDone w wire = Some (s', lk', wire') ->
        queues_bounded s')
  /\ (forall id, queues_bounded (onDisconnect s id)).
Proof.
  intros Hb. split; [| split; [| split]].
  - intros evs. revert s Hb.
    induction evs as [| ev evs IH]; intros s Hb; [exact Hb |].
    rewrite relay_run_cons. apply IH, relay_step_queues_bounded, Hb.
  - intros conn now. unfold handleNewConn.
    destruct (existsb _ (BannedIDs (cfg s))); [exact Hb |].
    destruct (existsb _ (BannedHosts (cfg s))); [exact Hb |].
    destruct (localChildren s >=? MaxChildren (cfg s)); [exact Hb |].
    cbn [fst]. intros id p. cbn [peers with_peers].
    destruct (decide (RemoteAddr_String conn = id)) as [<- | Hne].
    + rewrite lookup_insert_eq. intros Hp. injection Hp as <-.
      vm_compute. discriminate.
    + rewrite lookup_insert_ne by exact Hne. apply Hb.
  - intros id lk ctxDone w wire s' lk' wire' Hsend.
    unfold link_send in Hsend.
    destruct (peers s !! id) as [p |] eqn:Hp; [| discriminate].
    pose proof (Hb id p Hp) as Hbp.
    assert (Hq : Z.of_nat (length (SendChan (fst (fst (sender_step ctxDone w p wire)))))
                 <= SendChanCap).
    { unfold sender_step. destruct ctxDone; [exact Hbp |].
      destruct (SendChan p) as [| data q] eqn:Hq.
      - cbn [fst]. rewrite Hq. exact Hbp.
      - simpl length in Hbp.
        destruct w; cbn [fst SendChan set_SendChan set_sent]; lia. }
    destruct (sender_step ctxDone w p wire) as [[p1 wire1] st].
    injection Hsend as <- _ _. cbn [fst] in Hq.
    intros id' p'. cbn [peers with_peers].
    destruct (decide (id = id')) as [<- | Hne].
    + rewrite lookup_insert_eq. intros Hp'. injection Hp' as <-. exact Hq.
    + rewrite lookup_insert_ne by exact Hne. apply Hb.
  - intros id id' p. cbn [peers onDisconnect with_peers].
    intros Hp. apply lookup_delete_Some in Hp as [_ Hp]. apply (Hb id' p Hp).
Qed.

Lemma queues_stay_bounded_witness :
  (forall evs, queues_bounded (relay_run server_full_queue evs))
  /\ (forall conn now,
        queues_bounded (fst (handleNewConn server_full_queue conn now)))
  /\ (forall id lk ctxDone w wire s' lk' wire',
        link_send server_full_queue id lk ctxDone w wire
        = Some (s', lk', wire') ->
        queues_bounded s')
  /\ (forall id, queues_bounded (onDisconnect server_full_queue id)).
Proof.
  apply (queues_stay_bounded server_full_queue).
  intros id p Hp.
  assert (Hall : map_Forall
                   (fun _ q => (Z.of_nat (length (SendChan q)) <=? SendChanCap) = true)
                   (peers server_full_queue)).
  { apply map_Forall_to_list. vm_compute. repeat constructor. }
  apply Z.leb_le. exact (Hall id p Hp).
Defined.

(** ** The wire format *)

Lemma byte_to_Z_to_byte (z : Z) : byte_to_Z (Z_to_byte z) = z mod 256.
Proof.
  unfold byte_to_Z, Z_to_byte.
  assert (Hb : 0 <= z mod 256 < 256) by (apply Z.mod_pos_bound; lia).
  destruct (Byte.of_N (Z.to_N (z mod 256))) as [b |] eqn:Hof.
  - apply Byte.to_of_N in Hof. rewrite Hof. lia.
  - apply Byte.of_N_None_iff in Hof. lia.
Qed.

Lemma byte_to_Z_range (b : byte) : 0 <= byte_to_Z b < 256.
Proof.
  unfold byte_to_Z. pose proof (Byte.to_N_bounded b). lia.
Qed.

Lemma be32_decode_be32 (n : Z) :
  0 <= n < 2 ^ 32 ->
  match be32 n with
  | [b0; b1; b2; b3] => be32_decode b0 b1 b2 b3 = n
  | _ => False
  end.
Proof.
  intros Hn. unfold be32, be32_decode. rewrite !byte_to_Z_to_byte.
  change 256 with (2 ^ 8).
  apply Z.bits_inj'. intros i Hi.
  rewrite !Z.lor_spec, !Z.shiftl_spec by lia.
  destruct (Z.lt_ge_cases i 8) as [H8 | H8].
  { rewrite (Z.testbit_neg_r _ (i - 24)), (Z.testbit_neg_r _ (i - 16)),
      (Z.testbit_neg_r _ (i - 8)) by lia.
    rewrite Z.mod_pow2_bits_low by lia. reflexivity. }
  destruct (Z.lt_ge_cases i 16) as [H16 | H16].
  { rewrite (Z.testbit_neg_r _ (i - 24)), (Z.testbit_neg_r _ (i - 16)) by lia.
    rewrite (Z.mod_pow2_bits_low _ 8 (i - 8)) by lia.
    rewrite (Z.mod_pow2_bits_high n 8 i) by lia.
    rewrite Z.shiftr_spec by lia. rewrite orb_false_r. simpl orb.
    f_equal. lia. }
  destruct (Z.lt_ge_cases i 24) as [H24 | H24].
  { rewrite (Z.testbit_neg_r _ (i - 24)) by lia.
    rewrite (Z.mod_pow2_bits_low _ 8 (i - 16)) by lia.
    rewrite (Z.mod_pow2_bits_high _ 8 (i - 8)) by lia.
    rewrite (Z.mod_pow2_bits_high n 8 i) by lia.
    rewrite Z.shiftr_spec by lia. rewrite !orb_false_r. simpl orb.
    f_equal. lia. }
  rewrite (Z.mod_pow2_bits_high _ 8 (i - 16)) by lia.
  rewrite (Z.mod_pow2_bits_high _ 8 (i - 8)) by lia.
  rewrite (Z.mod_pow2_bits_high n 8 i) by lia.
  rewrite !orb_false_r.
  destruct (Z.lt_ge_cases i 32) as [H32 | H32].
  - rewrite Z.mod_pow2_bits_low by lia.
    rewrite Z.shiftr_spec by lia. f_equal. lia.
  - rewrite Z.mod_pow2_bits_high by lia.
    symmetry. rewrite <- (Z.mod_small n (2 ^ 32)) by lia.
    apply Z.mod_pow2_bits_high. lia.
Qed.

Lemma firstn_length_app {A : Type} (l r : list A) :
  firstn (Z.to_nat (Z.of_nat (length l))) (l ++ r) = l.
Proof.
  rewrite Nat2Z.id. rewrite firstn_app, Nat.sub_diag, firstn_all.
  simpl. apply app_nil_r.
Qed.

Lemma skipn_length_app {A : Type} (l r : list A) :
  skipn (Z.to_nat (Z.of_nat (length l))) (l ++ r) = r.
Proof.
  rewrite Nat2Z.id. rewrite skipn_app, Nat.sub_diag, skipn_all.
  reflexivity.
Qed.

(** One turn of the receiver on a well-formed frame. *)
Lemma receiver_loop_frame (fuel : nat) ctxDone clock n p published
  (f rest : list byte) ending :
  frame_fits f ->
  receiver_loop (S fuel) ctxDone clock n p published (encode_frame f ++ rest)
    ending
  = let p1 := set_recv p (AddUint64 (recvBytes p) (Z.of_nat (length f)))
                (AddUint64 (recvPkts p) 1) (clock n) in
    if ctxDone n then Some (mkRecvResult p1 published rest RecvCancelled)
    else receiver_loop fuel ctxDone clock (S n) p1 (published ++ [f]) rest
           ending.
Proof.
  intros Hfit. unfold frame_fits, MaxFrame in Hfit.
  assert (Hdec := be32_decode_be32 (Z.of_nat (length f))).
  unfold encode_frame. unfold be32 in Hdec |- *.
  cbn [app receiver_loop]. rewrite Hdec by lia.
  destruct (Z.gtb_spec (Z.of_nat (length f)) MaxFrame) as [Hgt | _];
    [unfold MaxFrame in Hgt; lia |].
  destruct (Z.ltb_spec (Z.of_nat (length (f ++ rest))) (Z.of_nat (length f)))
    as [Hlt | _]; [rewrite length_app in Hlt; lia |].
  rewrite firstn_length_app, skipn_length_app. reflexivity.
Qed.

Lemma frames_bytes_cons (f : list byte) (fs : list (list byte)) :
  frames_bytes (f :: fs) = Z.of_nat (length f) + frames_bytes fs.
Proof. unfold frames_bytes. simpl concat. rewrite length_app. lia. Qed.

Lemma frames_bytes_nonneg (fs : list (list byte)) : 0 <= frames_bytes fs.
Proof. unfold frames_bytes. lia. Qed.

Lemma receiver_loop_encoded (fs : list (list byte)) :
  forall fuel ctxDone clock n p published ending,
    (length fs < fuel)%nat ->
    List.Forall frame_fits fs ->
    (forall k, ctxDone k = false) ->
    0 <= recvPkts p -> recvPkts p + Z.of_nat (length fs) < 2 ^ 64 ->
    0 <= recvBytes p -> recvBytes p + frames_bytes fs < 2 ^ 64 ->
    exists r,
      receiver_loop fuel ctxDone clock n p published
        (concat (map encode_frame fs)) ending = Some r
      /\ rr_published r = published ++ fs
      /\ rr_unread r = []
      /\ rr_exit r = exit_at_boundary ending
      /\ recvPkts (rr_peer r) = recvPkts p + Z.of_nat (length fs)
      /\ recvBytes (rr_peer r) = recvBytes p + frames_bytes fs
      /\ errors (rr_peer r)
         = match ending with
           | EndError => AddUint64 (errors p) 1
           | _ => errors p
           end
      /\ SendChan (rr_peer r) = SendChan p.
Proof.
  induction fs as [| f fs IH];
    intros fuel ctxDone clock n p published ending Hfuel Hfit Hctx HP HPb HB HBb.
  - destruct fuel as [| fuel]; [lia |].
    cbn [map concat receiver_loop].
    destruct ending; eexists; (split; [reflexivity |]);
      cbn [rr_published rr_unread rr_exit rr_peer exit_at_boundary recvPkts
           recvBytes errors set_errors SendChan length];
      rewrite app_nil_r; unfold frames_bytes; simpl; repeat split; lia.
  - destruct fuel as [| fuel]; [simpl in Hfuel; lia |].
    inversion Hfit as [| ? ? Hf Hfs]; subst.
    rewrite length_cons in Hfuel, HPb. rewrite frames_bytes_cons in HBb.
    pose proof (frames_bytes_nonneg fs) as Hnn.
    cbn [map concat]. rewrite receiver_loop_frame by exact Hf.
    cbv zeta. rewrite Hctx.
    set (p1 := set_recv p (AddUint64 (recvBytes p) (Z.of_nat (length f)))
                 (AddUint64 (recvPkts p) 1) (clock n)).
    assert (Hpk1 : recvPkts p1 = recvPkts p + 1)
      by (cbn [p1 recvPkts set_recv]; apply AddUint64_small; lia).
    assert (Hby1 : recvBytes p1 = recvBytes p + Z.of_nat (length f))
      by (cbn [p1 recvBytes set_recv]; apply AddUint64_small; lia).
    destruct (IH fuel ctxDone clock (S n) p1 (published ++ [f]) ending)
      as (r & Hr & Hpub & Hun & Hex & Hpk & Hby & Her & Hq);
      [lia | exact Hfs | exact Hctx | lia | lia | lia | lia |].
    exists r. split; [exact Hr |].
    rewrite Hpub, <- app_assoc. rewrite length_cons, frames_bytes_cons.
    rewrite Hpk, Hby, Her, Hq, Hpk1, Hby1.
    repeat split; try assumption; lia.
Qed.

Lemma length_concat_encode (fs : list (list byte)) :
  (length fs <= length (concat (map encode_frame fs)))%nat.
Proof.
  induction fs as [| f fs IH]; [simpl; lia |].
  cbn [map concat]. unfold encode_frame at 1, be32.
  rewrite !length_app. simpl length. lia.
Qed.

(** X7.  Wire round trip.  On the encoding of a list of frames none of which
    is longer than 2000 bytes, a receiver that is not cancelled publishes
    exactly those frames, in order, consumes all the input, counts one packet
    and the payload bytes per frame, and then ends as the stream ends: silently
    on end of file, with one error counted on a transport error, blocked when
    more may come. *)
Theorem receiver_decodes_frames (fs : list (list byte)) (p : Peer)
  (ctxDone : nat -> bool) (clock : nat -> Z) (ending : StreamEnd) :
  List.Forall frame_fits fs ->
  (forall k, ctxDone k = false) ->
  0 <= recvPkts p -> recvPkts p + Z.of_nat (length fs) < 2 ^ 64 ->
  0 <= recvBytes p -> recvBytes p + frames_bytes fs < 2 ^ 64 ->
  exists r,
    receiver ctxDone clock p (concat (map encode_frame fs)) ending = Some r
    /\ rr_published r = fs
    /\ rr_unread r = []
    /\ rr_exit r = exit_at_boundary ending
    /\ recvPkts (rr_peer r) = recvPkts p + Z.of_nat (length fs)
    /\ recvBytes (rr_peer r) = recvBytes p + frames_bytes fs
    /\ errors (rr_peer r)
       = match ending with
         | EndError => AddUint64 (errors p) 1
         | _ => errors p
         end.
Proof.
  intros Hfit Hctx HP HPb HB HBb. unfold receiver.
  destruct (receiver_loop_encoded fs
              (S (length (concat (map encode_frame fs))))
              ctxDone clock 0%nat p [] ending)
    as (r & Hr & Hpub & Hun & Hex & Hpk & Hby & Her & _); try assumption.
  { pose proof (length_concat_encode fs). lia. }
  exists r. repeat split; assumption.
Qed.

Lemma receiver_decodes_frames_witness :
  exists r,
    receiver (fun _ => false) (fun _ => 7)
      (NewPeer "10.0.0.1:40001" connA "" 0)
      (concat (map encode_frame [p1; []; p2])) EndEOF = Some r
    /\ rr_published r = [p1; []; p2]
    /\ rr_unread r = []
    /\ rr_exit r = exit_at_boundary EndEOF
    /\ recvPkts (rr_peer r) = 0 + Z.of_nat (length [p1; []; p2])
    /\ recvBytes (rr_peer r) = 0 + frames_bytes [p1; []; p2]
    /\ errors (rr_peer r) = 0.
Proof.
  apply (receiver_decodes_frames [p1; []; p2]
           (NewPeer "10.0.0.1:40001" connA "" 0) (fun _ => false) (fun _ => 7)
           EndEOF).
  - repeat constructor; unfold frame_fits; vm_compute; discriminate.
  - reflexivity.
  - vm_compute. discriminate.
  - vm_compute. reflexivity.
  - vm_compute. discriminate.
  - vm_compute. reflexivity.
Defined.

(** ** The sender *)

Lemma sender_run_drains (q : list (list byte)) :
  forall (p : Peer) (wire : list byte),
    SendChan p = q ->
    0 <= sentPkts p -> sentPkts p + Z.of_nat (length q) < 2 ^ 64 ->
    0 <= sentBytes p -> sentBytes p + frames_bytes q < 2 ^ 64 ->
    sender_run (length q) p wire
    = (set_sent (set_SendChan p []) (sentBytes p + frames_bytes q)
         (sentPkts p + Z.of_nat (length q)),
       wire ++ concat (map encode_frame q), SendRunning).
Proof.
  induction q as [| f q IH]; intros p wire Hq HP HPb HB HBb.
  - cbn [length sender_run map concat]. rewrite app_nil_r.
    unfold frames_bytes. simpl. rewrite !Z.add_0_r.
    destruct p; simpl in Hq; subst; reflexivity.
  - rewrite length_cons in HPb. rewrite frames_bytes_cons in HBb.
    pose proof (frames_bytes_nonneg q) as Hnn.
    cbn [length sender_run]. unfold sender_step. rewrite Hq.
    rewrite !AddUint64_small
      by (cbn [sentBytes sentPkts set_SendChan]; lia).
    rewrite IH; cbn [SendChan sentPkts sentBytes set_sent set_SendChan];
      try lia; try reflexivity.
    rewrite frames_bytes_cons. cbn [map concat].
    rewrite <- app_assoc. rewrite Nat2Z.inj_succ.
    do 2 f_equal. unfold set_sent, set_SendChan. cbn. f_equal; lia.
Qed.

(** X8.  The sender drains its queue in order.  With no cancellation and no
    write error, as many turns of the sender loop as there are frames waiting
    put on the wire the encoding of those frames, oldest first, leave the
    queue empty, and count every frame and its payload bytes as sent; no
    length is checked on the way out. *)
Theorem sender_writes_queue (p : Peer) (wire : list byte) :
  0 <= sentPkts p -> sentPkts p + Z.of_nat (length (SendChan p)) < 2 ^ 64 ->
  0 <= sentBytes p -> sentBytes p + frames_bytes (SendChan p) < 2 ^ 64 ->
  exists p',
    sender_run (length (SendChan p)) p wire
    = (p', wire ++ concat (map encode_frame (SendChan p)), SendRunning)
    /\ SendChan p' = []
    /\ sentPkts p' = sentPkts p + Z.of_nat (length (SendChan p))
    /\ sentBytes p' = sentBytes p + frames_bytes (SendChan p)
    /\ recvPkts p' = recvPkts p /\ errors p' = errors p.
Proof.
  intros HP HPb HB HBb.
  eexists. split.
  - apply sender_run_drains; [reflexivity | assumption ..].
  - repeat split.
Qed.

Lemma sender_writes_queue_witness :
  let p := set_SendChan (NewPeer "10.0.0.1:40001" connA "" 0) [p1; p2] in
  exists p',
    sender_run (length (SendChan p)) p []
    = (p', [] ++ concat (map encode_frame (SendChan p)), SendRunning)
    /\ SendChan p' = []
    /\ sentPkts p' = sentPkts p + Z.of_nat (length (SendChan p))
    /\ sentBytes p' = sentBytes p + frames_bytes (SendChan p)
    /\ recvPkts p' = recvPkts p /\ errors p' = errors p.
Proof.
  apply (sender_writes_queue
           (set_SendChan (NewPeer "10.0.0.1:40001" connA "" 0) [p1; p2]) []).
  - vm_compute. discriminate.
  - vm_compute. reflexivity.
  - vm_compute. discriminate.
  - vm_compute. reflexivity.
Defined.

(** X9.  End to end.  What one relay's sender writes for a queue of frames
    of at most 2000 bytes each, the receiver of the relay at the other end of
    the connection publishes frame for frame, in the same order, and then
    waits for more. *)
Theorem link_delivers_queue (pa pb : Peer) (ctxDone : nat -> bool)
  (clock : nat -> Z) :
  List.Forall frame_fits (SendChan pa) ->
  (forall k, ctxDone k = false) ->
  0 <= sentPkts pa -> sentPkts pa + Z.of_nat (length (SendChan pa)) < 2 ^ 64 ->
  0 <= sentBytes pa -> sentBytes pa + frames_bytes (SendChan pa) < 2 ^ 64 ->
  0 <= recvPkts pb -> recvPkts pb + Z.of_nat (length (SendChan pa)) < 2 ^ 64 ->
  0 <= recvBytes pb -> recvBytes pb + frames_bytes (SendChan pa) < 2 ^ 64 ->
  exists pa' wire r,
    sender_run (length (SendChan pa)) pa [] = (pa', wire, SendRunning)
    /\ receiver ctxDone clock pb wire EndPending = Some r
    /\ rr_published r = SendChan pa
    /\ rr_exit r = RecvBlocked
    /\ sentPkts pa' - sentPkts pa = recvPkts (rr_peer r) - recvPkts pb
    /\ sentBytes pa' - sentBytes pa = recvBytes (rr_peer r) - recvBytes pb.
Proof.
  intros Hfit Hctx HSP HSPb HSB HSBb HRP HRPb HRB HRBb.
  destruct (receiver_loop_encoded (SendChan pa)
              (S (length (concat (map encode_frame (SendChan pa)))))
              ctxDone clock 0%nat pb [] EndPending)
    as (r & Hr & Hpub & _ & Hex & Hpk & Hby & _ & _); try assumption.
  { pose proof (length_concat_encode (SendChan pa)). lia. }
  eexists. exists (concat (map encode_frame (SendChan pa))). exists r.
  split; [apply (sender_run_drains (SendChan pa) pa []);
          [reflexivity | assumption ..] |].
  split; [exact Hr |].
  split; [exact Hpub |].
  split; [exact Hex |].
  cbn [sentPkts sentBytes set_sent]. lia.
Qed.

Lemma link_delivers_queue_witness :
  let pa := set_SendChan (NewPeer "10.0.0.2:40002" connB "" 0) [p1; p2; p1] in
  let pb := NewPeer "10.0.0.1:40001" connA "" 0 in
  exists pa' wire r,
    sender_run (length (SendChan pa)) pa [] = (pa', wire, SendRunning)
    /\ receiver (fun _ => false) (fun _ => 9) pb wire EndPending = Some r
    /\ rr_published r = SendChan pa
    /\ rr_exit r = RecvBlocked
    /\ sentPkts pa' - sentPkts pa = recvPkts (rr_peer r) - recvPkts pb
    /\ sentBytes pa' - sentBytes pa = recvBytes (rr_peer r) - recvBytes pb.
Proof.
  apply (link_delivers_queue
           (set_SendChan (NewPeer "10.0.0.2:40002" connB "" 0) [p1; p2; p1])
           (NewPeer "10.0.0.1:40001" connA "" 0) (fun _ => false)
           (fun _ => 9)).
  - repeat constructor; unfold frame_fits; vm_compute; discriminate.
  - reflexivity.
  - vm_compute. discriminate.
  - vm_compute. reflexivity.
  - vm_compute. discriminate.
  - vm_compute. reflexivity.
  - vm_compute. discriminate.
  - vm_compute. reflexivity.
  - vm_compute. discriminate.
  - vm_compute. reflexivity.
Defined.

(** ** The receiver on arbitrary input *)

Lemma Z_to_byte_mod (z : Z) : Z_to_byte (z mod 256) = Z_to_byte z.
Proof. unfold Z_to_byte. rewrite Z.mod_mod by lia. reflexivity. Qed.

Lemma Z_to_byte_to_Z (b : byte) : Z_to_byte (byte_to_Z b) = b.
Proof.
  unfold Z_to_byte. rewrite Z.mod_small by apply byte_to_Z_range.
  unfold byte_to_Z. rewrite N2Z.id, Byte.of_to_N. reflexivity.
Qed.

Lemma byte_bit_high (b : byte) (j : Z) :
  8 <= j -> Z.testbit (byte_to_Z b) j = false.
Proof.
  intros Hj. rewrite <- (Z.mod_small (byte_to_Z b) (2 ^ 8))
    by apply byte_to_Z_range.
  apply Z.mod_pow2_bits_high. lia.
Qed.

Lemma be32_decode_nonneg (b0 b1 b2 b3 : byte) : 0 <= be32_decode b0 b1 b2 b3.
Proof.
  pose proof (byte_to_Z_range b0). pose proof (byte_to_Z_range b1).
  pose proof (byte_to_Z_range b2). pose proof (byte_to_Z_range b3).
  unfold be32_decode.
  repeat (apply Z.lor_nonneg; split); try apply Z.shiftl_nonneg; lia.
Qed.

Lemma be32_decode_byte (b0 b1 b2 b3 : byte) (k : Z) (b : byte) :
  (k = 24 /\ b = b0) \/ (k = 16 /\ b = b1) \/ (k = 8 /\ b = b2)
  \/ (k = 0 /\ b = b3) ->
  Z.shiftr (be32_decode b0 b1 b2 b3) k mod 256 = byte_to_Z b.
Proof.
  intros Hk. change 256 with (2 ^ 8). apply Z.bits_inj'. intros i Hi.
  destruct (Z.lt_ge_cases i 8) as [H8 | H8].
  - rewrite Z.mod_pow2_bits_low by lia.
    rewrite Z.shiftr_spec by lia. unfold be32_decode.
    rewrite !Z.lor_spec, !Z.shiftl_spec by lia.
    destruct Hk as [[-> ->] | [[-> ->] | [[-> ->] | [-> ->]]]].
    + rewrite (byte_bit_high b1), (byte_bit_high b2), (byte_bit_high b3) by lia.
      rewrite !orb_false_r. f_equal. lia.
    + rewrite (Z.testbit_neg_r _ (i + 16 - 24)) by lia.
      rewrite (byte_bit_high b2), (byte_bit_high b3) by lia.
      rewrite !orb_false_r. simpl orb. f_equal. lia.
    + rewrite (Z.testbit_neg_r _ (i + 8 - 24)) by lia.
      rewrite (Z.testbit_neg_r _ (i + 8 - 16)) by lia.
      rewrite (byte_bit_high b3) by lia.
      rewrite !orb_false_r. simpl orb. f_equal. lia.
    + rewrite (Z.testbit_neg_r _ (i + 0 - 24)) by lia.
      rewrite (Z.testbit_neg_r _ (i + 0 - 16)) by lia.
      rewrite (Z.testbit_neg_r _ (i + 0 - 8)) by lia.
      simpl orb. f_equal. lia.
  - rewrite Z.mod_pow2_bits_high by lia.
    symmetry. apply byte_bit_high. lia.
Qed.

Lemma be32_be32_decode (b0 b1 b2 b3 : byte) :
  be32 (be32_decode b0 b1 b2 b3) = [b0; b1; b2; b3].
Proof.
  unfold be32.
  rewrite <- (Z_to_byte_mod (Z.shiftr _ 24)), <- (Z_to_byte_mod (Z.shiftr _ 16)),
    <- (Z_to_byte_mod (Z.shiftr _ 8)).
  rewrite <- (Z_to_byte_mod (be32_decode b0 b1 b2 b3)).
  rewrite <- (Z.shiftr_0_r (be32_decode b0 b1 b2 b3)) at 4.
  rewrite (be32_decode_byte b0 b1 b2 b3 24 b0) by tauto.
  rewrite (be32_decode_byte b0 b1 b2 b3 16 b1) by tauto.
  rewrite (be32_decode_byte b0 b1 b2 b3 8 b2) by tauto.
  rewrite (be32_decode_byte b0 b1 b2 b3 0 b3) by tauto.
  rewrite !Z_to_byte_to_Z. reflexivity.
Qed.

Lemma receiver_loop_sound (fuel : nat) :
  forall ctxDone clock n p published input ending r,
    receiver_loop fuel ctxDone clock n p published input ending = Some r ->
    exists fs rest,
      rr_published r = published ++ fs
      /\ List.Forall frame_fits fs
      /\ input = concat (map encode_frame fs) ++ rest
      /\ errors (rr_peer r)
         = match rr_exit r with
           | RecvError => AddUint64 (errors p) 1
           | _ => errors p
           end
      /\ SendChan (rr_peer r) = SendChan p.
Proof.
  induction fuel as [| fuel IH];
    intros ctxDone clock n p published input ending r Hr; [discriminate |].
  assert (Hstop : forall p' e,
            errors p' = match e with
                        | RecvError => AddUint64 (errors p) 1
                        | _ => errors p
                        end ->
            SendChan p' = SendChan p ->
            forall unread,
            Some (mkRecvResult p' published unread e) = Some r ->
            exists fs rest,
              rr_published r = published ++ fs
              /\ List.Forall frame_fits fs
              /\ input = concat (map encode_frame fs) ++ rest
              /\ errors (rr_peer r)
                 = match rr_exit r with
                   | RecvError => AddUint64 (errors p) 1
                   | _ => errors p
                   end
              /\ SendChan (rr_peer r) = SendChan p).
  { intros p' e He Hq unread Heq. injection Heq as <-.
    exists [], input. cbn [rr_published rr_peer rr_exit map concat app].
    rewrite app_nil_r. repeat split; [constructor | exact He | exact Hq]. }
  cbn [receiver_loop] in Hr.
  destruct input as [| b0 [| b1 [| b2 [| b3 rest]]]];
    try (destruct ending; (eapply Hstop; [| | exact Hr]); reflexivity).
  destruct (be32_decode b0 b1 b2 b3 >? MaxFrame) eqn:Hbig;
    [eapply Hstop; [| | exact Hr]; reflexivity |].
  destruct (Z.ltb_spec (Z.of_nat (length rest)) (be32_decode b0 b1 b2 b3))
    as [Hshort | Hlong];
    [destruct ending; (eapply Hstop; [| | exact Hr]); reflexivity |].
  pose proof (be32_decode_nonneg b0 b1 b2 b3) as Hnn.
  set (L := be32_decode b0 b1 b2 b3) in *.
  set (data := firstn (Z.to_nat L) rest) in *.
  assert (Hlen : Z.of_nat (length data) = L).
  { unfold data. rewrite length_firstn. lia. }
  assert (Hin : b0 :: b1 :: b2 :: b3 :: rest
                = encode_frame data ++ skipn (Z.to_nat L) rest).
  { unfold encode_frame. rewrite Hlen. unfold L at 1.
    rewrite be32_be32_decode. cbn [app]. unfold data.
    rewrite firstn_skipn. reflexivity. }
  assert (Hfit : frame_fits data).
  { unfold frame_fits. rewrite Hlen.
    destruct (Z.gtb_spec L MaxFrame); [discriminate | lia]. }
  destruct (ctxDone n).
  - injection Hr as <-. exists [], (b0 :: b1 :: b2 :: b3 :: rest).
    cbn [rr_published rr_peer rr_exit map concat app errors SendChan set_recv].
    rewrite app_nil_r. repeat split. constructor.
  - apply IH in Hr as (fs & rest' & Hpub & Hfits & Hrest & Herr & Hq).
    exists (data :: fs), rest'.
    rewrite Hpub, <- app_assoc. split; [reflexivity |].
    split; [constructor; assumption |].
    split; [| split; [exact Herr | exact Hq]].
    rewrite Hin, Hrest. cbn [map concat]. rewrite <- app_assoc. reflexivity.
Qed.

(** X10.  What the receiver never does.  Whatever bytes arrive and however
    the stream ends, the receiver comes to a result; no frame it publishes is
    longer than 2000 bytes; the frames it publishes are, in order, the frames
    encoded at the head of the input (it invents and reorders nothing); and
    the peer's error counter moves, by one, exactly when it leaves on a failed
    header read. *)
Theorem receiver_publishes_only_input (ctxDone : nat -> bool)
  (clock : nat -> Z) (p : Peer) (input : list byte) (ending : StreamEnd) :
  exists r rest,
    receiver ctxDone clock p input ending = Some r
    /\ List.Forall frame_fits (rr_published r)
    /\ input = concat (map encode_frame (rr_published r)) ++ rest
    /\ errors (rr_peer r)
       = match rr_exit r with
         | RecvError => AddUint64 (errors p) 1
         | _ => errors p
         end.
Proof.
  destruct (receiver_total ctxDone clock p input ending) as [r Hr].
  destruct (receiver_loop_sound _ _ _ _ _ _ _ _ _ Hr)
    as (fs & rest & Hpub & Hfits & Hin & Herr & _).
  simpl in Hpub. subst fs.
  exists r, rest. repeat split; assumption.
Qed.

(** ** The handshake *)

Lemma length_list_byte_of_string (s : string) :
  length (list_byte_of_string s) = String.length s.
Proof. induction s as [| c s IH]; simpl; [reflexivity | f_equal; exact IH]. Qed.

Lemma handshake_keyed_on_key (key remote : string) (rest : list byte)
  (ending : StreamEnd) :
  Z.of_nat (String.length remote) < 2 ^ 32 ->
  handshake_keyed key WriteOk (key_message remote ++ rest) ending
  = if Z.of_nat (String.length remote) >? MaxKeyLen then
      mkHandshakeResult (key_message key) (list_byte_of_string remote ++ rest)
        (KeyTooLong (Z.of_nat (String.length remote)))
    else if String.eqb remote key then
      mkHandshakeResult (key_message key) rest HandshakeDone
    else mkHandshakeResult (key_message key) rest KeyMismatch.
Proof.
  intros Hlen. unfold handshake_keyed.
  assert (Hdec := be32_decode_be32 (Z.of_nat (String.length remote))).
  replace (key_message remote)
    with (be32 (Z.of_nat (String.length remote)) ++ list_byte_of_string remote)
    by (unfold key_message; rewrite Z.mod_small by lia; reflexivity).
  unfold be32 in Hdec |- *. cbn [app]. rewrite Hdec by lia.
  destruct (Z.of_nat (String.length remote) >? MaxKeyLen); [reflexivity |].
  rewrite <- (length_list_byte_of_string remote).
  destruct (Z.ltb_spec
              (Z.of_nat (length (list_byte_of_string remote ++ rest)))
              (Z.of_nat (length (list_byte_of_string remote))))
    as [Hlt | _]; [rewrite length_app in Hlt; lia |].
  rewrite firstn_length_app, skipn_length_app.
  rewrite string_of_list_byte_of_string. reflexivity.
Qed.

(** X11.  Key agreement.  A relay with a network key that reads the
    announcement of a remote key accepts the link exactly when the remote key
    is its own and is at most 256 bytes long, and then leaves the bytes behind
    the announcement for the receiver; so two relays that share a key longer
    than 256 bytes refuse each other. *)
Theorem handshake_keyed_accepts_iff (key remote : string) (rest : list byte)
  (ending : StreamEnd) :
  Z.of_nat (String.length remote) < 2 ^ 32 ->
  let r := handshake_keyed key WriteOk (key_message remote ++ rest) ending in
  hs_written r = key_message key
  /\ (hs_exit r = HandshakeDone
      <-> remote = key /\ Z.of_nat (String.length key) <= MaxKeyLen)
  /\ (hs_exit r = HandshakeDone -> hs_unread r = rest).
Proof.
  intros Hlen r. unfold r. rewrite handshake_keyed_on_key by exact Hlen.
  destruct (Z.gtb_spec (Z.of_nat (String.length remote)) MaxKeyLen)
    as [Hbig | Hsmall].
  - cbn [hs_written hs_exit hs_unread].
    split; [reflexivity |]. split; [| discriminate].
    split; [discriminate |]. intros [-> Hle]. lia.
  - destruct (String.eqb_spec remote key) as [-> | Hne];
      cbn [hs_written hs_exit hs_unread].
    + repeat split; lia.
    + split; [reflexivity |]. split; [| discriminate].
      split; [discriminate |]. intros [Heq _]. contradiction.
Qed.

Lemma handshake_keyed_accepts_iff_witness :
  let r := handshake_keyed "ipx" WriteOk (key_message "ipx" ++ [x01]) EndPending in
  hs_written r = key_message "ipx"
  /\ (hs_exit r = HandshakeDone
      <-> "ipx" = "ipx" /\ Z.of_nat (String.length "ipx") <= MaxKeyLen)
  /\ (hs_exit r = HandshakeDone -> hs_unread r = [x01]).
Proof.
  apply (handshake_keyed_accepts_iff "ipx" "ipx" [x01] EndPending).
  vm_compute. reflexivity.
Defined.

Lemma be32_0_empty_frame : be32 0 = encode_frame [].
Proof. reflexivity. Qed.

(** X12.  A relay without a key.  What reaches it within the read deadline
    is taken for a key announcement: a length of at most 256 and as many
    bytes are consumed and a zero length is written back.  A relay with a key
    that reads this reply refuses the link (key mismatch); a receiver that
    reads it publishes one empty frame.  In particular a frame of at most 256
    bytes that arrives within the deadline is lost to the handshake. *)
Theorem handshake_keyless_consumes_announcement (k rest later : list byte)
  (ending : StreamEnd) (key : string) (p : Peer) (clock : nat -> Z) :
  Z.of_nat (length k) <= MaxKeyLen ->
  key <> ""%string ->
  handshake "" WriteOk (encode_frame k ++ rest) later ending
  = mkHandshakeResult (be32 0) (rest ++ later) HandshakeDone
  /\ hs_exit (handshake key WriteOk (be32 0) [] EndPending) = KeyMismatch
  /\ (exists r,
        receiver (fun _ => false) clock p (be32 0) EndPending = Some r
        /\ rr_published r = [[]]).
Proof.
  intros Hk Hkey. unfold MaxKeyLen in Hk. split; [| split].
  - unfold handshake. cbn [String.eqb negb]. unfold handshake_keyless.
    assert (Hdec := be32_decode_be32 (Z.of_nat (length k))).
    unfold encode_frame. unfold be32 in Hdec |- *. cbn [app].
    rewrite Hdec by lia.
    destruct (Z.leb_spec (Z.of_nat (length k)) MaxKeyLen) as [_ | Hgt];
      [| unfold MaxKeyLen in Hgt; lia].
    destruct (Z.ltb_spec (Z.of_nat (length ((k ++ rest) ++ later)))
                (Z.of_nat (length k))) as [Hlt | _];
      [rewrite !length_app in Hlt; lia |].
    rewrite <- app_assoc, skipn_length_app. reflexivity.
  - unfold handshake.
    destruct (String.eqb_spec key "") as [-> | _]; [contradiction |].
    cbn [negb]. unfold handshake_keyed. cbn [be32 app].
    change (be32_decode (Z_to_byte (Z.shiftr 0 24)) (Z_to_byte (Z.shiftr 0 16))
              (Z_to_byte (Z.shiftr 0 8)) (Z_to_byte 0)) with 0.
    cbn [Z.gtb Z.compare MaxKeyLen length Z.of_nat Z.ltb firstn skipn Z.to_nat
         string_of_list_byte].
    destruct key as [| c key']; [contradiction | reflexivity].
  - eexists. split; [reflexivity | reflexivity].
Qed.

Lemma handshake_keyless_consumes_announcement_witness :
  handshake "" WriteOk (encode_frame p1 ++ encode_frame p2) [] EndPending
  = mkHandshakeResult (be32 0) (encode_frame p2 ++ []) HandshakeDone
  /\ hs_exit (handshake "ipx" WriteOk (be32 0) [] EndPending) = KeyMismatch
  /\ (exists r,
        receiver (fun _ => false) (fun _ => 3)
          (NewPeer "10.0.0.1:40001" connA "" 0) (be32 0) EndPending = Some r
        /\ rr_published r = [[]]).
Proof.
  apply (handshake_keyless_consumes_announcement p1 (encode_frame p2) []
           EndPending "ipx" (NewPeer "10.0.0.1:40001" connA "" 0)
           (fun _ => 3)).
  - vm_compute. discriminate.
  - discriminate.
Defined.

Lemma receiver_loop_counts (fuel : nat) :
  forall ctxDone clock n p published input ending r,
    receiver_loop fuel ctxDone clock n p published input ending = Some r ->
    0 <= recvPkts p -> recvPkts p + Z.of_nat (length input) < 2 ^ 64 ->
    0 <= recvBytes p -> recvBytes p + Z.of_nat (length input) < 2 ^ 64 ->
    exists fs,
      rr_published r = published ++ fs
      /\ recvPkts (rr_peer r)
         = recvPkts p + Z.of_nat (length fs)
           + match rr_exit r with RecvCancelled => 1 | _ => 0 end
      /\ recvBytes p + frames_bytes fs <= recvBytes (rr_peer r)
      /\ (rr_exit r <> RecvCancelled ->
          recvBytes (rr_peer r) = recvBytes p + frames_bytes fs).
Proof.
  induction fuel as [| fuel IH];
    intros ctxDone clock n p published input ending r Hr HP HPb HB HBb;
    [discriminate |].
  assert (Hstop : forall p' e unread,
            recvPkts p' = recvPkts p -> recvBytes p' = recvBytes p ->
            e <> RecvCancelled ->
            Some (mkRecvResult p' published unread e) = Some r ->
            exists fs,
              rr_published r = published ++ fs
              /\ recvPkts (rr_peer r)
                 = recvPkts p + Z.of_nat (length fs)
                   + match rr_exit r with RecvCancelled => 1 | _ => 0 end
              /\ recvBytes p + frames_bytes fs <= recvBytes (rr_peer r)
              /\ (rr_exit r <> RecvCancelled ->
                  recvBytes (rr_peer r) = recvBytes p + frames_bytes fs)).
  { intros p' e unread Hpk Hby He Heq. injection Heq as <-.
    exists []. cbn [rr_published rr_peer rr_exit length].
    rewrite app_nil_r, Hpk, Hby. unfold frames_bytes. simpl.
    destruct e; try contradiction; repeat split; lia. }
  cbn [receiver_loop] in Hr.
  destruct input as [| b0 [| b1 [| b2 [| b3 rest]]]];
    try (destruct ending; (eapply Hstop; [| | | exact Hr]);
         first [reflexivity | discriminate]).
  destruct (be32_decode b0 b1 b2 b3 >? MaxFrame) eqn:Hbig;
    [eapply Hstop; [| | | exact Hr]; first [reflexivity | discriminate] |].
  destruct (Z.ltb_spec (Z.of_nat (length rest)) (be32_decode b0 b1 b2 b3))
    as [Hshort | Hlong];
    [destruct ending; (eapply Hstop; [| | | exact Hr]);
     first [reflexivity | discriminate] |].
  pose proof (be32_decode_nonneg b0 b1 b2 b3) as Hnn.
  set (L := be32_decode b0 b1 b2 b3) in *.
  set (data := firstn (Z.to_nat L) rest) in *.
  assert (Hlen : Z.of_nat (length data) = L).
  { unfold data. rewrite length_firstn. lia. }
  simpl length in HPb, HBb.
  set (p1 := set_recv p (AddUint64 (recvBytes p) L) (AddUint64 (recvPkts p) 1)
               (clock n)) in *.
  assert (Hpk1 : recvPkts p1 = recvPkts p + 1)
    by (cbn [p1 recvPkts set_recv]; apply AddUint64_small; lia).
  assert (Hby1 : recvBytes p1 = recvBytes p + L)
    by (cbn [p1 recvBytes set_recv]; apply AddUint64_small; lia).
  destruct (ctxDone n).
  - injection Hr as <-. exists [].
    cbn [rr_published rr_peer rr_exit length].
    rewrite app_nil_r, Hpk1, Hby1. unfold frames_bytes. simpl.
    repeat split; try lia. intros H. contradiction.
  - apply IH in Hr as (fs & Hpub & Hpk & Hle & Hby);
      [| rewrite ?Hpk1, ?Hby1, ?length_skipn; lia ..].
    exists (data :: fs). rewrite Hpub, <- app_assoc.
    rewrite length_cons, frames_bytes_cons, Hlen.
    split; [reflexivity |]. split; [lia |]. split; [lia |].
    intros Hne. rewrite (Hby Hne). lia.
Qed.

(** X25.  What the receive counters mean.  On any input, as long as the
    counters do not wrap, [recvPkts] advances by the number of frames
    published, plus one when the receiver was cancelled: the frame it had
    just read is then counted but not passed on.  [recvBytes] advances by the
    payload bytes of the published frames, and by more only in that case. *)
Theorem receiver_counts_published (ctxDone : nat -> bool) (clock : nat -> Z)
  (p : Peer) (input : list byte) (ending : StreamEnd) :
  0 <= recvPkts p -> recvPkts p + Z.of_nat (length input) < 2 ^ 64 ->
  0 <= recvBytes p -> recvBytes p + Z.of_nat (length input) < 2 ^ 64 ->
  exists r,
    receiver ctxDone clock p input ending = Some r
    /\ recvPkts (rr_peer r)
       = recvPkts p + Z.of_nat (length (rr_published r))
         + match rr_exit r with RecvCancelled => 1 | _ => 0 end
    /\ recvBytes p + frames_bytes (rr_published r) <= recvBytes (rr_peer r)
    /\ (rr_exit r <> RecvCancelled ->
        recvBytes (rr_peer r) = recvBytes p + frames_bytes (rr_published r)).
Proof.
  intros HP HPb HB HBb.
  destruct (receiver_total ctxDone clock p input ending) as [r Hr].
  destruct (receiver_loop_counts _ _ _ _ _ _ _ _ _ Hr HP HPb HB HBb)
    as (fs & Hpub & Hpk & Hle & Hby).
  simpl in Hpub. subst fs. exists r. repeat split; assumption.
Qed.

Lemma receiver_counts_published_witness :
  exists r,
    receiver (fun n => Nat.eqb n 1) (fun _ => 0)
      (NewPeer "10.0.0.1:40001" connA "" 0)
      (encode_frame p1 ++ encode_frame p2 ++ encode_frame p3) EndPending
    = Some r
    /\ recvPkts (rr_peer r)
       = 0 + Z.of_nat (length (rr_published r))
         + match rr_exit r with RecvCancelled => 1 | _ => 0 end
    /\ 0 + frames_bytes (rr_published r) <= recvBytes (rr_peer r)
    /\ (rr_exit r <> RecvCancelled ->
        recvBytes (rr_peer r) = 0 + frames_bytes (rr_published r)).
Proof.
  apply (receiver_counts_published (fun n => Nat.eqb n 1) (fun _ => 0)
           (NewPeer "10.0.0.1:40001" connA "" 0)
           (encode_frame p1 ++ encode_frame p2 ++ encode_frame p3) EndPending).
  - vm_compute. discriminate.
  - vm_compute. reflexivity.
  - vm_compute. discriminate.
  - vm_compute. reflexivity.
Defined.

(** ** Admission *)

Lemma filter_length_perm {A : Type} (f : A -> bool) (l1 l2 : list A) :
  l1 ≡ₚ l2 -> length (List.filter f l1) = length (List.filter f l2).
Proof.
  induction 1 as [| x l l' _ IH | x y l | l l' l'' _ IH1 _ IH2]; simpl.
  - reflexivity.
  - destruct (f x); simpl; congruence.
  - destruct (f x), (f y); reflexivity.
  - congruence.
Qed.

Lemma localChildren_nonneg (s : Server) : 0 <= localChildren s.
Proof. unfold localChildren. lia. Qed.

(** Registering a peer built by [NewPeer] never raises the child count. *)
Lemma localChildren_insert_NewPeer (s : Server) (id : string) (conn : Conn)
  (key : string) (now : Z) :
  localChildren (with_peers s (<[id := NewPeer id conn key now]> (peers s)))
  <= localChildren s.
Proof.
  unfold localChildren. cbn [peers with_peers].
  set (f := fun kv : string * Peer =>
              String.eqb (stats.ParentID (GetStats (snd kv))) "Local").
  rewrite <- insert_delete_eq.
  rewrite (filter_length_perm f _ _
             (map_to_list_insert (delete id (peers s)) id
                (NewPeer id conn key now) (lookup_delete_eq _ _))).
  change (List.filter f ((id, NewPeer id conn key now)
                         :: map_to_list (delete id (peers s))))
    with (List.filter f (map_to_list (delete id (peers s)))).
  destruct (peers s !! id) as [old |] eqn:Hold.
  - rewrite <- (filter_length_perm f _ _ (map_to_list_delete _ _ _ Hold)).
    simpl List.filter. destruct (f (id, old)); simpl length; lia.
  - rewrite delete_id by exact Hold. lia.
Qed.

Lemma handleNewConn_not_banned (s : Server) (conn : Conn) (now : Z) :
  is_banned (cfg s) conn = false ->
  handleNewConn s conn now
  = if localChildren s >=? MaxChildren (cfg s)
    then (s, Rejected MaxChildrenReached)
    else (with_peers s
            (<[RemoteAddr_String conn :=
                 NewPeer (RemoteAddr_String conn) conn (NetworkKey (cfg s)) now]>
               (peers s)),
          Accepted).
Proof.
  unfold is_banned, conn_host, handleNewConn.
  intros Hb. apply orb_false_iff in Hb as [Hid Hhost].
  rewrite Hid, Hhost. reflexivity.
Qed.

Lemma handleNewConn_cfg (s : Server) (conn : Conn) (now : Z) :
  cfg (fst (handleNewConn s conn now)) = cfg s.
Proof.
  unfold handleNewConn.
  destruct (existsb _ (BannedIDs (cfg s))); [reflexivity |].
  destruct (existsb _ (BannedHosts (cfg s))); [reflexivity |].
  destruct (localChildren s >=? MaxChildren (cfg s)); reflexivity.
Qed.

Lemma handleNewConn_keeps (s : Server) (conn : Conn) (now : Z) (id : string) :
  is_Some (peers s !! id) ->
  is_Some (peers (fst (handleNewConn s conn now)) !! id).
Proof.
  intros Hsome. unfold handleNewConn.
  destruct (existsb _ (BannedIDs (cfg s))); [exact Hsome |].
  destruct (existsb _ (BannedHosts (cfg s))); [exact Hsome |].
  destruct (localChildren s >=? MaxChildren (cfg s)); [exact Hsome |].
  cbn [fst peers with_peers].
  destruct (decide (RemoteAddr_String conn = id)) as [<- | Hne].
  - rewrite lookup_insert_eq. eauto.
  - rewrite lookup_insert_ne by exact Hne. exact Hsome.
Qed.

Lemma handleNewConns_cons (s : Server) (c : Conn) (conns : list Conn) (now : Z) :
  handleNewConns s (c :: conns) now
  = (fst (handleNewConns (fst (handleNewConn s c now)) conns now),
     snd (handleNewConn s c now)
     :: snd (handleNewConns (fst (handleNewConn s c now)) conns now)).
Proof.
  cbn [handleNewConns]. destruct (handleNewConn s c now) as [s1 a].
  cbn [fst snd]. destruct (handleNewConns s1 conns now). reflexivity.
Qed.

Lemma handleNewConns_keeps (conns : list Conn) (s : Server) (now : Z)
  (id : string) :
  is_Some (peers s !! id) ->
  is_Some (peers (fst (handleNewConns s conns now)) !! id).
Proof.
  revert s. induction conns as [| c conns IH]; intros s Hsome; [exact Hsome |].
  rewrite handleNewConns_cons. cbn [fst].
  apply IH, handleNewConn_keeps, Hsome.
Qed.

(** X13.  The child limit is never reached by admissions.  On a server with
    a positive [MaxChildren] none of whose peers has the parent ["Local"],
    every connection that is on neither deny list is accepted, however many
    are already registered: a peer registered by [handleNewConn] has an empty
    parent, so the count compared with [MaxChildren] stays at zero. *)
Theorem handleNewConns_accepts_all (conns : list Conn) (s : Server) (now : Z) :
  localChildren s = 0 ->
  0 < MaxChildren (cfg s) ->
  List.Forall (fun c => is_banned (cfg s) c = false) conns ->
  snd (handleNewConns s conns now) = map (fun _ => Accepted) conns
  /\ localChildren (fst (handleNewConns s conns now)) = 0
  /\ (forall c, In c conns ->
        is_Some (peers (fst (handleNewConns s conns now))
                   !! RemoteAddr_String c)).
Proof.
  revert s. induction conns as [| c conns IH]; intros s Hzero Hmax Hok.
  - simpl. repeat split; [exact Hzero | intros c []].
  - inversion Hok as [| ? ? Hc Hrest]; subst.
    rewrite handleNewConns_cons. cbn [fst snd].
    pose proof (handleNewConn_not_banned s c now Hc) as Hstep.
    destruct (Z.geb_spec (localChildren s) (MaxChildren (cfg s)));
      [lia |].
    pose proof (localChildren_insert_NewPeer s (RemoteAddr_String c) c
                  (NetworkKey (cfg s)) now) as Hle.
    rewrite Hstep. cbn [fst snd].
    set (s1 := with_peers s _) in *.
    pose proof (localChildren_nonneg s1) as Hnn.
    assert (Hz1 : localChildren s1 = 0) by lia.
    destruct (IH s1 Hz1 Hmax Hrest) as (Hadm & Hz & Hreg).
    rewrite Hadm. split; [reflexivity |]. split; [exact Hz |].
    intros c' [<- | Hin]; [| apply Hreg; exact Hin].
    apply handleNewConns_keeps. unfold s1. cbn [peers with_peers].
    rewrite lookup_insert_eq. eauto.
Qed.

Lemma handleNewConns_accepts_all_witness :
  snd (handleNewConns server_max2 [connA; connB; connC; connA] 0)
  = map (fun _ => Accepted) [connA; connB; connC; connA]
  /\ localChildren (fst (handleNewConns server_max2
                           [connA; connB; connC; connA] 0)) = 0
  /\ (forall c, In c [connA; connB; connC; connA] ->
        is_Some (peers (fst (handleNewConns server_max2
                               [connA; connB; connC; connA] 0))
                   !! RemoteAddr_String c)).
Proof.
  apply (handleNewConns_accepts_all [connA; connB; connC; connA]
           server_max2 0).
  - vm_compute. reflexivity.
  - vm_compute. reflexivity.
  - repeat constructor.
Defined.

(** X14.  With [MaxChildren] at zero or below no connection is ever
    accepted, whatever the state of the server; the server is left as it
    was. *)
Theorem handleNewConn_nonpositive_limit (s : Server) (conn : Conn) (now : Z) :
  MaxChildren (cfg s) <= 0 ->
  exists why, handleNewConn s conn now = (s, Rejected why).
Proof.
  intros Hmax. pose proof (localChildren_nonneg s) as Hnn.
  unfold handleNewConn.
  destruct (existsb _ (BannedIDs (cfg s))); [eauto |].
  destruct (existsb _ (BannedHosts (cfg s))); [eauto |].
  destruct (Z.geb_spec (localChildren s) (MaxChildren (cfg s)));
    [eauto | lia].
Qed.

Lemma handleNewConn_nonpositive_limit_witness :
  exists why,
    handleNewConn (with_cfg server0 (set_MaxChildren DefaultConfig 0)) connA 0
    = (with_cfg server0 (set_MaxChildren DefaultConfig 0), Rejected why).
Proof.
  apply (handleNewConn_nonpositive_limit
           (with_cfg server0 (set_MaxChildren DefaultConfig 0)) connA 0).
  vm_compute. discriminate.
Defined.

(** X15.  Two links under one id.  When a connection is accepted under an
    id that the map already holds, whatever record is filed there (the remote
    address text of a running link is the same), the new record takes the
    place of the old one: the map does not grow, the other entries are
    untouched, and the queue and the counters of the old record are gone from
    the map, the new record being a fresh [NewPeer].  The [onDisconnect] of
    whichever link ends first then removes the entry, although the other link
    is still running. *)
Theorem handleNewConn_same_id_replaces (s s2 : Server) (conn : Conn)
  (now : Z) (old : Peer) :
  peers s !! RemoteAddr_String conn = Some old ->
  handleNewConn s conn now = (s2, Accepted) ->
  let id := RemoteAddr_String conn in
  peers s2 !! id = Some (NewPeer id conn (NetworkKey (cfg s)) now)
  /\ size (peers s2) = size (peers s)
  /\ (forall id', id' <> id -> peers s2 !! id' = peers s !! id')
  /\ peers (onDisconnect s2 id) !! id = None
  /\ (forall id', id' <> id ->
        peers (onDisconnect s2 id) !! id' = peers s !! id').
Proof.
  intros Hold Hadm id.
  unfold handleNewConn in Hadm.
  destruct (existsb _ (BannedIDs (cfg s))); [discriminate |].
  destruct (existsb _ (BannedHosts (cfg s))); [discriminate |].
  destruct (localChildren s >=? MaxChildren (cfg s)); [discriminate |].
  injection Hadm as <-. cbn [peers with_peers onDisconnect]. fold id.
  split; [apply lookup_insert_eq |].
  split.
  { apply map_size_insert_Some. unfold id. rewrite Hold. eauto. }
  split.
  { intros id' Hne. apply lookup_insert_ne.
    intros Heq. apply Hne. symmetry. exact Heq. }
  split; [apply lookup_delete_eq |].
  intros id' Hne.
  assert (Hne' : id <> id') by (intros Heq; apply Hne; symmetry; exact Heq).
  rewrite lookup_delete_ne by exact Hne'.
  apply lookup_insert_ne. exact Hne'.
Qed.

Lemma handleNewConn_same_id_replaces_witness :
  let s := server_full_queue in
  let s2 := fst (handleNewConn s connA 7) in
  let id := RemoteAddr_String connA in
  (length <$> (SendChan <$> peers s !! id) = Some 1000%nat
   /\ SendChan <$> peers s2 !! id = Some [])
  /\ peers s2 !! id = Some (NewPeer id connA (NetworkKey (cfg s)) 7)
  /\ size (peers s2) = size (peers s)
  /\ (forall id', id' <> id -> peers s2 !! id' = peers s !! id')
  /\ peers (onDisconnect s2 id) !! id = None
  /\ (forall id', id' <> id ->
        peers (onDisconnect s2 id) !! id' = peers s !! id').
Proof.
  cbv zeta. split.
  - split; vm_compute; reflexivity.
  - apply (handleNewConn_same_id_replaces server_full_queue
             (fst (handleNewConn server_full_queue connA 7)) connA 7
             (set_SendChan (NewPeer "10.0.0.1:40001" connA "" 0)
                (repeat [x00] 1000))).
    + vm_compute. reflexivity.
    + vm_compute. reflexivity.
Defined.

(** ** The deny lists *)

Lemma existsb_eqb_In (x : string) (l : list string) :
  existsb (fun b => String.eqb b x) l = true <-> In x l.
Proof.
  rewrite existsb_exists. split.
  - intros (b & Hb & Heq). apply String.eqb_eq in Heq. subst b. exact Hb.
  - intros Hin. exists x. split; [exact Hin | apply String.eqb_refl].
Qed.

Lemma BanPeer_ids (s : Server) (id ip b : string) :
  In b (BannedIDs (cfg (BanPeer s id ip)))
  <-> In b (BannedIDs (cfg s)) \/ (b = id /\ id <> ""%string).
Proof.
  unfold BanPeer. cbn [cfg with_cfg BannedIDs set_Banned].
  destruct (String.eqb_spec id "") as [-> | Hne]; cbn [negb andb].
  - split; [auto | intros [H | [_ H]]; [exact H | contradiction]].
  - destruct (existsb _ (BannedIDs (cfg s))) eqn:Hex; cbn [negb].
    + apply existsb_eqb_In in Hex.
      split; [auto | intros [H | [-> _]]; assumption].
    + rewrite in_app_iff. simpl. split.
      * intros [H | [<- | []]]; auto.
      * intros [H | [-> _]]; auto.
Qed.

Lemma BanPeer_hosts (s : Server) (id ip b : string) :
  In b (BannedHosts (cfg (BanPeer s id ip)))
  <-> In b (BannedHosts (cfg s)) \/ (b = ip /\ ip <> ""%string).
Proof.
  unfold BanPeer. cbn [cfg with_cfg BannedHosts set_Banned].
  destruct (String.eqb_spec ip "") as [-> | Hne]; cbn [negb andb].
  - split; [auto | intros [H | [_ H]]; [exact H | contradiction]].
  - destruct (existsb _ (BannedHosts (cfg s))) eqn:Hex; cbn [negb].
    + apply existsb_eqb_In in Hex.
      split; [auto | intros [H | [-> _]]; assumption].
    + rewrite in_app_iff. simpl. split.
      * intros [H | [<- | []]]; auto.
      * intros [H | [-> _]]; auto.
Qed.

Lemma BanPeers_keeps (bans : list (string * string)) (s : Server) (b : string) :
  (In b (BannedIDs (cfg s)) -> In b (BannedIDs (cfg (BanPeers s bans))))
  /\ (In b (BannedHosts (cfg s)) -> In b (BannedHosts (cfg (BanPeers s bans)))).
Proof.
  revert s. induction bans as [| [i h] bans IH]; intros s; [split; auto |].
  unfold BanPeers. cbn [fold_left fst snd].
  destruct (IH (BanPeer s i h)) as [IHi IHh]. split; intros Hin.
  - apply IHi. apply BanPeer_ids. left. exact Hin.
  - apply IHh. apply BanPeer_hosts. left. exact Hin.
Qed.

Lemma BanPeers_peers (bans : list (string * string)) (s : Server) :
  peers (BanPeers s bans) = peers s.
Proof.
  revert s. induction bans as [| [i h] bans IH]; intros s; [reflexivity |].
  unfold BanPeers. cbn [fold_left fst snd].
  change (fold_left _ bans (BanPeer s i h)) with (BanPeers (BanPeer s i h) bans).
  rewrite IH. reflexivity.
Qed.

(** X16.  A ban holds.  After [BanPeer s id ip], and after any further
    bans, a connection whose remote address text is the banned id (when that
    is not empty) or whose host part is the banned host (when that is not
    empty) is refused and changes nothing.  The banned peer's own entry is
    not removed from the map by the ban: that is left to the end of its
    link. *)
Theorem BanPeer_holds (s : Server) (id ip : string)
  (more : list (string * string)) (conn : Conn) (now : Z) :
  (id <> ""%string /\ RemoteAddr_String conn = id)
  \/ (ip <> ""%string /\ conn_host conn = ip) ->
  let s' := BanPeers (BanPeer s id ip) more in
  (exists why, handleNewConn s' conn now = (s', Rejected why))
  /\ peers s' = peers s.
Proof.
  intros Hwho s'. split.
  - unfold handleNewConn. fold (conn_host conn).
    destruct Hwho as [[Hid Haddr] | [Hip Hhost]].
    + assert (Hin : In (RemoteAddr_String conn) (BannedIDs (cfg s'))).
      { apply BanPeers_keeps, BanPeer_ids. right. split; congruence. }
      apply existsb_eqb_In in Hin. rewrite Hin. eauto.
    + destruct (existsb _ (BannedIDs (cfg s'))); [eauto |].
      assert (Hin : In (conn_host conn) (BannedHosts (cfg s'))).
      { apply BanPeers_keeps, BanPeer_hosts. right. split; congruence. }
      apply existsb_eqb_In in Hin. rewrite Hin. eauto.
  - unfold s'. rewrite BanPeers_peers. reflexivity.
Qed.

Lemma BanPeer_holds_witness :
  let s' := BanPeers (BanPeer server_two_peers "" "10.0.0.1")
              [("10.0.0.2:40002", "")] in
  (exists why, handleNewConn s' connA 5 = (s', Rejected why))
  /\ peers s' = peers server_two_peers.
Proof.
  apply (BanPeer_holds server_two_peers "" "10.0.0.1"
           [("10.0.0.2:40002", "")] connA 5).
  right. split; [discriminate | vm_compute; reflexivity].
Defined.

(** ** AddPeer *)

Lemma ListNoDup_snoc {A : Type} (l : list A) (x : A) :
  List.NoDup l -> ~ In x l -> List.NoDup (l ++ [x]).
Proof.
  induction l as [| a l IH]; intros Hnd Hnot.
  - constructor; [simpl; tauto | constructor].
  - inversion Hnd as [| ? ? Ha Hl]; subst. cbn [app]. constructor.
    + rewrite in_app_iff. simpl. intros [H | [-> | []]];
        [exact (Ha H) | apply Hnot; left; reflexivity].
    + apply IH; [exact Hl |]. intros H. apply Hnot. right. exact H.
Qed.

(** X17.  [AddPeer] is idempotent and keeps the peer list free of
    repetitions: a second call with the same text changes nothing, and a list
    without repetitions stays so.  A dialer is started for the address exactly
    when it was new and the server is not in demo mode. *)
Theorem AddPeer_idempotent (s : Server) (addr : string) :
  List.NoDup (Peers (cfg s)) ->
  AddPeer (AddPeer s addr) addr = AddPeer s addr
  /\ List.NoDup (Peers (cfg (AddPeer s addr)))
  /\ In (AddPeer_normalize addr) (Peers (cfg (AddPeer s addr)))
  /\ dialing (AddPeer s addr)
     = (if existsb (fun p => String.eqb p (AddPeer_normalize addr))
             (Peers (cfg s)) || demoMode s
        then dialing s else dialing s ++ [AddPeer_normalize addr]).
Proof.
  intros Hnd.
  assert (Hin : In (AddPeer_normalize addr) (Peers (cfg (AddPeer s addr)))).
  { unfold AddPeer.
    destruct (existsb _ (Peers (cfg s))) eqn:Hex.
    - apply existsb_eqb_In. exact Hex.
    - destruct (negb (demoMode _));
        cbn [cfg with_cfg with_dialing Peers set_Peers];
        apply in_or_app; right; left; reflexivity. }
  split; [apply AddPeer_known_address; exact Hin |].
  split; [| split; [exact Hin |]].
  - unfold AddPeer.
    destruct (existsb _ (Peers (cfg s))) eqn:Hex; [exact Hnd |].
    assert (Hnot : ~ In (AddPeer_normalize addr) (Peers (cfg s))).
    { intros H. apply existsb_eqb_In in H. congruence. }
    assert (Hnd' : List.NoDup (Peers (cfg s) ++ [AddPeer_normalize addr])).
    { apply ListNoDup_snoc; assumption. }
    destruct (negb (demoMode _));
      cbn [cfg with_cfg with_dialing Peers set_Peers]; exact Hnd'.
  - unfold AddPeer.
    destruct (existsb _ (Peers (cfg s))); [reflexivity |].
    cbn [orb demoMode with_cfg]. destruct (demoMode s); reflexivity.
Qed.

Lemma AddPeer_idempotent_witness :
  AddPeer (AddPeer server0 "10.0.0.9") "10.0.0.9" = AddPeer server0 "10.0.0.9"
  /\ List.NoDup (Peers (cfg (AddPeer server0 "10.0.0.9")))
  /\ In (AddPeer_normalize "10.0.0.9") (Peers (cfg (AddPeer server0 "10.0.0.9")))
  /\ dialing (AddPeer server0 "10.0.0.9")
     = (if existsb (fun p => String.eqb p (AddPeer_normalize "10.0.0.9"))
             (Peers (cfg server0)) || demoMode server0
        then dialing server0
        else dialing server0 ++ [AddPeer_normalize "10.0.0.9"]).
Proof.
  apply (AddPeer_idempotent server0 "10.0.0.9"). constructor.
Defined.

(** ** Construction *)

(** X18.  [NewServer] fails exactly when the configured dedup size is not
    positive.  When it succeeds the server starts with an empty registry and
    zero counters, and whatever the relay loop then processes, its dedup
    store never holds more than the configured number of fingerprints. *)
Theorem NewServer_dedup_size (c : Config) (path : string) (now : Z) :
  (DedupCacheSize c <= 0 <->
   NewServer c path now = Error "must provide a positive size")
  /\ (forall s, NewServer c path now = Ok s ->
        0 < DedupCacheSize c
        /\ peers s = ∅
        /\ (totalReceived s, totalForwarded s, totalDropped s, totalErrors s)
           = (0, 0, 0, 0)
        /\ forall evs,
             lru.Len (cache (dedup (relay_run s evs))) <= DedupCacheSize c).
Proof.
  unfold NewServer.
  destruct (Z.leb_spec (DedupCacheSize c) 0) as [Hle | Hgt].
  - rewrite (NewDedupCache_nonpositive _ (DedupCacheTTL c) Hle).
    split; [tauto | discriminate].
  - rewrite (NewDedupCache_positive _ (DedupCacheTTL c) Hgt).
    split; [split; [lia | discriminate] |].
    intros s Hs. injection Hs as <-. cbn [peers totalReceived totalForwarded
      totalDropped totalErrors].
    repeat split; [exact Hgt |].
    intros evs. rewrite relay_run_dedup. cbn [dedup].
    set (d0 := mkDedupCache (lru.mkCache (DedupCacheSize c) []) _).
    assert (Hwf0 : lru_wf (cache d0)).
    { repeat split; cbn [d0 cache lru.size];
        [exact Hgt | unfold lru.Len; simpl; lia | constructor]. }
    pose proof (IsDuplicate_seq_wf (map frame_of evs) d0 Hwf0)
      as (_ & Hlen & _).
    assert (Hsz : forall fs d, lru.size (cache (snd (IsDuplicate_seq d fs)))
                               = lru.size (cache d)).
    { induction fs as [| f fs IH]; intros d; [reflexivity |].
      rewrite IsDuplicate_seq_cons. cbn [snd]. rewrite IH.
      apply IsDuplicate_keeps_size. }
    rewrite Hsz in Hlen. exact Hlen.
Qed.

(** ** The end of a link *)

Lemma with_peers_same (s : Server) : with_peers s (peers s) = s.
Proof. destruct s; reflexivity. Qed.

(** X19.  A closed link lingers.  When the remote side closes the
    connection of a peer whose queue is empty, the receiver leaves on end of
    file and counts no error, but the sender goes on waiting on the queue:
    [Run] does not return, and the peer stays in the map as it was.  It is
    removed, and the transport closed, once a later broadcast has put a frame
    on its queue and the write of that frame has failed. *)
Theorem closed_link_lingers (s : Server) (id : string) (p : Peer)
  (clock : nat -> Z) (wire data : list byte) :
  peers s !! id = Some p ->
  SendChan p = [] ->
  lru.Contains (cache (dedup s)) (fingerprint data) = false ->
  let lk1 := mkLink false true true in
  link_receive s id link_started (fun _ => false) clock [] EndEOF
  = Some (s, lk1, mkRecvResult p [] [] RecvEOF)
  /\ link_send s id lk1 false WriteOk wire = Some (s, lk1, wire)
  /\ Run_finish s id lk1 = (s, lk1)
  /\ (let s2 := relay_step s (CaptureFrame data) in
      exists s3,
        link_send s2 id lk1 false HeaderWriteFails wire
        = Some (s3, mkLink false false true, wire)
        /\ Run_finish s3 id (mkLink false false true)
           = (onDisconnect s3 id, mkLink false false false)
        /\ peers (onDisconnect s3 id) !! id = None).
Proof.
  intros Hp Hq Hnew lk1. split; [| split; [| split]].
  - unfold link_receive. rewrite Hp. cbn.
    rewrite (insert_id _ _ _ Hp), with_peers_same. reflexivity.
  - unfold link_send. rewrite Hp. unfold sender_step. rewrite Hq. cbn.
    rewrite (insert_id _ _ _ Hp), with_peers_same. reflexivity.
  - reflexivity.
  - cbv zeta. eexists.
    unfold link_send.
    rewrite (relay_step_peers s (CaptureFrame data) id p Hp).
    cbn [is_capture frame_of]. rewrite IsDuplicate_verdict, Hnew.
    cbn [negb andb]. rewrite trySend_room by (rewrite Hq; vm_compute; reflexivity).
    unfold sender_step. cbn [SendChan set_SendChan]. rewrite Hq. cbn [app].
    split; [reflexivity |]. split; [reflexivity |].
    cbn [peers onDisconnect with_peers]. apply lookup_delete_eq.
Qed.

Lemma closed_link_lingers_witness :
  let s := server_two_peers in
  let id := "10.0.0.1:40001"%string in
  let lk1 := mkLink false true true in
  link_receive s id link_started (fun _ => false) (fun _ => 0) [] EndEOF
  = Some (s, lk1, mkRecvResult (NewPeer id connA "" 0) [] [] RecvEOF)
  /\ link_send s id lk1 false WriteOk [] = Some (s, lk1, [])
  /\ Run_finish s id lk1 = (s, lk1)
  /\ (let s2 := relay_step s (CaptureFrame p1) in
      exists s3,
        link_send s2 id lk1 false HeaderWriteFails []
        = Some (s3, mkLink false false true, [])
        /\ Run_finish s3 id (mkLink false false true)
           = (onDisconnect s3 id, mkLink false false false)
        /\ peers (onDisconnect s3 id) !! id = None).
Proof.
  apply (closed_link_lingers server_two_peers "10.0.0.1:40001"
           (NewPeer "10.0.0.1:40001" connA "" 0) (fun _ => 0) [] p1).
  - vm_compute. reflexivity.
  - reflexivity.
  - vm_compute. reflexivity.
Defined.

(** ** The accept loop *)

Lemma listenPeers_serial_cons (s : Server) (c : Conn) (conns : list Conn)
  (now : Z) :
  fst (listenPeers_serial s (c :: conns) now)
  = fst (listenPeers_serial
           (match snd (handleNewConn s c now) with
            | Accepted => onDisconnect (fst (handleNewConn s c now))
                            (RemoteAddr_String c)
            | Rejected _ => fst (handleNewConn s c now)
            end) conns now).
Proof.
  cbn [listenPeers_serial]. destruct (handleNewConn s c now) as [s1 a].
  cbn [fst snd]. destruct (listenPeers_serial _ conns now). reflexivity.
Qed.

(** X20.  The accept loop serves one inbound link at a time.
    [listenPeers] runs [handleNewConn], and with it the whole link, before it
    accepts again; so when it comes back for the next connection the peer it
    served is registered no more: inbound connections never add up in the
    map, they can only displace an entry filed under the same id. *)
Theorem listenPeers_serial_leaves_none (conns : list Conn) (s : Server)
  (now : Z) :
  peers (fst (listenPeers_serial s conns now)) ⊆ peers s
  /\ cfg (fst (listenPeers_serial s conns now)) = cfg s
  /\ (peers s = ∅ -> peers (fst (listenPeers_serial s conns now)) = ∅).
Proof.
  assert (Hmain : forall conns s,
            peers (fst (listenPeers_serial s conns now)) ⊆ peers s
            /\ cfg (fst (listenPeers_serial s conns now)) = cfg s).
  { clear. induction conns as [| c conns IH]; intros s.
    - split; reflexivity.
    - rewrite listenPeers_serial_cons.
      set (s' := match snd (handleNewConn s c now) with
                 | Accepted => _
                 | Rejected _ => _
                 end).
      assert (Hstep : peers s' ⊆ peers s /\ cfg s' = cfg s).
      { unfold s', handleNewConn.
        destruct (existsb _ (BannedIDs (cfg s))); [split; reflexivity |].
        destruct (existsb _ (BannedHosts (cfg s))); [split; reflexivity |].
        destruct (localChildren s >=? MaxChildren (cfg s));
          [split; reflexivity |].
        cbn [fst snd peers cfg onDisconnect with_peers].
        split; [| reflexivity].
        rewrite delete_insert_eq. apply delete_subseteq. }
      destruct Hstep as [Hsub Hcfg]. destruct (IH s') as [IHsub IHcfg].
      split; [etransitivity; eassumption | congruence]. }
  destruct (Hmain conns s) as [Hsub Hcfg].
  split; [exact Hsub |]. split; [exact Hcfg |].
  intros Hempty. rewrite Hempty in Hsub.
  apply map_eq. intros i. rewrite lookup_empty.
  destruct (peers (fst (listenPeers_serial s conns now)) !! i) as [p |] eqn:Hi;
    [| reflexivity].
  pose proof (lookup_weaken _ _ _ _ Hi Hsub) as Habs.
  rewrite lookup_empty in Habs. discriminate.
Qed.

(** ** FormatDuration *)

Lemma Duration_Round_Second (d : Z) :
  0 <= d < 2 ^ 62 ->
  Duration_Round d Second = (d + 500000000) / Second * Second.
Proof.
  intros Hd. unfold Duration_Round, lessThanHalf, Second.
  assert (H62 : 2 ^ 62 = 4611686018427387904) by reflexivity.
  assert (H64 : 2 ^ 64 = 18446744073709551616) by reflexivity.
  cbn [Z.leb Z.compare].
  destruct (Z.ltb_spec d 0); [lia |].
  rewrite Z.rem_mod_nonneg by lia.
  pose proof (Z.mod_pos_bound d 1000000000 ltac:(lia)) as Hr.
  pose proof (Z.div_mod d 1000000000 ltac:(lia)) as Hdm.
  set (r := d mod 1000000000) in *. set (q := d / 1000000000) in *.
  rewrite (wrap64_small r), (wrap64_small 1000000000) by lia.
  rewrite (wrap64_small (r + r)) by lia.
  destruct (Z.ltb_spec (r + r) 1000000000) as [Hlow | Hhigh].
  - rewrite wrapInt_small by (change (2 ^ 63) with 9223372036854775808; lia).
    replace ((d + 500000000) / 1000000000) with q; [lia |].
    apply (Z.div_unique _ _ q (r + 500000000)); lia.
  - rewrite wrapInt_small by (change (2 ^ 63) with 9223372036854775808; lia).
    destruct (Z.gtb_spec (d + 1000000000 - r) d) as [_ | Hle]; [| lia].
    replace ((d + 500000000) / 1000000000) with (q + 1); [lia |].
    apply (Z.div_unique _ _ (q + 1) (r - 500000000)); lia.
Qed.

(** X21.  [FormatDuration] on a duration that is not negative.  With [T]
    the duration rounded to the nearest second (halves up), the text shows
    [T] split into days, hours, minutes and seconds, hours below 24 when days
    are shown, minutes and seconds below 60, and it starts at the largest
    unit that is not zero: seconds alone below a minute, minutes and seconds
    below an hour, hours to seconds below a day, days to seconds from there
    on. *)
Theorem FormatDuration_parts (d : Z) :
  0 <= d < 2 ^ 62 ->
  let T := (d + 500000000) / Second in
  FormatDuration d
  = if T <? 60 then (itoa T ++ "s")%string
    else if T <? 3600 then
      (itoa (T / 60) ++ "m " ++ itoa (T mod 60) ++ "s")%string
    else if T <? 86400 then
      (itoa (T / 3600) ++ "h " ++ itoa (T / 60 mod 60) ++ "m "
       ++ itoa (T mod 60) ++ "s")%string
    else
      (itoa (T / 86400) ++ "d " ++ itoa (T / 3600 mod 24) ++ "h "
       ++ itoa (T / 60 mod 60) ++ "m " ++ itoa (T mod 60) ++ "s")%string.
Proof.
  intros Hd T. unfold FormatDuration.
  rewrite (Duration_Round_Second d Hd). fold T.
  assert (HT : 0 <= T < 2 ^ 62).
  { unfold T, Second. change (2 ^ 62) with 4611686018427387904 in *.
    split; [apply Z.div_pos; lia |].
    apply Z.div_lt_upper_bound; lia. }
  change (2 ^ 62) with 4611686018427387904 in HT.
  assert (H63 : 2 ^ 63 = 9223372036854775808) by reflexivity.
  unfold Hour, Minute, Second in *.
  change (60 * (60 * 1000000000)) with 3600000000000.
  change (60 * 1000000000) with 60000000000.
  assert (Hh : Z.quot (T * 1000000000) 3600000000000 = T / 3600).
  { rewrite Z.quot_div_nonneg by lia.
    change 3600000000000 with (3600 * 1000000000).
    apply Z.div_mul_cancel_r; lia. }
  rewrite Hh.
  assert (Hd1 : wrapInt (T * 1000000000 - wrapInt (T / 3600 * 3600000000000))
                = T mod 3600 * 1000000000).
  { assert (T < 2 ^ 33) as Hsmall.
    { unfold T. apply Z.div_lt_upper_bound; [lia |].
      change (2 ^ 33) with 8589934592. change (2 ^ 62) with 4611686018427387904 in Hd.
      lia. }
    change (2 ^ 33) with 8589934592 in Hsmall.
    rewrite (wrapInt_small (T / 3600 * 3600000000000)) by
      (rewrite H63; Z.to_euclidean_division_equations; lia).
    rewrite wrapInt_small by
      (rewrite H63; Z.to_euclidean_division_equations; lia).
    Z.to_euclidean_division_equations; lia. }
  rewrite Hd1.
  assert (Hm : Z.quot (T mod 3600 * 1000000000) 60000000000 = T / 60 mod 60).
  { rewrite Z.quot_div_nonneg by (Z.to_euclidean_division_equations; lia).
    change 60000000000 with (60 * 1000000000).
    rewrite Z.div_mul_cancel_r by lia.
    Z.to_euclidean_division_equations; lia. }
  rewrite Hm.
  assert (Hd2 : wrapInt (T mod 3600 * 1000000000
                         - wrapInt (T / 60 mod 60 * 60000000000))
                = T mod 60 * 1000000000).
  { rewrite (wrapInt_small (T / 60 mod 60 * 60000000000)) by
      (rewrite H63; Z.to_euclidean_division_equations; lia).
    rewrite wrapInt_small by
      (rewrite H63; Z.to_euclidean_division_equations; lia).
    Z.to_euclidean_division_equations; lia. }
  rewrite Hd2.
  assert (Hs : Z.quot (T mod 60 * 1000000000) 1000000000 = T mod 60).
  { rewrite Z.quot_div_nonneg by (Z.to_euclidean_division_equations; lia).
    apply Z.div_mul. lia. }
  rewrite Hs.
  assert (Hdays : Z.quot (T / 3600) 24 = T / 86400).
  { rewrite Z.quot_div_nonneg by (Z.to_euclidean_division_equations; lia).
    Z.to_euclidean_division_equations; lia. }
  assert (Hhr : Z.rem (T / 3600) 24 = T / 3600 mod 24).
  { apply Z.rem_mod_nonneg; Z.to_euclidean_division_equations; lia. }
  rewrite Hdays, Hhr.
  destruct (Z.ltb_spec T 60) as [H60 | H60].
  - destruct (Z.geb_spec (T / 3600) 24);
      [Z.to_euclidean_division_equations; lia |].
    destruct (Z.gtb_spec (T / 3600) 0);
      [Z.to_euclidean_division_equations; lia |].
    destruct (Z.gtb_spec (T / 60 mod 60) 0);
      [Z.to_euclidean_division_equations; lia |].
    rewrite Z.mod_small by lia. reflexivity.
  - destruct (Z.ltb_spec T 3600) as [H3600 | H3600].
    + destruct (Z.geb_spec (T / 3600) 24);
        [Z.to_euclidean_division_equations; lia |].
      destruct (Z.gtb_spec (T / 3600) 0);
        [Z.to_euclidean_division_equations; lia |].
      destruct (Z.gtb_spec (T / 60 mod 60) 0);
        [| Z.to_euclidean_division_equations; lia].
      rewrite (Z.mod_small (T / 60)) by (Z.to_euclidean_division_equations; lia).
      reflexivity.
    + destruct (Z.ltb_spec T 86400) as [Hday | Hday].
      * destruct (Z.geb_spec (T / 3600) 24);
          [Z.to_euclidean_division_equations; lia |].
        destruct (Z.gtb_spec (T / 3600) 0);
          [| Z.to_euclidean_division_equations; lia].
        reflexivity.
      * destruct (Z.geb_spec (T / 3600) 24);
          [| Z.to_euclidean_division_equations; lia].
        reflexivity.
Qed.

Lemma FormatDuration_parts_witness :
  FormatDuration (93784 * Second + 600000000) = "1d 2h 3m 5s"%string.
Proof.
  exact (FormatDuration_parts (93784 * Second + 600000000)
           ltac:(vm_compute; split; [discriminate | reflexivity])).
Defined.

(** ** The log buffer *)

Lemma addLog_skipn (maxLogs : Z) (buf : list LogMessage) (e : LogMessage) :
  0 <= maxLogs ->
  Z.of_nat (length buf) <= maxLogs ->
  addLog maxLogs buf (Timestamp e) (Level e) (Message e)
  = skipn (length (buf ++ [e]) - Z.to_nat maxLogs) (buf ++ [e]).
Proof.
  intros Hmax Hlen. unfold addLog.
  replace (mkLogMessage (Timestamp e) (Level e) (Message e)) with e
    by (destruct e; reflexivity).
  rewrite length_app. simpl length.
  destruct (Z.gtb_spec (Z.of_nat (length buf + 1)) maxLogs) as [Hgt | Hle].
  - replace (length buf + 1 - Z.to_nat maxLogs)%nat with 1%nat by lia.
    destruct (buf ++ [e]); reflexivity.
  - replace (length buf + 1 - Z.to_nat maxLogs)%nat with 0%nat by lia.
    reflexivity.
Qed.

Lemma addLogs_skipn (maxLogs : Z) (entries : list LogMessage) :
  0 <= maxLogs ->
  forall buf,
    Z.of_nat (length buf) <= maxLogs ->
    addLogs maxLogs buf entries
    = skipn (length (buf ++ entries) - Z.to_nat maxLogs) (buf ++ entries).
Proof.
  intros Hmax. induction entries as [| e es IH]; intros buf Hlen.
  - cbn [addLogs fold_left]. rewrite app_nil_r.
    replace (length buf - Z.to_nat maxLogs)%nat with 0%nat by lia.
    reflexivity.
  - unfold addLogs. cbn [fold_left].
    change (fold_left _ es ?b) with (addLogs maxLogs b es).
    rewrite (addLog_skipn maxLogs buf e Hmax Hlen).
    set (X := buf ++ [e]).
    set (k := (length X - Z.to_nat maxLogs)%nat).
    assert (HX : length X = S (length buf))
      by (unfold X; rewrite length_app; simpl; lia).
    assert (Hk : (k <= length X)%nat) by (unfold k; lia).
    rewrite IH by (rewrite length_skipn; unfold k; lia).
    replace (buf ++ e :: es) with (X ++ es)
      by (unfold X; rewrite <- app_assoc; reflexivity).
    replace (skipn k X ++ es) with (skipn k (X ++ es))
      by (rewrite skipn_app; replace (k - length X)%nat with 0%nat by lia;
          reflexivity).
    rewrite skipn_skipn. f_equal.
    rewrite length_skipn, !length_app. unfold k. lia.
Qed.

(** X22.  The log buffer keeps the latest messages.  Starting from a buffer
    within the limit, after any number of [addLog] calls the buffer holds the
    last [maxLogs] messages of everything logged, oldest first, and never
    more than [maxLogs] of them; what [GetLogs] hands out is that buffer. *)
Theorem addLogs_keeps_latest (maxLogs : Z) (buf entries : list LogMessage) :
  0 <= maxLogs ->
  Z.of_nat (length buf) <= maxLogs ->
  GetLogs (addLogs maxLogs buf entries)
  = skipn (length (buf ++ entries) - Z.to_nat maxLogs) (buf ++ entries)
  /\ Z.of_nat (length (GetLogs (addLogs maxLogs buf entries))) <= maxLogs
  /\ (maxLogs <= Z.of_nat (length (buf ++ entries)) ->
      Z.of_nat (length (GetLogs (addLogs maxLogs buf entries))) = maxLogs).
Proof.
  intros Hmax Hlen. unfold GetLogs.
  rewrite (addLogs_skipn maxLogs entries Hmax buf Hlen).
  split; [reflexivity |]. rewrite length_skipn. split; lia.
Qed.

Lemma addLogs_keeps_latest_witness :
  let e := fun n => mkLogMessage n "INFO" "msg" in
  GetLogs (addLogs 2 [e 0] [e 1; e 2; e 3]) = [e 2; e 3].
Proof.
  exact (proj1 (addLogs_keeps_latest 2
                  [mkLogMessage 0 "INFO" "msg"]
                  [mkLogMessage 1 "INFO" "msg"; mkLogMessage 2 "INFO" "msg";
                   mkLogMessage 3 "INFO" "msg"]
                  ltac:(lia) ltac:(simpl; lia))).
Defined.

(** ** UpdateConfig *)

(** X23.  [UpdateConfig] cannot switch a setting off.  A request never
    brings [MaxChildren] to zero or below, and never empties a network key
    or an administrator password that is set; the deny lists, the peer list
    and the registered peers are left alone.  The key of a request applies
    to the connections admitted from then on: a peer already registered keeps
    the key it was created with. *)
Theorem UpdateConfig_settings (s : Server) (adminPass : string)
  (maxChildren : Z) (newKey : string) :
  let s' := UpdateConfig s adminPass maxChildren newKey in
  (0 < MaxChildren (cfg s) -> 0 < MaxChildren (cfg s'))
  /\ (NetworkKey (cfg s) <> ""%string -> NetworkKey (cfg s') <> ""%string)
  /\ (AdminPass (cfg s) <> ""%string -> AdminPass (cfg s') <> ""%string)
  /\ MaxChildren (cfg s')
     = (if maxChildren >? 0 then maxChildren else MaxChildren (cfg s))
  /\ BannedIDs (cfg s') = BannedIDs (cfg s)
  /\ BannedHosts (cfg s') = BannedHosts (cfg s)
  /\ Peers (cfg s') = Peers (cfg s)
  /\ peers s' = peers s
  /\ (forall conn now s2,
        handleNewConn s' conn now = (s2, Accepted) ->
        networkKey <$> peers s2 !! RemoteAddr_String conn
        = Some (if String.eqb newKey "" then NetworkKey (cfg s)
                else newKey)).
Proof.
  intros s'.
  assert (Hkey : NetworkKey (cfg s')
                 = if String.eqb newKey "" then NetworkKey (cfg s)
                   else newKey).
  { unfold s', UpdateConfig. cbn [cfg with_cfg].
    destruct (String.eqb newKey ""), (maxChildren >? 0),
      (String.eqb adminPass ""); reflexivity. }
  assert (Hmax : MaxChildren (cfg s')
                 = if maxChildren >? 0 then maxChildren
                   else MaxChildren (cfg s)).
  { unfold s', UpdateConfig. cbn [cfg with_cfg].
    destruct (String.eqb newKey ""), (maxChildren >? 0),
      (String.eqb adminPass ""); reflexivity. }
  assert (Hpass : AdminPass (cfg s')
                  = if String.eqb adminPass "" then AdminPass (cfg s)
                    else adminPass).
  { unfold s', UpdateConfig. cbn [cfg with_cfg].
    destruct (String.eqb newKey ""), (maxChildren >? 0),
      (String.eqb adminPass ""); reflexivity. }
  split.
  { rewrite Hmax. destruct (Z.gtb_spec maxChildren 0); lia. }
  split.
  { rewrite Hkey. destruct (String.eqb_spec newKey ""); auto. }
  split.
  { rewrite Hpass. destruct (String.eqb_spec adminPass ""); auto. }
  split; [exact Hmax |].
  repeat split;
    try (unfold s', UpdateConfig; cbn [cfg with_cfg peers];
         destruct (String.eqb newKey ""), (maxChildren >? 0),
           (String.eqb adminPass ""); reflexivity).
  intros conn now s2 Hadm.
  apply handleNewConn_accepts_unbanned in Hadm as (_ & _ & _ & Hp).
  rewrite Hp. cbn [fmap option_fmap option_map networkKey NewPeer].
  rewrite Hkey. reflexivity.
Qed.
